(** * BFF computational-life engine: a shallow embedding and its properties

    The development follows the TypeScript engine [BFFSimulation]
    (the current engine, with the pre-computed jump table, and the earlier
    engine kept under [src/services/bffSimulation.ts], which resolves
    brackets by scanning at jump time).

    Conventions of the embedding:
    - JavaScript numbers that hold integers (indices, counters, sizes) are
      [Z]; 32-bit wrap-around and the typed-array stores are written out.
    - JavaScript numbers that hold fractions (PRNG outputs, rates, entropy)
      are IEEE-754 binary64 values, [spec_float] with the operations of
      [SpecFloat] at precision 53.
    - A [Uint8Array] is a [list Z] of bytes; a read out of range is
      [None] (JavaScript's [undefined]) and a write out of range is dropped.
    - [Math.log2] is implementation-approximated in ECMAScript; it is a
      parameter of the statistics code. *)

From stdpp Require Import base numbers list.
From Stdlib Require Import ZArith Lia SpecFloat.

Local Open Scope Z_scope.

(** ** Typed arrays *)

Module TypedArray.

(** [a[i]] on a typed array: [undefined] outside the array. *)
Definition get (a : list Z) (i : Z) : option Z :=
  if i <? 0 then None else a !! Z.to_nat i.

(** [a[i] = v] where [v] already is an element value; dropped when
    [i] is outside the array. *)
Definition set (a : list Z) (i v : Z) : list Z :=
  if i <? 0 then a else <[Z.to_nat i := v]> a.

(** Storing a value that was read from a typed array: [undefined]
    converts to [0]. *)
Definition elem (o : option Z) : Z := default 0 o.

(** [ToUint8]: what a [Uint8Array] keeps of an integer. *)
Definition u8 (v : Z) : Z := v mod 256.

(** [ToInt16]: what an [Int16Array] keeps of an integer. *)
Definition i16 (v : Z) : Z := (v + 32768) mod 65536 - 32768.

End TypedArray.

(** ** The virtual machine *)

Module VM.
Import TypedArray.

Definition CMD_LEFT : Z := 60.
Definition CMD_RIGHT : Z := 62.
Definition CMD_H1_DEC : Z := 123.
Definition CMD_H1_INC : Z := 125.
Definition CMD_DEC : Z := 45.
Definition CMD_INC : Z := 43.
Definition CMD_COPY_0_TO_1 : Z := 46.
Definition CMD_COPY_1_TO_0 : Z := 44.
Definition CMD_JZ : Z := 91.
Definition CMD_JNZ : Z := 93.

(** The counters [execute] returns. *)
Record counters := Counters {
  complexity : Z;
  copies : Z;
  neighborWrites : Z
}.

(** The local variables of [execute], with the tape it mutates. *)
Record machine := Machine {
  tape : list Z;
  head0 : Z;
  head1 : Z;
  ip : Z;
  tally : counters
}.

Definition bump_complexity (c : counters) : counters :=
  Counters (complexity c + 1) (copies c) (neighborWrites c).

(** The bracket scan, shared in shape by the pre-pass and by the earlier
    engine's jump: [while (depth > 0 && scanned < len)], reading
    [tape[scanIp & mask]]; [opening] deepens, [closing] closes, and
    [dir] is [1] (forward) or [-1] (backward). [budget] is
    [len - scanned]. Returns the final [(depth, scanIp)]. *)
Fixpoint scan (t : list Z) (mask opening closing dir : Z)
    (budget : nat) (depth scanIp : Z) : Z * Z :=
  match budget with
  | O => (depth, scanIp)
  | S budget' =>
      if depth >? 0 then
        let instr := get t (Z.land scanIp mask) in
        let depth' :=
          if bool_decide (instr = Some opening) then depth + 1
          else if bool_decide (instr = Some closing) then depth - 1
          else depth in
        scan t mask opening closing dir budget' depth' (scanIp + dir)
      else (depth, scanIp)
  end.

(** What the pre-pass leaves in [jumps[i]]: [-1], or the masked position
    of the matching bracket as the [Int16Array] keeps it. *)
Definition jump_entry (t : list Z) (len mask i : Z) : Z :=
  if bool_decide (get t i = Some CMD_JZ) then
    let '(depth, scanIp) := scan t mask CMD_JZ CMD_JNZ 1 (Z.to_nat len) 1 (i + 1) in
    if depth =? 0 then i16 (Z.land (scanIp - 1) mask) else -1
  else if bool_decide (get t i = Some CMD_JNZ) then
    let '(depth, scanIp) := scan t mask CMD_JNZ CMD_JZ (-1) (Z.to_nat len) 1 (i - 1) in
    if depth =? 0 then i16 (Z.land (scanIp + 1) mask) else -1
  else -1.

(** The jump table after the two pre-pass loops over [i = 0 .. len-1]. *)
Definition build_jumps (t : list Z) (len mask : Z) : list Z :=
  map (fun i => jump_entry t len mask (Z.of_nat i)) (seq 0 (Z.to_nat len)).

(** How a taken bracket finds the next [ip]; [None] is the immediate
    [return] of an unmatched bracket. The first argument is the tape at
    the time of the jump, the second the unmasked [ip], the third tells
    [[] from []]. *)
Definition resolver := list Z -> Z -> bool -> option Z.

(** Current engine: read the table built before the main loop. *)
Definition resolve_table (jumps : list Z) (mask : Z) : resolver :=
  fun _ ip _ =>
    let target := default (-1) (get jumps (Z.land ip mask)) in
    if target =? -1 then None else Some target.

(** Earlier engine: scan the tape as it is now, from the unmasked [ip]. *)
Definition resolve_scan (len mask : Z) : resolver :=
  fun t ip forward =>
    if forward then
      let '(depth, scanIp) := scan t mask CMD_JZ CMD_JNZ 1 (Z.to_nat len) 1 (ip + 1) in
      if depth =? 0 then Some (scanIp - 1) else None
    else
      let '(depth, scanIp) := scan t mask CMD_JNZ CMD_JZ (-1) (Z.to_nat len) 1 (ip - 1) in
      if depth =? 0 then Some (scanIp + 1) else None.

(** The [switch (instr)] of the main loop: which [case] a tape read
    selects; [undefined] and every other byte go to [default]. *)
Inductive opcode :=
  | OpLeft | OpRight | OpH1Dec | OpH1Inc | OpDec | OpInc
  | OpCopy01 | OpCopy10 | OpJz | OpJnz | OpOther.

Definition decode (instr : option Z) : opcode :=
  match instr with
  | None => OpOther
  | Some b =>
      if b =? CMD_LEFT then OpLeft
      else if b =? CMD_RIGHT then OpRight
      else if b =? CMD_H1_DEC then OpH1Dec
      else if b =? CMD_H1_INC then OpH1Inc
      else if b =? CMD_DEC then OpDec
      else if b =? CMD_INC then OpInc
      else if b =? CMD_COPY_0_TO_1 then OpCopy01
      else if b =? CMD_COPY_1_TO_0 then OpCopy10
      else if b =? CMD_JZ then OpJz
      else if b =? CMD_JNZ then OpJnz
      else OpOther
  end.

(** After the [switch]: [if (isValidOp) complexity++; ip++]. *)
Definition advance (valid : bool) (m : machine) : machine :=
  Machine (tape m) (head0 m) (head1 m) (ip m + 1)
          (if valid then bump_complexity (tally m) else tally m).

(** [tape[head0 & mask] === 0]. *)
Definition cell_is_zero (t : list Z) (h0 : Z) : bool :=
  bool_decide (get t h0 = Some 0).

(** One turn of the main loop. [inl m'] continues with [m'];
    [inr m'] is the [return] from inside the [switch]. *)
Definition cycle (resolve : resolver) (tapeSize mask : Z) (m : machine)
    : machine + machine :=
  let currentIp := Z.land (ip m) mask in
  let t := tape m in
  let h0 := Z.land (head0 m) mask in
  let h1 := Z.land (head1 m) mask in
  let c := tally m in
  match decode (get t currentIp) with
  | OpLeft =>
      inl (advance true (Machine t (Z.land (head0 m - 1) mask) (head1 m) (ip m) c))
  | OpRight =>
      inl (advance true (Machine t (Z.land (head0 m + 1) mask) (head1 m) (ip m) c))
  | OpH1Dec =>
      inl (advance true (Machine t (head0 m) (Z.land (head1 m - 1) mask) (ip m) c))
  | OpH1Inc =>
      inl (advance true (Machine t (head0 m) (Z.land (head1 m + 1) mask) (ip m) c))
  | OpDec =>
      inl (advance true (Machine (set t h0 (Z.land (elem (get t h0) - 1) 255))
                                 (head0 m) (head1 m) (ip m) c))
  | OpInc =>
      inl (advance true (Machine (set t h0 (Z.land (elem (get t h0) + 1) 255))
                                 (head0 m) (head1 m) (ip m) c))
  | OpCopy01 =>
      inl (advance true (Machine (set t h1 (elem (get t h0))) (head0 m) (head1 m) (ip m)
             (Counters (complexity c) (copies c + 1)
                (if h1 >=? tapeSize then neighborWrites c + 1 else neighborWrites c))))
  | OpCopy10 =>
      inl (advance true (Machine (set t h0 (elem (get t h1))) (head0 m) (head1 m) (ip m)
             (Counters (complexity c) (copies c + 1) (neighborWrites c))))
  | OpJz =>
      if cell_is_zero t h0 then
        match resolve t (ip m) true with
        | Some target => inl (advance true (Machine t (head0 m) (head1 m) target c))
        | None => inr m
        end
      else inl (advance true m)
  | OpJnz =>
      if cell_is_zero t h0 then inl (advance true m)
      else
        match resolve t (ip m) false with
        | Some target => inl (advance true (Machine t (head0 m) (head1 m) target c))
        | None => inr m
        end
  | OpOther => inl (advance false m)
  end.

(** [while (cycles < limit)]: [fuel] is [limit - cycles]. *)
Fixpoint run (resolve : resolver) (tapeSize mask : Z) (fuel : nat) (m : machine)
    : machine :=
  match fuel with
  | O => m
  | S fuel' =>
      match cycle resolve tapeSize mask m with
      | inl m' => run resolve tapeSize mask fuel' m'
      | inr m' => m'
      end
  end.

Definition start (t : list Z) : machine := Machine t 0 0 0 (Counters 0 0 0).

(** [execute] of the current engine (pre-computed jump table). Returns the
    counters and the tape as the call leaves it. *)
Definition execute (tapeSize limit : Z) (t : list Z) : counters * list Z :=
  let len := tapeSize * 2 in
  let mask := len - 1 in
  let jumps := build_jumps t len mask in
  let m := run (resolve_table jumps mask) tapeSize mask (Z.to_nat limit) (start t) in
  (tally m, tape m).

(** [execute] of the earlier engine (scan at jump time). *)
Definition execute_scanning (tapeSize limit : Z) (t : list Z) : counters * list Z :=
  let len := tapeSize * 2 in
  let mask := len - 1 in
  let m := run (resolve_scan len mask) tapeSize mask (Z.to_nat limit) (start t) in
  (tally m, tape m).

End VM.


(** ** JavaScript numbers *)

Module F64.

Definition prec : Z := 53.
Definition emax : Z := 1024.

(** An integer as the nearest binary64 value (exact below [2^53]). *)
Definition of_Z (z : Z) : spec_float := binary_normalize prec emax z 0 false.

Definition add : spec_float -> spec_float -> spec_float := SFadd prec emax.
Definition sub : spec_float -> spec_float -> spec_float := SFsub prec emax.
Definition mul : spec_float -> spec_float -> spec_float := SFmul prec emax.
Definition div : spec_float -> spec_float -> spec_float := SFdiv prec emax.
Definition ltb : spec_float -> spec_float -> bool := SFltb.
Definition leb : spec_float -> spec_float -> bool := SFleb.
Definition abs : spec_float -> spec_float := SFabs.

Definition zero : spec_float := S754_zero false.
Definition one : spec_float := of_Z 1.

(** The literals [0.1] and [0.05]: the binary64 values nearest to them. *)
Definition lit_0_1 : spec_float := S754_finite false 7205759403792794 (-56).
Definition lit_0_05 : spec_float := S754_finite false 7205759403792794 (-57).

(** A finite value as a fraction [n / d] with [d > 0]. *)
Definition fraction (s : bool) (m : positive) (e : Z) : Z * Z :=
  let n := if s then Z.neg m else Z.pos m in
  if 0 <=? e then (n * 2 ^ e, 1) else (n, 2 ^ (- e)).

(** The integer part, towards zero; [None] for NaN and the infinities. *)
Definition trunc (f : spec_float) : option Z :=
  match f with
  | S754_zero _ => Some 0
  | S754_finite s m e => let '(n, d) := fraction s m e in Some (Z.quot n d)
  | _ => None
  end.

(** [Math.floor]. *)
Definition floor (f : spec_float) : spec_float :=
  match f with
  | S754_finite s m e => let '(n, d) := fraction s m e in of_Z (n / d)
  | _ => f
  end.

(** [Math.round]: the nearest integer, halves going up. *)
Definition round (f : spec_float) : spec_float :=
  match f with
  | S754_finite s m e => let '(n, d) := fraction s m e in of_Z ((2 * n + d) / (2 * d))
  | _ => f
  end.

Definition to_uint32 (x : Z) : Z := x mod 2 ^ 32.
Definition to_int32 (x : Z) : Z := (x + 2 ^ 31) mod 2 ^ 32 - 2 ^ 31.

(** [f | 0]: [ToInt32] of a number. *)
Definition int32_of (f : spec_float) : Z := to_int32 (default 0 (trunc f)).

(** The integer a number holds when it is used as a loop bound or an
    index after [Math.floor]; [None] for NaN and the infinities. *)
Definition integer (f : spec_float) : option Z := trunc f.

(** The least exponent of the format. *)
Definition emin : Z := 3 - emax - prec.

(** The value [z · 2^e] for a positive integer [z] below [2^53], as the
    format writes it: a 53-bit mantissa and the matching exponent. *)
Definition canonical (z : Z) (e : Z) : spec_float :=
  S754_finite false (Z.to_pos (z * 2 ^ (53 - Zdigits2 z))) (e + Zdigits2 z - 53).

End F64.

(** ** The pseudo-random generator (Mulberry32) *)

Module PRNG.
Import F64.

(** The 32-bit operators, on integers: each converts its operands with
    [ToInt32] or [ToUint32] as JavaScript does. *)
Definition bxor (a b : Z) : Z := Z.lxor (to_int32 a) (to_int32 b).
Definition bor (a b : Z) : Z := Z.lor (to_int32 a) (to_int32 b).
Definition ushr (a n : Z) : Z := Z.shiftr (to_uint32 a) n.
Definition imul (a b : Z) : Z := to_int32 (to_uint32 a * to_uint32 b).

(** [this.state]: a JavaScript number. *)
Definition state := spec_float.

Definition create (seed : Z) : state := of_Z seed.

(** [next()]: the new state and the number returned. The state is
    advanced by a floating-point addition and is never reduced. *)
Definition next (s : state) : state * spec_float :=
  let s' := add s (of_Z 1831565813) in
  let t := default 0 (trunc s') in
  let t := imul (bxor t (ushr t 15)) (bor t 1) in
  let t := bxor t (t + imul (bxor t (ushr t 7)) (bor t 61)) in
  (s', div (of_Z (ushr (bxor t (ushr t 14)) 0)) (of_Z 4294967296)).

(** [(rng.next() * n) | 0] once [rng.next()] has returned [r]. *)
Definition scale (r : spec_float) (n : Z) : Z := int32_of (mul r (of_Z n)).

End PRNG.


(** ** The engine *)

Inductive InteractionTopology := spatial | global.
Inductive SeedingMode := random | balanced.

Record SimulationConfig := {
  gridWidth : Z;
  gridHeight : Z;
  tapeSize : Z;
  mutationRate : spec_float;
  instructionLimit : Z;
  topology : InteractionTopology;
  seedingMode : SeedingMode;
  stepsPerFrame : Z;
  seed : Z
}.

(** [SpeciesData]; [code] is the genome whose bytes the source joins with
    commas, and the fields [count] and [entropy] carry a prefix. *)
Record SpeciesData := {
  rank : Z;
  code : list Z;
  species_count : spec_float;
  dominance : spec_float;
  species_entropy : spec_float
}.

Record CensusData := {
  speciesCount : Z;
  topSpecies : list SpeciesData
}.

Record SimulationStats := {
  epoch : Z;
  avgComplexity : spec_float;
  replicationRate : spec_float;
  effectiveReplication : spec_float;
  entropy : spec_float;
  zeroDensity : spec_float;
  census : CensusData;
  lastCensusEpoch : Z
}.

(** The fields of [BFFSimulation]. The interaction buffer and the jump
    table are scratch arrays of length [2 * tapeSize] that every use
    overwrites in full before reading; they are locals of [interact] and
    [execute] here. (Only an [updateConfig] that throws half-way can
    leave an engine whose scratch arrays have another length; see
    [outcome].) *)
Record BFFSimulation := {
  config : SimulationConfig;
  width : Z;
  height : Z;
  data : list Z;
  rng : PRNG.state;
  stats : SimulationStats;
  history : list SimulationStats;
  lastHistoryStats : option SimulationStats;
  epochInteractions : Z;
  epochTotalComplexity : Z;
  epochTotalCopies : Z;
  epochTotalEffectiveCopies : Z;
  epochSize : Z
}.

Definition CENSUS_INTERVAL : Z := 50.

Definition VALID_OPS : list Z :=
  [VM.CMD_LEFT; VM.CMD_RIGHT; VM.CMD_H1_DEC; VM.CMD_H1_INC; VM.CMD_DEC; VM.CMD_INC;
   VM.CMD_COPY_0_TO_1; VM.CMD_COPY_1_TO_0; VM.CMD_JZ; VM.CMD_JNZ].

Module Js.

(** [a % b] on integers: the remainder has the sign of [a]; [None] is the
    NaN of a zero divisor. *)
Definition rem (a b : Z) : option Z :=
  if b =? 0 then None else Some (Z.rem a b).

(** How [slice] and [subarray] read a relative index. *)
Definition rel_index (len k : Z) : Z :=
  if k <? 0 then Z.max (len + k) 0 else Z.min k len.

(** [a.slice(b, e)] and the contents of [a.subarray(b, e)]. *)
Definition slice (a : list Z) (b e : Z) : list Z :=
  let len := Z.of_nat (length a) in
  let k := rel_index len b in
  let final := rel_index len e in
  take (Z.to_nat (final - k)) (drop (Z.to_nat k) a).

End Js.

Section Engine.

(** [Math.log2]. *)
Variable Math_log2 : spec_float -> spec_float.

(** The host's allocator: whether an array buffer of that many bytes can
    be allocated now. *)
Variable Host_allocates : Z -> bool.

Import TypedArray.

(** Assignments to single fields of the engine. *)
Definition set_config (e : BFFSimulation) (c : SimulationConfig) : BFFSimulation :=
  {| config := c; width := width e; height := height e;
     data := data e; rng := rng e; stats := stats e; history := history e;
     lastHistoryStats := lastHistoryStats e;
     epochInteractions := epochInteractions e;
     epochTotalComplexity := epochTotalComplexity e;
     epochTotalCopies := epochTotalCopies e;
     epochTotalEffectiveCopies := epochTotalEffectiveCopies e;
     epochSize := epochSize e |}.

Definition set_rng (e : BFFSimulation) (s : PRNG.state) : BFFSimulation :=
  {| config := config e; width := width e; height := height e;
     data := data e; rng := s; stats := stats e; history := history e;
     lastHistoryStats := lastHistoryStats e;
     epochInteractions := epochInteractions e;
     epochTotalComplexity := epochTotalComplexity e;
     epochTotalCopies := epochTotalCopies e;
     epochTotalEffectiveCopies := epochTotalEffectiveCopies e;
     epochSize := epochSize e |}.

Definition set_data (e : BFFSimulation) (d : list Z) : BFFSimulation :=
  {| config := config e; width := width e; height := height e;
     data := d; rng := rng e; stats := stats e; history := history e;
     lastHistoryStats := lastHistoryStats e;
     epochInteractions := epochInteractions e;
     epochTotalComplexity := epochTotalComplexity e;
     epochTotalCopies := epochTotalCopies e;
     epochTotalEffectiveCopies := epochTotalEffectiveCopies e;
     epochSize := epochSize e |}.

(** The four accumulator updates of [interact]. *)
Definition account (e : BFFSimulation) (c : VM.counters) : BFFSimulation :=
  {| config := config e; width := width e; height := height e;
     data := data e; rng := rng e; stats := stats e; history := history e;
     lastHistoryStats := lastHistoryStats e;
     epochInteractions := epochInteractions e + 1;
     epochTotalComplexity := epochTotalComplexity e + VM.complexity c;
     epochTotalCopies := epochTotalCopies e + VM.copies c;
     epochTotalEffectiveCopies := epochTotalEffectiveCopies e + VM.neighborWrites c;
     epochSize := epochSize e |}.

(** *** Statistics passes *)

(** [SAMPLE_RATE = 0.1; step = Math.floor(1 / SAMPLE_RATE);
    if ((step & 1) === 0) step++]. *)
Definition sample_step : Z :=
  let step := default 0 (F64.integer (F64.floor (F64.div F64.one F64.lit_0_1))) in
  if Z.land step 1 =? 0 then step + 1 else step.

(** [counts[b]++] on an [Int32Array] of 256 buckets; [b] is what a
    typed-array read returned. *)
Definition bump (counts : list Z) (b : option Z) : list Z :=
  match b with
  | Some v => set counts v (elem (get counts v) + 1)
  | None => counts
  end.

(** [for (let i = ...; i < len; i += step) { counts[data[i]]++; samples++ }],
    entered at index [i]; [fuel] bounds the number of turns. *)
Fixpoint tally_loop (fuel : nat) (d : list Z) (step i : Z)
    (counts : list Z) (samples : Z) : list Z * Z :=
  match fuel with
  | O => (counts, samples)
  | S fuel' =>
      if i <? Z.of_nat (length d) then
        tally_loop fuel' d step (i + step) (bump counts (get d i)) (samples + 1)
      else (counts, samples)
  end.

(** [for (i = 0; i < 256; i++) if (counts[i] > 0)
      { p = counts[i] / total; entropy -= p * Math.log2(p) }]. *)
Definition entropy_of (counts : list Z) (total : spec_float) : spec_float :=
  fold_left
    (fun acc c =>
       if c >? 0 then
         let p := F64.div (F64.of_Z c) total in
         F64.sub acc (F64.mul p (Math_log2 p))
       else acc)
    counts F64.zero.

(** [calculateGridMetrics()]: [(entropy, zeroDensity)]. *)
Definition calculateGridMetrics (d : list Z) : spec_float * spec_float :=
  let '(counts, samples) :=
    tally_loop (length d) d sample_step 0 (replicate 256 0) 0 in
  (entropy_of counts (F64.of_Z samples),
   F64.div (F64.of_Z (elem (get counts 0))) (F64.of_Z samples)).

(** [calculateGenomeEntropy(genome)]. *)
Definition calculateGenomeEntropy (genome : list Z) : spec_float :=
  let counts := fold_left (fun cs b => bump cs (Some b)) genome (replicate 256 0) in
  entropy_of counts (F64.of_Z (Z.of_nat (length genome))).

(** [speciesMap.set(key, (speciesMap.get(key) || 0) + 1)] on a [Map]
    kept in insertion order. *)
Fixpoint species_bump (key : list Z) (m : list (list Z * Z)) : list (list Z * Z) :=
  match m with
  | [] => [(key, 1)]
  | (k, n) :: m' =>
      if bool_decide (k = key) then (k, n + 1) :: m'
      else (k, n) :: species_bump key m'
  end.

(** The census loop [for (let i = ...; i < totalCells; i += step)]. *)
Fixpoint census_loop (fuel : nat) (d : list Z) (tapeSize totalCells step i : Z)
    (m : list (list Z * Z)) (actualSampleCount : Z) : list (list Z * Z) * Z :=
  match fuel with
  | O => (m, actualSampleCount)
  | S fuel' =>
      if i <? totalCells then
        let start := i * tapeSize in
        let genome := Js.slice d start (start + tapeSize) in
        census_loop fuel' d tapeSize totalCells step (i + step)
                    (species_bump genome m) (actualSampleCount + 1)
      else (m, actualSampleCount)
  end.

(** [sort((a, b) => b[1] - a[1])]: a stable sort, larger counts first. *)
Fixpoint sort_insert (x : list Z * Z) (l : list (list Z * Z)) : list (list Z * Z) :=
  match l with
  | [] => [x]
  | y :: l' => if y.2 - x.2 <=? 0 then x :: y :: l' else y :: sort_insert x l'
  end.

Definition sort_species (l : list (list Z * Z)) : list (list Z * Z) :=
  foldr sort_insert [] l.

(** [code.split(',').map(Number)]: the genome back from its key; the
    empty key yields the single byte [0]. *)
Definition genome_of_code (c : list Z) : list Z :=
  match c with [] => [0] | _ => c end.

(** The record the [map] callback builds for one ranked entry. *)
Definition species_record (totalCells actualSampleCount : Z)
    (index : nat) (entry : list Z * Z) : SpeciesData :=
  let dominance := F64.div (F64.of_Z entry.2) (F64.of_Z actualSampleCount) in
  {| rank := Z.of_nat index + 1;
     code := entry.1;
     species_count := F64.floor (F64.mul dominance (F64.of_Z totalCells));
     dominance := dominance;
     species_entropy := calculateGenomeEntropy (genome_of_code entry.1) |}.

(** [performCensus()]. *)
Definition performCensus (w h tapeSize : Z) (d : list Z) : CensusData :=
  let totalCells := w * h in
  let '(speciesMap, actualSampleCount) :=
    census_loop (Z.to_nat totalCells) d tapeSize totalCells sample_step 0 [] 0 in
  let sortedSpecies := take 5 (sort_species speciesMap) in
  {| speciesCount := Z.of_nat (length speciesMap);
     topSpecies := imap (species_record totalCells actualSampleCount) sortedSpecies |}.

(** *** Reset *)

(** The two seeding loops of [reset]: [n] more bytes to draw. *)
Fixpoint fill (mode : SeedingMode) (n : nat) (s : PRNG.state) : list Z * PRNG.state :=
  match n with
  | O => ([], s)
  | S n' =>
      let '(s1, r) := PRNG.next s in
      let b :=
        match mode with
        | balanced =>
            let choices := VALID_OPS ++ [0] in
            let k := F64.floor (F64.mul r (F64.of_Z (Z.of_nat (length choices)))) in
            u8 (elem (get choices (default 0 (F64.integer k))))
        | random => u8 (PRNG.scale r 256)
        end in
      let '(rest, s2) := fill mode n' s1 in
      (b :: rest, s2)
  end.

(** [reset()], on an engine whose fields the caller has set. *)
Definition reset (e : BFFSimulation) : BFFSimulation :=
  let c := config e in
  let '(d, s) := fill (seedingMode c) (length (data e)) (PRNG.create (seed c)) in
  let metrics := calculateGridMetrics d in
  let initialCensus := performCensus (width e) (height e) (tapeSize c) d in
  let st :=
    {| epoch := 0;
       avgComplexity := F64.zero;
       replicationRate := F64.zero;
       effectiveReplication := F64.zero;
       entropy := metrics.1;
       zeroDensity := metrics.2;
       census := initialCensus;
       lastCensusEpoch := 0 |} in
  {| config := c; width := width e; height := height e;
     data := d; rng := s;
     stats := st; history := [st]; lastHistoryStats := Some st;
     epochInteractions := 0; epochTotalComplexity := 0;
     epochTotalCopies := 0; epochTotalEffectiveCopies := 0;
     epochSize := epochSize e |}.

(** The statistics object a field initialiser gives a fresh engine,
    before [reset] replaces it. *)
Definition initial_stats : SimulationStats :=
  {| epoch := 0; avgComplexity := F64.zero; replicationRate := F64.zero;
     effectiveReplication := F64.zero; entropy := F64.of_Z 8;
     zeroDensity := F64.zero;
     census := {| speciesCount := 0; topSpecies := [] |};
     lastCensusEpoch := 0 |}.

(** [new Uint8Array(n)] ([elementBytes = 1]) and [new Int16Array(n)]
    ([elementBytes = 2]): [n] zeros. [RangeError] ([None]) for a negative
    length, for a length above [2^53 - 1], and for a buffer the host
    cannot allocate. *)
Definition alloc (elementBytes n : Z) : option (list Z) :=
  if n <? 0 then None
  else if 2 ^ 53 - 1 <? n then None
  else if Host_allocates (elementBytes * n) then Some (replicate (Z.to_nat n) 0)
  else None.

(** [new BFFSimulation(config)]; [None] when one of the three allocations
    throws: no engine comes into being. *)
Definition new (c : SimulationConfig) : option BFFSimulation :=
  let w := gridWidth c in
  let h := gridHeight c in
  d ← alloc 1 (w * h * tapeSize c);
  _ ← alloc 1 (tapeSize c * 2);
  _ ← alloc 2 (tapeSize c * 2);
  Some (reset
    {| config := c; width := w; height := h; data := d;
       rng := PRNG.create (seed c);
       stats := initial_stats; history := []; lastHistoryStats := None;
       epochInteractions := 0; epochTotalComplexity := 0;
       epochTotalCopies := 0; epochTotalEffectiveCopies := 0;
       epochSize := w * h |}).

(** How a method call on an existing engine ends: it returns, or it
    throws; either way the engine is left in some state. *)
Inductive outcome : Type :=
  | Returned (e : BFFSimulation)
  | Threw (e : BFFSimulation).

(** [updateConfig(newConfig)]. [config], [width] and [height] are
    assigned before the arrays are allocated, and the grid before the
    two scratch arrays: an allocation that throws leaves what was
    assigned before it. [epochSize] is [readonly] and keeps its value. *)
Definition updateConfig (newConfig : SimulationConfig) (e : BFFSimulation)
    : outcome :=
  let mustReset :=
    negb (gridWidth newConfig =? width e)
    || negb (gridHeight newConfig =? height e)
    || negb (tapeSize newConfig =? tapeSize (config e))
    || negb (seed newConfig =? seed (config e)) in
  if mustReset then
    let w := gridWidth newConfig in
    let h := gridHeight newConfig in
    let e1 :=
      {| config := newConfig; width := w; height := h; data := data e;
         rng := rng e;
         stats := stats e; history := history e;
         lastHistoryStats := lastHistoryStats e;
         epochInteractions := epochInteractions e;
         epochTotalComplexity := epochTotalComplexity e;
         epochTotalCopies := epochTotalCopies e;
         epochTotalEffectiveCopies := epochTotalEffectiveCopies e;
         epochSize := epochSize e |} in
    match alloc 1 (w * h * tapeSize newConfig) with
    | None => Threw e1
    | Some d =>
        let e2 := set_data e1 d in
        match alloc 1 (tapeSize newConfig * 2), alloc 2 (tapeSize newConfig * 2) with
        | Some _, Some _ => Returned (reset (set_rng e2 (PRNG.create (seed newConfig))))
        | _, _ => Threw e2
        end
    end
  else Returned (set_config e newConfig).

(** [getCellAt(x, y)]. A NaN index (zero width or height) reads as [0]
    in [slice]. *)
Definition getCellAt (x y : Z) (e : BFFSimulation) : list Z :=
  let idx :=
    sx ← Js.rem (x + width e) (width e);
    sy ← Js.rem (y + height e) (height e);
    Some ((sy * width e + sx) * tapeSize (config e)) in
  match idx with
  | Some i => Js.slice (data e) i (i + tapeSize (config e))
  | None => Js.slice (data e) 0 0
  end.

(** *** Mutation *)

(** How many times [for (let i = 0; i < n; i++)] runs its body for the
    number [n] that [mutate] computed (an integer, NaN or an infinity);
    [None] when the loop never ends: [i] cannot pass [2^53]. *)
Definition loop_bound (n : spec_float) : option nat :=
  match n with
  | S754_nan => Some O
  | S754_infinity true => Some O
  | S754_infinity false => None
  | _ =>
      let k := default 0 (F64.integer n) in
      if k <=? 2 ^ 53 then Some (Z.to_nat k) else None
  end.

(** The mutation loop: [n] more mutations. *)
Fixpoint mutate_loop (n : nat) (totalBytes : Z) (d : list Z) (s : PRNG.state)
    : list Z * PRNG.state :=
  match n with
  | O => (d, s)
  | S n' =>
      let '(s1, r1) := PRNG.next s in
      let idx := PRNG.scale r1 totalBytes in
      let '(s2, r2) := PRNG.next s1 in
      mutate_loop n' totalBytes (set d idx (u8 (PRNG.scale r2 256))) s2
  end.

(** [mutate()], on the grid and the generator; [None] when its loop
    never ends. *)
Definition mutate (rate : spec_float) (d : list Z) (s : PRNG.state)
    : option (list Z * PRNG.state) :=
  if F64.leb rate F64.zero then Some (d, s)
  else
    let totalBytes := Z.of_nat (length d) in
    let expectedMutations := F64.mul (F64.of_Z totalBytes) rate in
    let numMutations := F64.floor expectedMutations in
    let '(s1, r) := PRNG.next s in
    let numMutations :=
      if F64.ltb r (F64.sub expectedMutations numMutations)
      then F64.add numMutations F64.one else numMutations in
    n ← loop_bound numMutations;
    Some (mutate_loop n totalBytes d s1).

(** *** Epochs *)

(** The history rule of [completeEpoch]: [shouldLog]. *)
Definition shouldLog (isCensusEpoch : bool) (now : SimulationStats)
    (last : option SimulationStats) : bool :=
  if isCensusEpoch then true
  else
    match last with
    | Some l =>
        let dEntropy := F64.abs (F64.sub (entropy now) (entropy l)) in
        let dZero := F64.abs (F64.sub (zeroDensity now) (zeroDensity l)) in
        F64.ltb F64.lit_0_1 dEntropy || F64.ltb F64.lit_0_05 dZero
    | None => true
    end.

(** [completeEpoch()]. *)
Definition completeEpoch (e : BFFSimulation) : option BFFSimulation :=
  '(d, s) ← mutate (mutationRate (config e)) (data e) (rng e);
  let old := stats e in
  let epoch' := epoch old + 1 in
  let size := F64.of_Z (epochSize e) in
  let metrics := calculateGridMetrics d in
  let isCensusEpoch := Z.rem epoch' CENSUS_INTERVAL =? 0 in
  let st :=
    {| epoch := epoch';
       avgComplexity := F64.div (F64.of_Z (epochTotalComplexity e)) size;
       replicationRate := F64.div (F64.of_Z (epochTotalCopies e)) size;
       effectiveReplication := F64.div (F64.of_Z (epochTotalEffectiveCopies e)) size;
       entropy := metrics.1;
       zeroDensity := metrics.2;
       census :=
         if isCensusEpoch
         then performCensus (width e) (height e) (tapeSize (config e)) d
         else census old;
       lastCensusEpoch := if isCensusEpoch then epoch' else lastCensusEpoch old |} in
  let log := shouldLog isCensusEpoch st (lastHistoryStats e) in
  Some
    {| config := config e; width := width e; height := height e;
       data := d; rng := s; stats := st;
       history := if log then history e ++ [st] else history e;
       lastHistoryStats := if log then Some st else lastHistoryStats e;
       epochInteractions := 0; epochTotalComplexity := 0;
       epochTotalCopies := 0; epochTotalEffectiveCopies := 0;
       epochSize := epochSize e |}.

(** *** Interaction *)

(** The [do ... while (nx === x && ny === y)] of the global topology;
    [fuel] bounds the number of rounds and [None] is a loop that has not
    left within it. *)
Fixpoint pick_global (fuel : nat) (s : PRNG.state) (w h x y : Z)
    : option (PRNG.state * Z * Z) :=
  match fuel with
  | O => None
  | S fuel' =>
      let '(s1, r1) := PRNG.next s in
      let nx := PRNG.scale r1 w in
      let '(s2, r2) := PRNG.next s1 in
      let ny := PRNG.scale r2 h in
      if (nx =? x) && (ny =? y) then pick_global fuel' s2 w h x y
      else Some (s2, nx, ny)
  end.

(** An index [base + i] into the grid; a NaN base ([None]) gives an index
    that no array has. *)
Definition index_at (base : option Z) (i : Z) : Z :=
  match base with Some b => b + i | None => -1 end.

(** [for (i < tapeSize) { tape[i] = data[idxA + i];
    tape[tapeSize + i] = data[idxB + i] }] on the buffer of
    [2 * tapeSize] bytes. *)
Definition load_tape (d : list Z) (tapeSize : Z) (idxA idxB : option Z) : list Z :=
  let cell base :=
    map (fun i => elem (get d (index_at base (Z.of_nat i)))) (seq 0 (Z.to_nat tapeSize)) in
  cell idxA ++ cell idxB.

(** [for (i < tapeSize) { data[idxA + i] = tape[i];
    data[idxB + i] = tape[tapeSize + i] }]. *)
Definition store_tape (d t : list Z) (tapeSize : Z) (idxA idxB : option Z) : list Z :=
  fold_left
    (fun d i =>
       let i := Z.of_nat i in
       set (set d (index_at idxA i) (elem (get t i)))
           (index_at idxB i) (elem (get t (tapeSize + i))))
    (seq 0 (Z.to_nat tapeSize)) d.

(** The choice of the two cells: the generator afterwards and, unless
    the interaction is abandoned, the offsets [idxA] and [idxB]. *)
Definition pick (fuel : nat) (e : BFFSimulation)
    : option (PRNG.state * option (option Z * option Z)) :=
  let tapeSize := tapeSize (config e) in
  let '(s1, r1) := PRNG.next (rng e) in
  let x := PRNG.scale r1 (width e) in
  let '(s2, r2) := PRNG.next s1 in
  let y := PRNG.scale r2 (height e) in
  let idxA := (y * width e + x) * tapeSize in
  match topology (config e) with
  | global =>
      '(s3, nx, ny) ← pick_global fuel s2 (width e) (height e) x y;
      Some (s3, Some (Some idxA, Some ((ny * width e + nx) * tapeSize)))
  | spatial =>
      let '(s3, r3) := PRNG.next s2 in
      let dx := PRNG.scale r3 5 - 2 in
      let '(s4, r4) := PRNG.next s3 in
      let dy := PRNG.scale r4 5 - 2 in
      if (dx =? 0) && (dy =? 0) then Some (s4, None)
      else
        let idxB :=
          nx ← Js.rem (x + dx + width e) (width e);
          ny ← Js.rem (y + dy + height e) (height e);
          Some ((ny * width e + nx) * tapeSize) in
        Some (s4, Some (Some idxA, idxB))
  end.

(** [interact()]; [None] when it does not return (within [fuel] rounds
    of the global resampling loop). *)
Definition interact (fuel : nat) (e : BFFSimulation) : option BFFSimulation :=
  '(s, cells) ← pick fuel e;
  let e0 := set_rng e s in
  match cells with
  | None => Some e0
  | Some (idxA, idxB) =>
      let tapeSize := tapeSize (config e) in
      let t := load_tape (data e) tapeSize idxA idxB in
      let '(c, t') := VM.execute tapeSize (instructionLimit (config e)) t in
      let e1 := account e0 c in
      e2 ← (if epochInteractions e1 >=? epochSize e1 then completeEpoch e1 else Some e1);
      Some (set_data e2 (store_tape (data e2) t' tapeSize idxA idxB))
  end.

(** [step(interactions)]: [n] more calls of [interact]. *)
Fixpoint step_loop (n : nat) (fuel : nat) (e : BFFSimulation) : option BFFSimulation :=
  match n with
  | O => Some e
  | S n' => e' ← interact fuel e; step_loop n' fuel e'
  end.

Definition step (interactions : Z) (fuel : nat) (e : BFFSimulation)
    : option BFFSimulation :=
  step_loop (Z.to_nat interactions) fuel e.

End Engine.

(** ** The earlier engine's statistics pass *)

Module Earlier.
Import TypedArray.

(** [calculateGridMetrics()] of the earlier engine
    ([src/services/bffSimulation.ts]): one pass over every byte of the
    grid, the frequencies taken over the length of the grid. *)
Definition calculateGridMetrics (Math_log2 : spec_float -> spec_float) (d : list Z)
    : spec_float * spec_float :=
  let '(counts, _) := tally_loop (length d) d 1 0 (replicate 256 0) 0 in
  let len := F64.of_Z (Z.of_nat (length d)) in
  (entropy_of Math_log2 counts len,
   F64.div (F64.of_Z (elem (get counts 0))) len).

End Earlier.

(** ** The palette and the inspector *)

Module Palette.
Import TypedArray VM.

(** [getByteColor(byte)]: the components [(r, g, b)]. *)
Definition getByteColor (byte : Z) : Z * Z * Z :=
  if (byte =? CMD_LEFT) || (byte =? CMD_RIGHT) then (255, 60, 60)
  else if (byte =? CMD_H1_DEC) || (byte =? CMD_H1_INC) then (60, 120, 255)
  else if (byte =? CMD_DEC) || (byte =? CMD_INC) then (60, 255, 60)
  else if (byte =? CMD_COPY_0_TO_1) || (byte =? CMD_COPY_1_TO_0) then (255, 140, 0)
  else if (byte =? CMD_JZ) || (byte =? CMD_JNZ) then (180, 50, 255)
  else if byte =? 0 then (0, 0, 0)
  else let val := 20 + Z.rem byte 30 in (val, val, val).

(** [generatePalette()]: the RGBA table of 256 entries, as the
    [Uint8Array] keeps it. *)
Definition generatePalette : list Z :=
  fold_left
    (fun palette i =>
       let i := Z.of_nat i in
       let '(r, g, b) := getByteColor i in
       set (set (set (set palette (i * 4 + 0) (u8 r)) (i * 4 + 1) (u8 g))
                (i * 4 + 2) (u8 b))
           (i * 4 + 3) (u8 255))
    (seq 0 256) (replicate (256 * 4) 0).

(** [isInstruction(byte)] of the inspector panel
    ([src/components/ImageGenerator.tsx]). *)
Definition isInstruction (byte : Z) : bool :=
  bool_decide (byte ∈ [CMD_LEFT; CMD_RIGHT; CMD_H1_DEC; CMD_H1_INC; CMD_DEC; CMD_INC;
                       CMD_COPY_0_TO_1; CMD_COPY_1_TO_0; CMD_JZ; CMD_JNZ]).

(** A colour with three equal components. *)
Definition gray (c : Z * Z * Z) : bool :=
  let '(r, g, b) := c in (r =? g) && (g =? b).

End Palette.

(** ** Concrete inputs used below *)

(** Scenario S1 of the specification: three [+] and thirteen zero bytes. *)
Definition s1_tape : list Z := [43; 43; 43; 0; 0; 0; 0; 0; 0; 0; 0; 0; 0; 0; 0; 0].

(** A tape on which a [-] turns byte 92 into a [[] before a []] is taken. *)
Definition selfmod_tape : list Z := [92; 45; 93; 0; 0; 0; 0; 0].

(** A tape whose loop leaves every bracket where it was. *)
Definition countdown_tape : list Z := [60; 91; 45; 93; 0; 0; 0; 5].

(** ** The two bracket resolutions compared *)

Module Brackets.
Import TypedArray VM.

(** What the bracket scans can tell of a byte. *)
Definition bracket_kind (b : Z) : Z :=
  if b =? CMD_JZ then 1 else if b =? CMD_JNZ then 2 else 0.

(** The two tapes hold [[] at the same places and []] at the same places. *)
Definition same_brackets (t t0 : list Z) : bool :=
  bool_decide (map bracket_kind t = map bracket_kind t0).

(** Every prefix of the run of the current engine's [execute] (the run
    cut after [n <= limit] cycles) leaves the brackets of the initial
    tape in place. *)
Definition brackets_stable (tapeSize limit : Z) (t0 : list Z) : bool :=
  forallb (fun n => same_brackets (execute tapeSize (Z.of_nat n) t0).2 t0)
          (seq 0 (S (Z.to_nat limit))).

(** The two pairs of bytes a bracket scan is run with. *)
Definition is_bracket_pair (opening closing : Z) : Prop :=
  (opening = CMD_JZ /\ closing = CMD_JNZ) \/ (opening = CMD_JNZ /\ closing = CMD_JZ).

(** Two machines that agree on everything but the representative of
    [ip] modulo [len]. *)
Definition related (len : Z) (mo mn : machine) : Prop :=
  tape mo = tape mn /\ head0 mo = head0 mn /\ head1 mo = head1 mn
  /\ tally mo = tally mn /\ ip mo mod len = ip mn mod len.

End Brackets.

(** ** The specification's vocabulary *)

(** [T] is a power of two. *)
Definition is_power_of_two (n : Z) : bool := (0 <? n) && (Z.land n (n - 1) =? 0).

(** [µ ∈ [0,1]]. *)
Definition in_unit_interval (f : spec_float) : bool :=
  F64.leb F64.zero f && F64.leb f F64.one.

(** The configurations of section 3 of the specification: positive
    dimensions, a power-of-two tape, a mutation rate in [[0,1]]. *)
Definition valid_config (c : SimulationConfig) : bool :=
  (0 <? gridWidth c) && (0 <? gridHeight c) && is_power_of_two (tapeSize c)
  && in_unit_interval (mutationRate c).

(** The configurations the specification says [new] and [update_config]
    reject. *)
Definition to_be_rejected (c : SimulationConfig) : bool :=
  negb (is_power_of_two (tapeSize c))
  || (gridWidth c * gridHeight c * tapeSize c =? 0)
  || negb (in_unit_interval (mutationRate c)).

(** Toroidal normalisation [((x mod W + W) mod W)], with the remainder of
    the source language. *)
Definition normalize (v n : Z) : Z := Z.rem (Z.rem v n + n) n.

(** The bytes [[(y·W + x)·T, (y·W + x + 1)·T)] of the grid. *)
Definition cell_bytes (e : BFFSimulation) (x y : Z) : list Z :=
  let T := tapeSize (config e) in
  take (Z.to_nat T) (drop (Z.to_nat ((y * width e + x) * T)) (data e)).

(** A 4 x 4 grid of 4-byte tapes. *)
Definition cfg0 : SimulationConfig :=
  {| gridWidth := 4; gridHeight := 4; tapeSize := 4;
     mutationRate := F64.zero;
     instructionLimit := 64; topology := spatial; seedingMode := balanced;
     stepsPerFrame := 1; seed := 42 |}.

(** Three configurations the specification wants refused: a tape of
    3 bytes, a grid of width 0, and a mutation rate of 2. *)
Definition cfg_tape3 : SimulationConfig :=
  {| gridWidth := 2; gridHeight := 2; tapeSize := 3;
     mutationRate := F64.zero;
     instructionLimit := 64; topology := spatial; seedingMode := random;
     stepsPerFrame := 1; seed := 7 |}.

Definition cfg_empty : SimulationConfig :=
  {| gridWidth := 0; gridHeight := 4; tapeSize := 4;
     mutationRate := F64.zero;
     instructionLimit := 64; topology := spatial; seedingMode := random;
     stepsPerFrame := 1; seed := 7 |}.

Definition cfg_rate2 : SimulationConfig :=
  {| gridWidth := 4; gridHeight := 4; tapeSize := 4;
     mutationRate := F64.of_Z 2;
     instructionLimit := 64; topology := spatial; seedingMode := random;
     stepsPerFrame := 1; seed := 7 |}.

(** A host that is never short of memory. *)
Definition ample_host : Z -> bool := fun _ => true.

(** An array of [n] elements of [elementBytes] bytes cannot be had: the
    length is negative or above [2^53 - 1], or the host has no room. *)
Definition unobtainable (host : Z -> bool) (elementBytes n : Z) : Prop :=
  n < 0 \/ 2 ^ 53 - 1 < n \/ host (elementBytes * n) = false.

(** One of the three arrays of an engine for [c] cannot be had: the grid
    of [W·H·T] bytes, the interaction buffer of [2·T] bytes or the jump
    table of [2·T] 16-bit entries. *)
Definition short_of_arrays (host : Z -> bool) (c : SimulationConfig) : Prop :=
  unobtainable host 1 (gridWidth c * gridHeight c * tapeSize c)
  \/ unobtainable host 1 (tapeSize c * 2)
  \/ unobtainable host 2 (tapeSize c * 2).

(** [newConfig] differs from the engine in width, height, tape size or
    seed: [updateConfig] rebuilds the grid. *)
Definition rebuilds (newConfig : SimulationConfig) (e : BFFSimulation) : Prop :=
  gridWidth newConfig <> width e \/ gridHeight newConfig <> height e
  \/ tapeSize newConfig <> tapeSize (config e) \/ seed newConfig <> seed (config e).

(** A valid configuration whose grid of 2^54 bytes no host can hold. *)
Definition cfg_vast : SimulationConfig :=
  {| gridWidth := 2 ^ 27; gridHeight := 2 ^ 27; tapeSize := 1;
     mutationRate := F64.zero;
     instructionLimit := 64; topology := spatial; seedingMode := random;
     stepsPerFrame := 1; seed := 42 |}.

(** A configuration the specification wants refused whose grid has a
    negative length. *)
Definition cfg_negative : SimulationConfig :=
  {| gridWidth := 2; gridHeight := 2; tapeSize := -2;
     mutationRate := F64.zero;
     instructionLimit := 64; topology := spatial; seedingMode := random;
     stepsPerFrame := 1; seed := 42 |}.

(** The history rule of section 4.5 of the specification: a snapshot
    is due at a census epoch, or when entropy has moved by more than 0.1
    or zero density by more than 0.05 since the last logged snapshot. *)
Definition snapshot_due (now last : SimulationStats) : bool :=
  (epoch now mod 50 =? 0)
  || F64.ltb F64.lit_0_1 (F64.abs (F64.sub (entropy now) (entropy last)))
  || F64.ltb F64.lit_0_05 (F64.abs (F64.sub (zeroDensity now) (zeroDensity last))).

(** An interaction completes an epoch when it is not abandoned and
    brings the count of the running epoch to [epochSize]. *)
Definition completes_epoch (e : BFFSimulation)
    (cells : option (option Z * option Z)) : bool :=
  match cells with
  | None => false
  | Some _ => epochInteractions e + 1 >=? epochSize e
  end.

(** What the grid's future depends on: the engine without its
    statistics, its accumulators and its history, and the epoch count. *)
Definition timeline (e : BFFSimulation) :=
  (config e, width e, height e, data e, rng e, epochInteractions e, epochSize e,
   epoch (stats e)).

(** A host with room for a thousand bytes at a time. *)
Definition small_host : Z -> bool := fun n => n <=? 1000.

(** Two unlike stand-ins for [Math.log2]. *)
Definition log2_zero : spec_float -> spec_float := fun _ => F64.zero.
Definition log2_id : spec_float -> spec_float := fun x => x.

(** The base-2 Shannon entropy [−Σ p·log2 p] of a histogram of
    [samples] values, over its non-empty buckets, [p] being the bucket's
    count over [samples]: in binary64, the terms [p·log2 p] are taken
    from zero one after the other, in the order of the buckets. *)
Definition shannon_entropy (log2 : spec_float -> spec_float) (hist : list Z)
    (samples : Z) : spec_float :=
  let p c := F64.div (F64.of_Z c) (F64.of_Z samples) in
  fold_left F64.sub
    (map (fun c => F64.mul (p c) (log2 (p c))) (filter (fun c => 0 < c) hist))
    F64.zero.

(** The indices [i, i + step, i + 2·step, …] below [bound]; from [0]
    they are the specification's [0, step, 2·step, …]. *)
Definition stride_from (i bound step : Z) : list Z :=
  map (fun j => i + Z.of_nat j * step)
      (seq 0 (Z.to_nat ((bound - i + step - 1) / step))).

Definition stride_indices (bound step : Z) : list Z := stride_from 0 bound step.

(** The grid bytes the metrics pass looks at, with stride 11. *)
Definition sampled_bytes (d : list Z) : list Z :=
  map (fun i => TypedArray.elem (TypedArray.get d i))
      (stride_indices (Z.of_nat (length d)) 11).

(** The 256-bucket histogram of a list of bytes. *)
Definition histogram (l : list Z) : list Z :=
  map (fun v => Z.of_nat (count_occ Z.eq_dec l (Z.of_nat v))) (seq 0 256).

(** Equality of genomes is decidable. *)
Definition genome_eq_dec (a b : list Z) : {a = b} + {a <> b} := decide (a = b).

(** The genomes the census looks at: the cells [0, 11, 22, …]. *)
Definition sampled_genomes (w h tapeSize : Z) (d : list Z) : list (list Z) :=
  map (fun i => Js.slice d (i * tapeSize) (i * tapeSize + tapeSize))
      (stride_indices (w * h) 11).

(** A 23 x 1 grid of 1-byte tapes: the census samples cells 0, 11, 22. *)
Definition cfg23 : SimulationConfig :=
  {| gridWidth := 23; gridHeight := 1; tapeSize := 1;
     mutationRate := F64.zero;
     instructionLimit := 64; topology := spatial; seedingMode := random;
     stepsPerFrame := 1; seed := 7 |}.

(** A single cell under the global topology. *)
Definition cfg_solo : SimulationConfig :=
  {| gridWidth := 1; gridHeight := 1; tapeSize := 4;
     mutationRate := F64.zero;
     instructionLimit := 64; topology := global; seedingMode := random;
     stepsPerFrame := 1; seed := 1 |}.

(** A 2 x 2 grid of 2-byte tapes, where an offset of two columns or rows
    wraps onto the cell it started from; every epoch mutates 8 bytes. *)
Definition cfg_pairs : SimulationConfig :=
  {| gridWidth := 2; gridHeight := 2; tapeSize := 2;
     mutationRate := F64.one;
     instructionLimit := 16; topology := spatial; seedingMode := balanced;
     stepsPerFrame := 1; seed := 3 |}.

(** The same grid seeded with 6: its fourth interaction completes the
    first epoch on two distinct cells. *)
Definition cfg_pairs_apart : SimulationConfig :=
  {| gridWidth := 2; gridHeight := 2; tapeSize := 2;
     mutationRate := F64.one;
     instructionLimit := 16; topology := spatial; seedingMode := balanced;
     stepsPerFrame := 1; seed := 6 |}.

(** The engine as the constructor has it when it calls [reset]. *)
Definition blank (c : SimulationConfig) : BFFSimulation :=
  {| config := c; width := gridWidth c; height := gridHeight c;
     data := replicate (Z.to_nat (gridWidth c * gridHeight c * tapeSize c)) 0;
     rng := PRNG.create (seed c);
     stats := initial_stats; history := []; lastHistoryStats := None;
     epochInteractions := 0; epochTotalComplexity := 0;
     epochTotalCopies := 0; epochTotalEffectiveCopies := 0;
     epochSize := gridWidth c * gridHeight c |}.

(** ** Reachable engines and their invariant *)

(** The engines that [new], [reset], [updateConfig] and [interact]
    (hence [step]) produce when every call returns. An engine on which
    [updateConfig] threw is not among them: its scratch arrays need not
    match its tape size any more, and [interact] above does not describe
    it. *)
Inductive reachable (Math_log2 : spec_float -> spec_float) (Host_allocates : Z -> bool)
    : BFFSimulation -> Prop :=
  | reach_new c e :
      new Math_log2 Host_allocates c = Some e -> reachable Math_log2 Host_allocates e
  | reach_reset e :
      reachable Math_log2 Host_allocates e ->
      reachable Math_log2 Host_allocates (reset Math_log2 e)
  | reach_update c e e' :
      reachable Math_log2 Host_allocates e ->
      updateConfig Math_log2 Host_allocates c e = Returned e' ->
      reachable Math_log2 Host_allocates e'
  | reach_interact fuel e e' :
      reachable Math_log2 Host_allocates e -> interact Math_log2 fuel e = Some e' ->
      reachable Math_log2 Host_allocates e'.

(** The grid has one [tapeSize]-byte cell per position, and the last
    logged snapshot is the last entry of a history that is never empty. *)
Record invariant (e : BFFSimulation) : Prop := {
  inv_width : width e = gridWidth (config e);
  inv_height : height e = gridHeight (config e);
  inv_tape : 0 <= tapeSize (config e);
  inv_data : Z.of_nat (length (data e)) = width e * height e * tapeSize (config e);
  inv_last : lastHistoryStats e = last (history e);
  inv_logged : history e <> []
}.

(** ** Auxiliary definitions of the proofs *)

(** The count a species map holds for a key ([0] when absent). *)
Fixpoint held (key : list Z) (m : list (list Z * Z)) : Z :=
  match m with
  | [] => 0
  | (k, n) :: m' => if bool_decide (k = key) then n else held key m'
  end.

(** The write-back loop on natural offsets. *)
Definition store_loop (t : list Z) (n a b : nat) (m : nat) (d : list Z) : list Z :=
  fold_left
    (fun d i => <[(b + i)%nat := default 0 (t !! (n + i)%nat)]>
                  (<[(a + i)%nat := default 0 (t !! i)]> d))
    (seq 0 m) d.

(** ** Vocabulary of the further properties *)

(** The four bytes whose instructions write to the tape: [-], [+], [.]
    and [,]. *)
Definition writes_tape (b : Z) : bool :=
  (b =? VM.CMD_DEC) || (b =? VM.CMD_INC)
  || (b =? VM.CMD_COPY_0_TO_1) || (b =? VM.CMD_COPY_1_TO_0).

(** A program that moves its heads and loops without writing. *)
Definition read_only_tape : list Z := [62; 125; 91; 60; 93; 0; 7; 200].

(** The bytes a seeding mode can draw. *)
Definition seeded_byte (mode : SeedingMode) (b : Z) : Prop :=
  match mode with
  | balanced => b = 0 \/ b ∈ VALID_OPS
  | random => 0 <= b < 256
  end.

(** An engine with another epoch size. *)
Definition with_epochSize (e : BFFSimulation) (n : Z) : BFFSimulation :=
  {| config := config e; width := width e; height := height e;
     data := data e; rng := rng e; stats := stats e; history := history e;
     lastHistoryStats := lastHistoryStats e;
     epochInteractions := epochInteractions e;
     epochTotalComplexity := epochTotalComplexity e;
     epochTotalCopies := epochTotalCopies e;
     epochTotalEffectiveCopies := epochTotalEffectiveCopies e;
     epochSize := n |}.

(** A 2 x 2 grid under the global topology. *)
Definition cfg_soup : SimulationConfig :=
  {| gridWidth := 2; gridHeight := 2; tapeSize := 2;
     mutationRate := F64.zero;
     instructionLimit := 16; topology := global; seedingMode := balanced;
     stepsPerFrame := 1; seed := 5 |}.

(** The same grid seeded with 4: the first two cells it pairs hold no
    writing instruction. *)
Definition cfg_quiet : SimulationConfig :=
  {| gridWidth := 2; gridHeight := 2; tapeSize := 2;
     mutationRate := F64.zero;
     instructionLimit := 16; topology := global; seedingMode := balanced;
     stepsPerFrame := 1; seed := 4 |}.

(** The same grid with an infinite mutation rate. *)
Definition cfg_blaze : SimulationConfig :=
  {| gridWidth := 2; gridHeight := 2; tapeSize := 2;
     mutationRate := S754_infinity false;
     instructionLimit := 16; topology := global; seedingMode := balanced;
     stepsPerFrame := 1; seed := 5 |}.

(** What the statistics and the history of a running engine keep. *)
Record chronicle (e : BFFSimulation) : Prop := {
  chr_epoch : 0 <= epoch (stats e);
  chr_census : lastCensusEpoch (stats e) = 50 * (epoch (stats e) / 50);
  chr_first : epoch <$> head (history e) = Some 0;
  chr_sorted : forall i j a b,
      history e !! i = Some a -> history e !! j = Some b -> (i < j)%nat ->
      epoch a < epoch b;
  chr_bound : forall a, a ∈ history e -> epoch a <= epoch (stats e);
  chr_length : Z.of_nat (length (history e)) <= epoch (stats e) + 1;
  chr_logged : forall k, 0 <= k -> 50 * k <= epoch (stats e) ->
      exists a, a ∈ history e /\ epoch a = 50 * k /\ lastCensusEpoch a = 50 * k
}.

(** The accumulators of the running epoch, against the instruction
    limit [L]. *)
Definition accumulators_bounded (L : Z) (e : BFFSimulation) : Prop :=
  0 <= epochInteractions e
  /\ 0 <= epochTotalEffectiveCopies e <= epochTotalCopies e
  /\ epochTotalCopies e <= epochTotalComplexity e
  /\ epochTotalComplexity e <= epochInteractions e * Z.max 0 L.

(** Larger counts first. *)
Definition ranked (l : list (list Z * Z)) : Prop :=
  forall i j x y, l !! i = Some x -> l !! j = Some y -> (i < j)%nat -> y.2 <= x.2.

(** How the counters of one run of the VM relate to those it started
    from: each grows with the next one, by at most [n]. *)
Definition grows (c c' : VM.counters) (n : Z) : Prop :=
  0 <= VM.neighborWrites c' - VM.neighborWrites c <= VM.copies c' - VM.copies c
  /\ VM.copies c' - VM.copies c <= VM.complexity c' - VM.complexity c
  /\ VM.complexity c' - VM.complexity c <= n.

Module Matching.
Import TypedArray VM.

(** What one turn of a bracket scan adds to [depth] at [scanIp = p]. *)
Definition weight (t : list Z) (mask opening closing p : Z) : Z :=
  let instr := get t (Z.land p mask) in
  if bool_decide (instr = Some opening) then 1
  else if bool_decide (instr = Some closing) then -1
  else 0.

(** [s] turns of a bracket scan, each entered with [depth > 0]. *)
Inductive turns (t : list Z) (mask opening closing dir : Z)
    : nat -> Z -> Z -> Z -> Z -> Prop :=
  | turns_O depth p : turns t mask opening closing dir O depth p depth p
  | turns_S s depth p depth' p' :
      0 < depth ->
      turns t mask opening closing dir s
            (depth + weight t mask opening closing p) (p + dir) depth' p' ->
      turns t mask opening closing dir (S s) depth p depth' p'.

End Matching.

(** * Properties *)

(** ** Exact cases of the binary64 operations *)

Module F64Facts.
Import F64.

Lemma digits_bounds p :
  2 ^ (Z.pos (digits2_pos p) - 1) <= Z.pos p < 2 ^ Z.pos (digits2_pos p).
Proof.
  induction p as [p IH|p IH|]; cbn [digits2_pos].
  - rewrite Pos2Z.inj_succ. replace (Z.succ (Z.pos (digits2_pos p)) - 1) with (Z.pos (digits2_pos p)) by lia.
    rewrite Z.pow_succ_r by lia.
    replace (Z.pos (digits2_pos p)) with (Z.succ (Z.pos (digits2_pos p) - 1)) at 1 by lia.
    rewrite Z.pow_succ_r by lia. lia.
  - rewrite Pos2Z.inj_succ. replace (Z.succ (Z.pos (digits2_pos p)) - 1) with (Z.pos (digits2_pos p)) by lia.
    rewrite Z.pow_succ_r by lia.
    replace (Z.pos (digits2_pos p)) with (Z.succ (Z.pos (digits2_pos p) - 1)) at 1 by lia.
    rewrite Z.pow_succ_r by lia. lia.
  - cbn. lia.
Qed.

Lemma digits_unique z k :
  2 ^ (k - 1) <= z < 2 ^ k -> 0 < k -> Zdigits2 z = k.
Proof.
  intros Hz Hk.
  assert (0 < z) by (assert (0 < 2 ^ (k - 1)) by (apply Z.pow_pos_nonneg; lia); lia).
  destruct z as [|p|p]; try lia. cbn [Zdigits2].
  pose proof (digits_bounds p) as Hp.
  set (d := Z.pos (digits2_pos p)) in *.
  assert (0 < d) by (unfold d; lia).
  destruct (Z.lt_trichotomy d k) as [Hlt|[Heq|Hgt]]; [|assumption|]; exfalso.
  - assert (2 ^ d <= 2 ^ (k - 1)) by (apply Z.pow_le_mono_r; lia). lia.
  - assert (2 ^ k <= 2 ^ (d - 1)) by (apply Z.pow_le_mono_r; lia). lia.
Qed.

Lemma digits_pos z : 0 < z -> 0 < Zdigits2 z /\ 2 ^ (Zdigits2 z - 1) <= z < 2 ^ Zdigits2 z.
Proof.
  intros Hz. destruct z as [|p|p]; try lia. cbn [Zdigits2].
  split; [lia|apply digits_bounds].
Qed.

Lemma digits_mul_pow2 z j : 0 < z -> 0 <= j -> Zdigits2 (z * 2 ^ j) = Zdigits2 z + j.
Proof.
  intros Hz Hj. destruct (digits_pos z Hz) as [Hd Hb].
  apply digits_unique; [|lia].
  replace (Zdigits2 z + j - 1) with (Zdigits2 z - 1 + j) by lia.
  rewrite !Z.pow_add_r by lia.
  assert (0 < 2 ^ j) by (apply Z.pow_pos_nonneg; lia).
  split; [apply Z.mul_le_mono_nonneg_r; lia|apply Z.mul_lt_mono_pos_r; lia].
Qed.

Lemma digits_le z k : 0 < z -> z < 2 ^ k -> 0 <= k -> Zdigits2 z <= k.
Proof.
  intros Hz Hk Hk0. destruct (digits_pos z Hz) as [Hd Hb].
  destruct (Z.le_gt_cases (Zdigits2 z) k) as [|Hgt]; [assumption|exfalso].
  assert (2 ^ k <= 2 ^ (Zdigits2 z - 1)) by (apply Z.pow_le_mono_r; lia). lia.
Qed.

(** SpecFloat's own iteration is the iteration of [Pos.iter]. *)
Lemma iter_pos_iter {A} (f : A -> A) k : forall x, iter_pos f k x = Pos.iter f x k.
Proof.
  induction k as [k IH|k IH|]; intros x; cbn [iter_pos Pos.iter].
  - rewrite !IH. rewrite <- !Pos.iter_swap. reflexivity.
  - rewrite !IH. reflexivity.
  - reflexivity.
Qed.

Lemma pow2_pos_succ z k : z * 2 ^ Z.pos (Pos.succ k) = 2 * (z * 2 ^ Z.pos k).
Proof. rewrite Pos2Z.inj_succ, Z.pow_succ_r by lia. ring. Qed.

(** Shifting out [k] zero bits is exact. *)
Lemma shr_exact_pos k : forall p,
  Pos.iter shr_1 (Build_shr_record (Z.pos p * 2 ^ Z.pos k) false false) k
  = Build_shr_record (Z.pos p) false false.
Proof.
  induction k as [|k IH] using Pos.peano_ind; intros p.
  - cbn [Pos.iter]. change (2 ^ 1) with 2.
    replace (Z.pos p * 2) with (Z.pos p~0) by lia. reflexivity.
  - rewrite Pos.iter_succ_r. rewrite pow2_pos_succ.
    assert (Hpos : 0 < Z.pos p * 2 ^ Z.pos k)
      by (apply Z.mul_pos_pos; [lia|apply Z.pow_pos_nonneg; lia]).
    destruct (Z.pos p * 2 ^ Z.pos k) as [|q|q] eqn:Hq; try lia.
    change (2 * Z.pos q) with (Z.pos q~0). cbn [shr_1 orb].
    rewrite <- Hq. apply IH.
Qed.

Lemma shr_exact z s e :
  0 < z -> 0 <= s ->
  shr (Build_shr_record (z * 2 ^ s) false false) e s
  = (Build_shr_record z false false, e + s).
Proof.
  intros Hz Hs. unfold shr. destruct s as [|k|k]; try lia.
  - rewrite Z.mul_1_r, Z.add_0_r. reflexivity.
  - rewrite iter_pos_iter. destruct z as [|p|p]; try lia.
    rewrite shr_exact_pos. reflexivity.
Qed.

(** Rounding a mantissa whose dropped bits are all zero. *)
Lemma round_exact z j e :
  0 < z -> 0 <= j ->
  Zdigits2 z <= 53 <= Zdigits2 z + j ->
  emin <= e + (Zdigits2 z + j - 53) <= emax - prec ->
  binary_round_aux prec emax false (z * 2 ^ j) e loc_Exact
  = S754_finite false (Z.to_pos (z * 2 ^ (53 - Zdigits2 z))) (e + (Zdigits2 z + j - 53)).
Proof.
  intros Hz Hj HD He.
  set (D := Zdigits2 z) in *. set (s := D + j - 53) in *.
  set (M := z * 2 ^ (53 - D)).
  assert (HM : 0 < M) by (apply Z.mul_pos_pos; [lia|apply Z.pow_pos_nonneg; lia]).
  assert (HMd : Zdigits2 M = 53) by (unfold M; rewrite digits_mul_pow2 by lia; lia).
  assert (Hin : z * 2 ^ j = M * 2 ^ s).
  { unfold M. rewrite <- Z.mul_assoc, <- Z.pow_add_r by lia. f_equal. f_equal. lia. }
  unfold binary_round_aux, shr_fexp. rewrite Hin.
  rewrite digits_mul_pow2 by lia. rewrite HMd.
  unfold emin, prec, emax in He.
  replace (SpecFloat.fexp prec emax (53 + s + e) - e) with s
    by (unfold SpecFloat.fexp, SpecFloat.emin, prec, emax; lia).
  cbn [shr_record_of_loc]. rewrite shr_exact by lia.
  cbn [shr_m loc_of_shr_record round_nearest_even].
  rewrite HMd.
  replace (SpecFloat.fexp prec emax (53 + (e + s)) - (e + s)) with 0
    by (unfold SpecFloat.fexp, SpecFloat.emin, prec, emax; lia).
  cbn [shr shr_m].
  destruct M as [|p|p] eqn:HMp; try lia.
  cbn [Z.to_pos].
  destruct (Z.leb_spec (e + s) (emax - prec)) as [_|Hbad]; [reflexivity|].
  unfold prec, emax in Hbad. lia.
Qed.


Lemma iter_xO_mul p d : Z.pos (Pos.iter xO p d) = Z.pos p * 2 ^ Z.pos d.
Proof.
  induction d as [|d IH] using Pos.peano_ind.
  - cbn [Pos.iter]. change (2 ^ 1) with 2. lia.
  - rewrite Pos.iter_succ, pow2_pos_succ, <- IH. reflexivity.
Qed.

Lemma of_Z_pos z : 0 < z < 2 ^ 53 -> of_Z z = canonical z 0.
Proof.
  intros Hz. destruct (digits_pos z ltac:(lia)) as [Hd Hb].
  assert (HD : Zdigits2 z <= 53) by (apply digits_le; lia).
  assert (Hof : of_Z z
                = binary_round_aux prec emax false (z * 2 ^ (53 - Zdigits2 z))
                                   (Zdigits2 z - 53) loc_Exact).
  { unfold of_Z, binary_normalize. destruct z as [|p|p]; try lia.
    unfold binary_round, shl_align. cbn [Zdigits2] in *.
    set (D := Z.pos (digits2_pos p)) in *.
    replace (SpecFloat.fexp prec emax (D + 0) - 0) with (D - 53)
      by (unfold SpecFloat.fexp, SpecFloat.emin, prec, emax; lia).
    replace (SpecFloat.fexp prec emax (D + 0)) with (D - 53)
      by (unfold SpecFloat.fexp, SpecFloat.emin, prec, emax; lia).
    destruct (D - 53) as [|k|k] eqn:Hk; try lia.
    - replace (53 - D) with 0 by lia. rewrite Z.mul_1_r. reflexivity.
    - rewrite iter_xO_mul. replace (53 - D) with (Z.pos k) by lia. reflexivity. }
  rewrite Hof, round_exact; try lia.
  2:{ unfold emin, emax, prec. lia. }
  unfold canonical. f_equal. lia.
Qed.

Lemma div_eucl_pair a b : Z.div_eucl a b = (a / b, a mod b).
Proof. unfold Z.div, Z.modulo. destruct (Z.div_eucl a b). reflexivity. Qed.

Lemma two32 : of_Z 4294967296 = S754_finite false 4503599627370496 (-20).
Proof. vm_compute. reflexivity. Qed.

(** Dividing a canonical value by [2^32] lowers its exponent by 32. *)
Lemma div_two32 z e :
  0 < z < 2 ^ 53 -> -900 <= e <= 900 ->
  div (canonical z e) (of_Z 4294967296) = canonical z (e - 32).
Proof.
  intros Hz He. destruct (digits_pos z ltac:(lia)) as [Hd Hb].
  assert (HD : Zdigits2 z <= 53) by (apply digits_le; lia).
  rewrite two32. unfold canonical.
  set (M := z * 2 ^ (53 - Zdigits2 z)).
  assert (HM : 0 < M) by (apply Z.mul_pos_pos; [lia|apply Z.pow_pos_nonneg; lia]).
  assert (HMd : Zdigits2 M = 53) by (unfold M; rewrite digits_mul_pow2 by lia; lia).
  destruct M as [|m|m] eqn:HMm; try lia. cbn [Z.to_pos].
  unfold div, SFdiv, SFdiv_core_binary. cbn [xorb].
  rewrite HMd. change (Zdigits2 4503599627370496) with 53.
  set (e1 := e + Zdigits2 z - 53).
  replace (Z.min (SpecFloat.fexp prec emax (53 + e1 - (53 + -20))) (e1 - -20))
    with (e1 - 33)
    by (unfold SpecFloat.fexp, SpecFloat.emin, prec, emax; lia).
  replace (e1 - -20 - (e1 - 33)) with 53 by lia.
  rewrite Z.shiftl_mul_pow2 by lia.
  rewrite div_eucl_pair.
  replace (Z.pos m * 2 ^ 53) with (2 * Z.pos m * 4503599627370496) by lia.
  rewrite Z.div_mul, Z.mod_mul by lia.
  change (new_location 4503599627370496 0) with loc_Exact.
  replace (2 * Z.pos m) with (Z.pos m * 2 ^ 1) by lia.
  rewrite round_exact; rewrite ?HMd; try lia.
  2:{ unfold emin, emax, prec. lia. }
  rewrite Z.sub_diag, Z.mul_1_r. cbn [Z.to_pos]. f_equal. lia.
Qed.

(** Bits of a product. *)
Lemma digits_mul_lower a b :
  0 < a -> 0 < b -> Zdigits2 a + Zdigits2 b - 1 <= Zdigits2 (a * b).
Proof.
  intros Ha Hb.
  destruct (digits_pos a Ha) as [Hda Hba]. destruct (digits_pos b Hb) as [Hdb Hbb].
  destruct (digits_pos (a * b) ltac:(nia)) as [Hdab Hbab].
  destruct (Z.le_gt_cases (Zdigits2 a + Zdigits2 b - 1) (Zdigits2 (a * b)))
    as [|Hgt]; [assumption|exfalso].
  assert (2 ^ Zdigits2 (a * b) <= 2 ^ (Zdigits2 a - 1 + (Zdigits2 b - 1)))
    by (apply Z.pow_le_mono_r; lia).
  rewrite Z.pow_add_r in H by lia.
  assert (2 ^ (Zdigits2 a - 1) * 2 ^ (Zdigits2 b - 1) <= a * b)
    by (apply Z.mul_le_mono_nonneg; lia).
  lia.
Qed.

(** The product of two canonical values whose integer product fits in
    53 bits is exact. *)
Lemma mul_canonical a b ea eb :
  0 < a -> 0 < b -> a * b < 2 ^ 53 ->
  -400 <= ea <= 400 -> -400 <= eb <= 400 ->
  mul (canonical a ea) (canonical b eb) = canonical (a * b) (ea + eb).
Proof.
  intros Ha Hb Hab Hea Heb.
  destruct (digits_pos a Ha) as [Hda Hba]. destruct (digits_pos b Hb) as [Hdb Hbb].
  assert (Ha53 : a < 2 ^ 53) by nia. assert (Hb53 : b < 2 ^ 53) by nia.
  assert (HDa : Zdigits2 a <= 53) by (apply digits_le; lia).
  assert (HDb : Zdigits2 b <= 53) by (apply digits_le; lia).
  assert (HDab : Zdigits2 (a * b) <= 53) by (apply digits_le; lia).
  pose proof (digits_mul_lower a b Ha Hb) as Hlow.
  unfold canonical at 1 2. unfold mul, SFmul. cbn [xorb].
  set (Ma := a * 2 ^ (53 - Zdigits2 a)). set (Mb := b * 2 ^ (53 - Zdigits2 b)).
  assert (HMa : 0 < Ma) by (apply Z.mul_pos_pos; [lia|apply Z.pow_pos_nonneg; lia]).
  assert (HMb : 0 < Mb) by (apply Z.mul_pos_pos; [lia|apply Z.pow_pos_nonneg; lia]).
  rewrite Pos2Z.inj_mul, !Z2Pos.id by lia.
  replace (Ma * Mb) with (a * b * 2 ^ (106 - Zdigits2 a - Zdigits2 b)).
  2:{ unfold Ma, Mb.
      replace (106 - Zdigits2 a - Zdigits2 b) with (53 - Zdigits2 a + (53 - Zdigits2 b)) by lia.
      rewrite Z.pow_add_r by lia. ring. }
  rewrite round_exact; try lia.
  2:{ unfold emin, emax, prec. lia. }
  unfold canonical. f_equal. lia.
Qed.


Lemma int32_of_canonical z :
  0 < z < 2 ^ 53 -> int32_of (canonical z (-32)) = z / 2 ^ 32.
Proof.
  intros Hz. destruct (digits_pos z ltac:(lia)) as [Hd Hb].
  assert (HD : Zdigits2 z <= 53) by (apply digits_le; lia).
  unfold canonical, int32_of, trunc, fraction.
  set (M := z * 2 ^ (53 - Zdigits2 z)).
  assert (HM : 0 < M) by (apply Z.mul_pos_pos; [lia|apply Z.pow_pos_nonneg; lia]).
  destruct (Z.leb_spec 0 (-32 + Zdigits2 z - 53)); [lia|].
  rewrite Z2Pos.id by lia. cbn [default id].
  assert (Hpow : 0 < 2 ^ (53 - Zdigits2 z)) by (apply Z.pow_pos_nonneg; lia).
  replace (- (-32 + Zdigits2 z - 53)) with (32 + (53 - Zdigits2 z)) by lia.
  rewrite Z.pow_add_r by lia.
  rewrite Z.quot_div_nonneg by lia. unfold M.
  rewrite Z.div_mul_cancel_r by lia.
  assert (Hq : 0 <= z / 2 ^ 32 < 2 ^ 21).
  { split; [apply Z.div_pos; lia|apply Z.div_lt_upper_bound; lia]. }
  generalize dependent (z / 2 ^ 32). intros q Hq.
  unfold to_int32, id.
  change (2 ^ 21) with 2097152 in Hq.
  change (2 ^ 31) with 2147483648. change (2 ^ 32) with 4294967296.
  rewrite Z.mod_small by lia. lia.
Qed.

Lemma of_Z_zero : of_Z 0 = S754_zero false.
Proof. reflexivity. Qed.

(** [(r * n) | 0] for the fraction [r = u / 2^32]: exact as long as the
    integer product fits in 53 bits. *)
Lemma scale_exact u n :
  0 <= u < 2 ^ 32 -> 0 <= n -> u * n < 2 ^ 53 ->
  PRNG.scale (div (of_Z u) (of_Z 4294967296)) n = u * n / 2 ^ 32.
Proof.
  intros Hu Hn Hun. unfold PRNG.scale.
  destruct (Z.eq_dec u 0) as [->|Hu0].
  - rewrite of_Z_zero, two32. cbn [div SFdiv xorb].
    rewrite Z.mul_0_l, Z.div_0_l by lia.
    unfold mul. destruct (of_Z n) as [sn|sn| |sn mn en]; reflexivity.
  - destruct (Z.eq_dec n 0) as [->|Hn0].
    + rewrite of_Z_zero, Z.mul_0_r, Z.div_0_l by lia.
      unfold mul, div. destruct (SFdiv _ _ _ _) as [sn|sn| |sn mn en]; reflexivity.
    + assert (n < 2 ^ 53) by nia.
      rewrite (of_Z_pos u), (of_Z_pos n) by lia.
      rewrite div_two32 by lia.
      rewrite mul_canonical by lia.
      apply int32_of_canonical. nia.
Qed.

(** What [next] returns is a multiple of [2^-32] in [[0, 1)]. *)
Lemma next_output s :
  exists u, 0 <= u < 2 ^ 32 /\ (PRNG.next s).2 = div (of_Z u) (of_Z 4294967296).
Proof.
  unfold PRNG.next. cbn [snd].
  match goal with |- context [of_Z (PRNG.ushr ?x 0)] => exists (PRNG.ushr x 0) end.
  split; [|reflexivity].
  unfold PRNG.ushr, to_uint32. rewrite Z.shiftr_0_r. apply Z.mod_pos_bound. lia.
Qed.

(** A draw scaled to [n] cells lands on one of them. *)
Lemma scale_next s n :
  0 < n <= 2 ^ 21 -> 0 <= PRNG.scale (PRNG.next s).2 n < n.
Proof.
  intros Hn. destruct (next_output s) as (u & Hu & ->).
  rewrite scale_exact by nia.
  split; [apply Z.div_pos; nia|apply Z.div_lt_upper_bound; nia].
Qed.

End F64Facts.

(** ** More exact cases: [Math.floor] and array elements *)

Module F64Floor.
Import F64 F64Facts.

(** [Math.floor] of a canonical multiple of [2^-32]. *)
Lemma floor_canonical z :
  0 < z < 2 ^ 53 -> floor (canonical z (-32)) = of_Z (z / 2 ^ 32).
Proof.
  intros Hz. destruct (digits_pos z ltac:(lia)) as [Hd Hb].
  assert (HD : Zdigits2 z <= 53) by (apply digits_le; lia).
  unfold canonical, floor, fraction.
  set (M := z * 2 ^ (53 - Zdigits2 z)).
  assert (HM : 0 < M) by (apply Z.mul_pos_pos; [lia|apply Z.pow_pos_nonneg; lia]).
  destruct (Z.leb_spec 0 (-32 + Zdigits2 z - 53)); [lia|].
  rewrite Z2Pos.id by lia.
  assert (Hpow : 0 < 2 ^ (53 - Zdigits2 z)) by (apply Z.pow_pos_nonneg; lia).
  replace (- (-32 + Zdigits2 z - 53)) with (32 + (53 - Zdigits2 z)) by lia.
  rewrite Z.pow_add_r by lia. unfold M.
  rewrite Z.div_mul_cancel_r by lia. reflexivity.
Qed.

(** An integer below [2^53] is read back from its binary64 value. *)
Lemma integer_of_Z q : 0 <= q < 2 ^ 53 -> integer (of_Z q) = Some q.
Proof.
  intros Hq. destruct (Z.eq_dec q 0) as [->|Hq0]; [reflexivity|].
  rewrite of_Z_pos by lia.
  destruct (digits_pos q ltac:(lia)) as [Hd Hb].
  assert (HD : Zdigits2 q <= 53) by (apply digits_le; lia).
  unfold canonical, integer, trunc, fraction.
  set (M := q * 2 ^ (53 - Zdigits2 q)).
  assert (Hpow : 0 < 2 ^ (53 - Zdigits2 q)) by (apply Z.pow_pos_nonneg; lia).
  assert (HM : 0 < M) by (apply Z.mul_pos_pos; lia).
  rewrite Z2Pos.id by lia.
  destruct (Z.leb_spec 0 (0 + Zdigits2 q - 53)).
  - replace (0 + Zdigits2 q - 53) with 0 by lia. unfold M.
    replace (53 - Zdigits2 q) with 0 by lia.
    rewrite !Z.pow_0_r, !Z.mul_1_r, Z.quot_1_r. reflexivity.
  - replace (- (0 + Zdigits2 q - 53)) with (53 - Zdigits2 q) by lia.
    rewrite Z.quot_div_nonneg by lia. unfold M.
    rewrite Z.div_mul by lia. reflexivity.
Qed.

(** [Math.floor(r * n)] for the fraction [r = u / 2^32]. *)
Lemma floor_scale u n :
  0 <= u < 2 ^ 32 -> 0 <= n < 2 ^ 53 -> u * n < 2 ^ 53 ->
  integer (floor (mul (div (of_Z u) (of_Z 4294967296)) (of_Z n))) = Some (u * n / 2 ^ 32).
Proof.
  intros Hu Hn Hun.
  destruct (Z.eq_dec u 0) as [->|Hu0].
  - rewrite of_Z_zero, two32. cbn [div SFdiv xorb].
    rewrite Z.mul_0_l, Z.div_0_l by lia.
    destruct (Z.eq_dec n 0) as [->|Hn0]; [reflexivity|].
    rewrite (of_Z_pos n) by lia. reflexivity.
  - destruct (Z.eq_dec n 0) as [->|Hn0].
    + rewrite of_Z_zero, Z.mul_0_r, Z.div_0_l by lia.
      rewrite (of_Z_pos u), div_two32 by lia. reflexivity.
    + rewrite (of_Z_pos u), (of_Z_pos n) by lia.
      rewrite div_two32 by lia.
      rewrite mul_canonical by lia.
      rewrite floor_canonical by nia.
      apply integer_of_Z. split; [apply Z.div_pos; nia|].
      apply Z.div_lt_upper_bound; nia.
Qed.

End F64Floor.

(** A byte is stored in a [Uint8Array] as it is. *)
Lemma u8_small v : 0 <= v < 256 -> TypedArray.u8 v = v.
Proof. intros Hv. unfold TypedArray.u8. apply Z.mod_small. exact Hv. Qed.

(** With an infinite rate the number of mutations is infinite, and the
    loop of [mutate] has no end. *)
Lemma mutate_infinite d s :
  0 < Z.of_nat (length d) < 2 ^ 53 -> mutate (S754_infinity false) d s = None.
Proof.
  intros Hd. unfold mutate.
  change (F64.leb (S754_infinity false) F64.zero) with false. cbv iota.
  rewrite (F64Facts.of_Z_pos _ Hd).
  change (F64.mul (F64.canonical (Z.of_nat (length d)) 0) (S754_infinity false))
    with (S754_infinity false).
  change (F64.floor (S754_infinity false)) with (S754_infinity false).
  change (F64.sub (S754_infinity false) (S754_infinity false)) with S754_nan.
  destruct (PRNG.next s) as [s1 r].
  assert (Hlt : F64.ltb r S754_nan = false) by (destruct r; reflexivity).
  rewrite Hlt. reflexivity.
Qed.

(** The numeric layers stay folded in proofs (evaluation by the virtual
    machine still unfolds them). *)
Opaque PRNG.next PRNG.scale PRNG.create.
Opaque F64.of_Z F64.add F64.sub F64.mul F64.div F64.ltb F64.leb F64.abs.
Opaque F64.floor F64.round F64.integer F64.int32_of.
Opaque TypedArray.u8.

(** ** The virtual machine on scenario S1 *)

(** C2, as the specification states it, fails: on the S1 tape the byte at
    position 0 is the first [+] itself (43), the heads start on it, and the
    32 cycles run the 16-byte tape twice. The run does not end with
    [tape[0] = 3], [complexity = 3], [copies = 0]. *)
Lemma s1_not_as_specified :
  let '(c, t) := VM.execute 8 32 s1_tape in
  t !! 0%nat <> Some 3 /\ VM.complexity c <> 3 /\ VM.copies c <> 0.
Proof. vm_compute. repeat split; discriminate. Qed.

(** C2, amended: [execute] with [tapeSize = 8] and limit 32 on the S1 tape
    returns [complexity = 6], [copies = 1], [neighborWrites = 0] and leaves
    [tape[0] = 48] (the other bytes unchanged). *)
Theorem s1_smoke_test :
  VM.execute 8 32 s1_tape =
    (VM.Counters 6 1 0, [48; 43; 43; 0; 0; 0; 0; 0; 0; 0; 0; 0; 0; 0; 0; 0]).
Proof. vm_compute. reflexivity. Qed.

(** ** Scan at jump time against the pre-computed table *)

Module Refinement.
Import TypedArray VM Brackets.

Lemma i16_small v : 0 <= v < 32768 -> i16 v = v.
Proof.
  intros Hv. unfold i16.
  rewrite Z.mod_small by lia. lia.
Qed.

Lemma decode_jz o : decode o = OpJz -> o = Some CMD_JZ.
Proof.
  unfold decode. destruct o as [b|]; [|discriminate].
  repeat (case Z.eqb_spec; [discriminate || (intros -> _; reflexivity) | intros _]).
  discriminate.
Qed.

Lemma decode_jnz o : decode o = OpJnz -> o = Some CMD_JNZ.
Proof.
  unfold decode. destruct o as [b|]; [|discriminate].
  repeat (case Z.eqb_spec; [discriminate || (intros -> _; reflexivity) | intros _]).
  discriminate.
Qed.

Lemma bracket_kind_jz b b0 :
  bracket_kind b = bracket_kind b0 -> (b = CMD_JZ <-> b0 = CMD_JZ).
Proof.
  unfold bracket_kind.
  do 2 case Z.eqb_spec; do 2 (try case Z.eqb_spec); intros; subst;
    split; intros; subst; try discriminate; try reflexivity; try contradiction.
Qed.

Lemma bracket_kind_jnz b b0 :
  bracket_kind b = bracket_kind b0 -> (b = CMD_JNZ <-> b0 = CMD_JNZ).
Proof.
  unfold bracket_kind, CMD_JZ, CMD_JNZ.
  do 2 case Z.eqb_spec; do 2 (try case Z.eqb_spec); intros; subst;
    split; intros; subst; try discriminate; try reflexivity; try contradiction; try lia.
Qed.

(** Tapes with the same brackets answer the scans' two tests alike. *)
Lemma same_brackets_get t t0 j :
  same_brackets t t0 = true ->
  (get t j = Some CMD_JZ <-> get t0 j = Some CMD_JZ)
  /\ (get t j = Some CMD_JNZ <-> get t0 j = Some CMD_JNZ).
Proof.
  unfold same_brackets. intros H. apply bool_decide_eq_true in H.
  unfold get. destruct (j <? 0); [split; split; discriminate|].
  assert (Hj : bracket_kind <$> t !! Z.to_nat j = bracket_kind <$> t0 !! Z.to_nat j).
  { change (map bracket_kind t) with (bracket_kind <$> t) in H.
    change (map bracket_kind t0) with (bracket_kind <$> t0) in H.
    rewrite <- !list_lookup_fmap, H. reflexivity. }
  destruct (t !! Z.to_nat j) as [b|], (t0 !! Z.to_nat j) as [b0|];
    simpl in Hj; try discriminate.
  - injection Hj as Hj.
    pose proof (bracket_kind_jz _ _ Hj). pose proof (bracket_kind_jnz _ _ Hj).
    split; split; intros [= ->]; f_equal; tauto.
  - split; split; discriminate.
Qed.

Lemma scan_same_brackets t t0 mask opening closing dir budget depth p :
  is_bracket_pair opening closing ->
  same_brackets t t0 = true ->
  scan t mask opening closing dir budget depth p
  = scan t0 mask opening closing dir budget depth p.
Proof.
  intros Hp Hs. revert depth p.
  induction budget as [|n IH]; intros depth p; simpl; [reflexivity|].
  destruct (depth >? 0); [|reflexivity].
  destruct (same_brackets_get t t0 (Z.land p mask) Hs) as [Hz Hnz].
  assert (Ho : bool_decide (get t (Z.land p mask) = Some opening)
               = bool_decide (get t0 (Z.land p mask) = Some opening)).
  { apply bool_decide_ext. destruct Hp as [[-> _]|[-> _]]; assumption. }
  assert (Hc : bool_decide (get t (Z.land p mask) = Some closing)
               = bool_decide (get t0 (Z.land p mask) = Some closing)).
  { apply bool_decide_ext. destruct Hp as [[_ ->]|[_ ->]]; assumption. }
  rewrite Ho, Hc. apply IH.
Qed.

Section PowerOfTwo.

Variable k : Z.
Hypothesis k_nonneg : 0 <= k.

Local Abbreviation len := (2 ^ k * 2).
Local Abbreviation mask := (2 ^ k * 2 - 1).

Lemma len_pos : 0 < len.
Proof. assert (0 < 2 ^ k) by (apply Z.pow_pos_nonneg; lia). lia. Qed.

Lemma land_mask x : Z.land x mask = x mod len.
Proof.
  replace (2 ^ k * 2 - 1) with (Z.ones (k + 1)).
  - rewrite Z.land_ones by lia. rewrite Z.pow_add_r by lia. reflexivity.
  - rewrite Z.ones_equiv, Z.pow_add_r by lia. change (2 ^ 1) with 2. lia.
Qed.

(** Scans started at congruent positions run alike, shifted. *)
Lemma scan_shift t opening closing dir budget depth p q :
  p mod len = q mod len ->
  scan t mask opening closing dir budget depth p
  = ((scan t mask opening closing dir budget depth q).1,
     (scan t mask opening closing dir budget depth q).2 + (p - q)).
Proof.
  revert depth p q.
  induction budget as [|n IH]; intros depth p q Hpq; simpl.
  - f_equal. lia.
  - destruct (depth >? 0); simpl; [|f_equal; lia].
    rewrite !land_mask, Hpq.
    rewrite (IH _ (p + dir) (q + dir)).
    + f_equal. lia.
    + rewrite (Z.add_mod p), (Z.add_mod q), Hpq by (pose proof len_pos; lia).
      reflexivity.
Qed.

Lemma mod_len_range x : 0 <= x mod len < len.
Proof. apply Z.mod_pos_bound, len_pos. Qed.

Lemma mod_len_shift a b c :
  a mod len = b mod len -> (c + (a - b)) mod len = c mod len.
Proof.
  intros Hab. pose proof len_pos.
  rewrite Z.add_mod, Zminus_mod, Hab, Z.sub_diag, Z.mod_0_l, Z.add_0_r by lia.
  apply Z.mod_mod. lia.
Qed.

Lemma table_lookup t0 i :
  0 <= i < len ->
  get (build_jumps t0 len mask) i = Some (jump_entry t0 len mask i).
Proof.
  intros Hi. unfold get, build_jumps.
  destruct (Z.ltb_spec i 0); [lia|].
  change (map ?f ?l) with (f <$> l).
  rewrite list_lookup_fmap, lookup_seq_lt by lia.
  simpl. rewrite Z2Nat.id by lia. reflexivity.
Qed.

Hypothesis small_tape : 2 ^ k <= 16384.

(** A taken bracket: the table built on [t0] and the scan of a tape
    [t] with the same brackets agree, up to the wrap of [ip]. *)
Lemma resolve_agree t t0 po pn (forward : bool) :
  same_brackets t t0 = true ->
  po mod len = pn mod len ->
  get t (pn mod len) = Some (if forward then CMD_JZ else CMD_JNZ) ->
  match resolve_scan len mask t po forward,
        resolve_table (build_jumps t0 len mask) mask t pn forward with
  | Some a, Some b => a mod len = b mod len
  | None, None => True
  | _, _ => False
  end.
Proof.
  intros Hs Hp Hget.
  pose proof len_pos as Hlen. pose proof (mod_len_range pn) as Hi.
  assert (Hlen' : len <= 32768) by lia.
  unfold resolve_table, resolve_scan.
  rewrite land_mask, table_lookup by assumption. simpl.
  unfold jump_entry.
  destruct (same_brackets_get t t0 (pn mod len) Hs) as [Hz Hnz].
  destruct forward.
  - rewrite bool_decide_eq_true_2 by (apply Hz; assumption).
    rewrite (scan_same_brackets t t0) by (assumption || (left; split; reflexivity)).
    rewrite (scan_shift t0 _ _ _ _ _ (po + 1) (pn mod len + 1)).
    2:{ rewrite (Z.add_mod po), Hp, <- Z.add_mod by lia.
        rewrite (Z.add_mod (pn mod len)), Z.mod_mod, <- Z.add_mod by lia.
        reflexivity. }
    destruct (scan t0 mask CMD_JZ CMD_JNZ 1 (Z.to_nat len) 1 (pn mod len + 1))
      as [d sIp]. simpl.
    destruct (d =? 0); [|reflexivity].
    rewrite land_mask.
    pose proof (mod_len_range (sIp - 1)).
    rewrite i16_small by lia.
    destruct (Z.eqb_spec ((sIp - 1) mod len) (-1)); [lia|].
    rewrite Z.mod_mod by lia.
    replace (sIp + (po + 1 - (pn mod len + 1)) - 1)
      with (sIp - 1 + (po - pn mod len)) by lia.
    apply mod_len_shift. rewrite Z.mod_mod by lia. assumption.
  - rewrite bool_decide_eq_false_2.
    2:{ intros Hc. apply Hz in Hc. rewrite Hget in Hc. discriminate. }
    rewrite bool_decide_eq_true_2 by (apply Hnz; assumption).
    rewrite (scan_same_brackets t t0) by (assumption || (right; split; reflexivity)).
    rewrite (scan_shift t0 _ _ _ _ _ (po - 1) (pn mod len - 1)).
    2:{ rewrite (Zminus_mod po), Hp, <- Zminus_mod.
        rewrite (Zminus_mod (pn mod len)), Z.mod_mod, <- Zminus_mod by lia.
        reflexivity. }
    destruct (scan t0 mask CMD_JNZ CMD_JZ (-1) (Z.to_nat len) 1 (pn mod len - 1))
      as [d sIp]. simpl.
    destruct (d =? 0); [|reflexivity].
    rewrite land_mask.
    pose proof (mod_len_range (sIp + 1)).
    rewrite i16_small by lia.
    destruct (Z.eqb_spec ((sIp + 1) mod len) (-1)); [lia|].
    rewrite Z.mod_mod by lia.
    replace (sIp + (po - 1 - (pn mod len - 1)) + 1)
      with (sIp + 1 + (po - pn mod len)) by lia.
    apply mod_len_shift. rewrite Z.mod_mod by lia. assumption.
Qed.

Lemma succ_mod_len a b : a mod len = b mod len -> (a + 1) mod len = (b + 1) mod len.
Proof.
  intros H. pose proof len_pos.
  rewrite (Z.add_mod a), (Z.add_mod b), H by lia. reflexivity.
Qed.

(** One cycle keeps the machines related, and they return together. *)
Lemma cycle_sim t0 mo mn :
  related len mo mn ->
  same_brackets (tape mn) t0 = true ->
  match cycle (resolve_scan len mask) (2 ^ k) mask mo,
        cycle (resolve_table (build_jumps t0 len mask) mask) (2 ^ k) mask mn with
  | inl a, inl b => related len a b
  | inr a, inr b => related len a b
  | _, _ => False
  end.
Proof.
  intros (Ht & Hh0 & Hh1 & Hc & Hip) Hs.
  unfold cycle. rewrite !land_mask, Ht, Hh0, Hh1, Hc, Hip.
  destruct (decode (get (tape mn) (ip mn mod len))) eqn:Hd;
    try (unfold related, advance; simpl;
         repeat split; try reflexivity; try assumption;
         apply succ_mod_len; assumption).
  - (* [ *)
    destruct (cell_is_zero (tape mn) (head0 mn mod len)).
    + pose proof (resolve_agree (tape mn) t0 (ip mo) (ip mn) true Hs Hip
                    (decode_jz _ Hd)) as Hr.
      destruct (resolve_scan len mask (tape mn) (ip mo) true),
               (resolve_table (build_jumps t0 len mask) mask (tape mn) (ip mn) true);
        try contradiction.
      * unfold related, advance; simpl. repeat split; try reflexivity.
        apply succ_mod_len; assumption.
      * unfold related. repeat split; assumption.
    + unfold related, advance; simpl. repeat split; try assumption.
      * rewrite Hc. reflexivity.
      * apply succ_mod_len; assumption.
  - (* ] *)
    destruct (cell_is_zero (tape mn) (head0 mn mod len)).
    + unfold related, advance; simpl. repeat split; try assumption.
      * rewrite Hc. reflexivity.
      * apply succ_mod_len; assumption.
    + pose proof (resolve_agree (tape mn) t0 (ip mo) (ip mn) false Hs Hip
                    (decode_jnz _ Hd)) as Hr.
      destruct (resolve_scan len mask (tape mn) (ip mo) false),
               (resolve_table (build_jumps t0 len mask) mask (tape mn) (ip mn) false);
        try contradiction.
      * unfold related, advance; simpl. repeat split; try reflexivity.
        apply succ_mod_len; assumption.
      * unfold related. repeat split; assumption.
Qed.

(** The runs stay related as long as every prefix of the table-driven
    run keeps the brackets of [t0]. *)
Lemma run_sim t0 fuel : forall mo mn,
  related len mo mn ->
  (forall n, (n <= fuel)%nat ->
     same_brackets
       (tape (run (resolve_table (build_jumps t0 len mask) mask) (2 ^ k) mask n mn)) t0
     = true) ->
  related len (run (resolve_scan len mask) (2 ^ k) mask fuel mo)
          (run (resolve_table (build_jumps t0 len mask) mask) (2 ^ k) mask fuel mn).
Proof.
  induction fuel as [|fuel IH]; intros mo mn Hrel Hst; simpl; [assumption|].
  pose proof (cycle_sim t0 mo mn Hrel (Hst O ltac:(lia))) as Hc.
  destruct (cycle (resolve_scan len mask) (2 ^ k) mask mo) as [mo'|mo'],
           (cycle (resolve_table (build_jumps t0 len mask) mask) (2 ^ k) mask mn)
             as [mn'|mn'] eqn:Hn; try contradiction; [|assumption].
  apply IH; [assumption|].
  intros n Hle. specialize (Hst (S n) ltac:(lia)).
  simpl in Hst. rewrite Hn in Hst. exact Hst.
Qed.

End PowerOfTwo.

End Refinement.

(** C3, as stated, fails: on an 8-byte tape ([tapeSize = 4]) whose second
    byte decrements byte 92 into a [[], the earlier engine's scan finds the
    new bracket when the []] is taken and loops once more, while the table
    of the current engine, built on the initial tape, has no match and
    returns. Counters and tapes differ. *)
Lemma scan_and_table_differ :
  length selfmod_tape = 8%nat
  /\ VM.execute_scanning 4 32 selfmod_tape = (VM.Counters 3 0 0, [90; 45; 93; 0; 0; 0; 0; 0])
  /\ VM.execute 4 32 selfmod_tape = (VM.Counters 1 0 0, [91; 45; 93; 0; 0; 0; 0; 0]).
Proof. vm_compute. repeat split. Qed.

(** C3, amended: for [tapeSize = 2^k] with [2 * tapeSize <= 32768] (so
    that every jump target fits the 16-bit table), every instruction limit
    and every tape, if no prefix of the current engine's run moves, adds or
    removes a bracket, then the earlier engine's [execute] (scan at jump
    time) and the current one (jump table built before the main loop)
    return equal counters and leave identical tapes. *)
Theorem executes_agree_on_stable_brackets (k limit : Z) (t : list Z) :
  0 <= k ->
  2 ^ k <= 16384 ->
  Brackets.brackets_stable (2 ^ k) limit t = true ->
  VM.execute_scanning (2 ^ k) limit t = VM.execute (2 ^ k) limit t.
Proof.
  intros Hk Hsmall Hst.
  unfold VM.execute_scanning, VM.execute.
  assert (Hrel : Brackets.related (2 ^ k * 2) (VM.start t) (VM.start t)).
  { unfold Brackets.related. repeat split. }
  pose proof (Refinement.run_sim k Hk Hsmall t (Z.to_nat limit) _ _ Hrel) as Hrun.
  destruct Hrun as (Ht & _ & _ & Hc & _).
  - intros n Hn.
    unfold Brackets.brackets_stable in Hst.
    rewrite forallb_forall in Hst.
    specialize (Hst n ltac:(apply in_seq; lia)).
    unfold VM.execute in Hst. rewrite Nat2Z.id in Hst. exact Hst.
  - rewrite Ht, Hc. reflexivity.
Qed.

(** The amended C3 at work: a countdown loop on an 8-byte tape. *)
Lemma executes_agree_witness :
  VM.execute_scanning (2 ^ 2) 32 countdown_tape = VM.execute (2 ^ 2) 32 countdown_tape.
Proof.
  apply (executes_agree_on_stable_brackets 2 32 countdown_tape).
  - lia.
  - vm_compute. discriminate.
  - vm_compute. reflexivity.
Defined.

(** ** Engines reached through the public operations *)

Section Reachability.

Variable Math_log2 : spec_float -> spec_float.
Variable Host_allocates : Z -> bool.

Lemma set_length a i v : length (TypedArray.set a i v) = length a.
Proof. unfold TypedArray.set. destruct (i <? 0); [reflexivity|apply length_insert]. Qed.

Lemma fill_length mode n s : length (fill mode n s).1 = n.
Proof.
  revert s. induction n as [|n IH]; intros s; simpl; [reflexivity|].
  destruct (PRNG.next s) as [s1 r].
  specialize (IH s1). destruct (fill mode n s1) as [rest s2].
  simpl in *. congruence.
Qed.

Lemma mutate_loop_length n total d s : length (mutate_loop n total d s).1 = length d.
Proof.
  revert d s. induction n as [|n IH]; intros d s; simpl; [reflexivity|].
  destruct (PRNG.next s) as [s1 r1]. destruct (PRNG.next s1) as [s2 r2].
  rewrite IH. apply set_length.
Qed.

Lemma mutate_length rate d s d' s' :
  mutate rate d s = Some (d', s') -> length d' = length d.
Proof.
  unfold mutate. destruct (F64.leb rate F64.zero); [congruence|].
  destruct (PRNG.next s) as [s1 r].
  destruct (loop_bound _) as [n|]; simpl; [|discriminate].
  intros [= H]. rewrite <- (mutate_loop_length n (Z.of_nat (length d)) d s1).
  destruct (mutate_loop n _ d s1). injection H as -> ->. reflexivity.
Qed.

Lemma store_tape_length d t tapeSize idxA idxB :
  length (store_tape d t tapeSize idxA idxB) = length d.
Proof.
  unfold store_tape. generalize (seq 0 (Z.to_nat tapeSize)). intros l.
  revert d. induction l as [|i l IH]; intros d; simpl; [reflexivity|].
  rewrite IH, !set_length. reflexivity.
Qed.

Lemma alloc_some k n d :
  alloc Host_allocates k n = Some d ->
  0 <= n <= 2 ^ 53 - 1 /\ Host_allocates (k * n) = true
  /\ d = replicate (Z.to_nat n) 0.
Proof.
  unfold alloc. destruct (Z.ltb_spec n 0); [discriminate|].
  destruct (Z.ltb_spec (2 ^ 53 - 1) n); [discriminate|].
  destruct (Host_allocates (k * n)); [|discriminate].
  intros [= <-]. repeat split; lia.
Qed.

Lemma alloc_length k n d :
  alloc Host_allocates k n = Some d -> 0 <= n /\ Z.of_nat (length d) = n.
Proof.
  intros H. apply alloc_some in H as (Hn & _ & ->).
  rewrite length_replicate. lia.
Qed.

Lemma alloc_none k n :
  alloc Host_allocates k n = None <-> unobtainable Host_allocates k n.
Proof.
  unfold alloc, unobtainable. destruct (Z.ltb_spec n 0).
  { split; [left; assumption|reflexivity]. }
  destruct (Z.ltb_spec (2 ^ 53 - 1) n).
  { split; [right; left; assumption|reflexivity]. }
  destruct (Host_allocates (k * n)).
  - split; [discriminate|]. intros [?|[?|?]]; [lia|lia|discriminate].
  - split; [right; right; reflexivity|reflexivity].
Qed.

Lemma reset_invariant e :
  width e = gridWidth (config e) ->
  height e = gridHeight (config e) ->
  0 <= tapeSize (config e) ->
  Z.of_nat (length (data e)) = width e * height e * tapeSize (config e) ->
  invariant (reset Math_log2 e).
Proof.
  intros Hw Hh Ht Hd. unfold reset.
  pose proof (fill_length (seedingMode (config e)) (length (data e))
                (PRNG.create (seed (config e)))) as Hl.
  destruct (fill _ _ _) as [d s]. simpl in Hl.
  split; simpl; try assumption; [congruence|reflexivity|discriminate].
Qed.

Lemma completeEpoch_invariant e e' :
  invariant e -> completeEpoch Math_log2 e = Some e' -> invariant e'.
Proof.
  intros [Hw Hh Ht Hd Hl Hne]. unfold completeEpoch.
  destruct (mutate _ _ _) as [[d s]|] eqn:Hm; simpl; [|discriminate].
  intros [= <-]. apply mutate_length in Hm.
  split; simpl; try assumption; [congruence| |].
  - destruct (shouldLog _ _ _); [|assumption].
    rewrite last_snoc. reflexivity.
  - destruct (shouldLog _ _ _); [|assumption].
    intros Happ. apply app_eq_nil in Happ as [_ Happ]. discriminate.
Qed.

Lemma interact_invariant fuel e e' :
  invariant e -> interact Math_log2 fuel e = Some e' -> invariant e'.
Proof.
  intros Hinv. unfold interact.
  destruct (pick fuel e) as [[s [[idxA idxB]|]]|]; cbn [mbind option_bind];
    [| |discriminate].
  - destruct (VM.execute (tapeSize (config e)) (instructionLimit (config e))
                (load_tape (data e) (tapeSize (config e)) idxA idxB)) as [c t'].
    set (e1 := account (set_rng e s) c).
    assert (Hinv1 : invariant e1) by (destruct Hinv; split; assumption).
    assert (Hinv2 : forall e2,
              (if epochInteractions e1 >=? epochSize e1
               then completeEpoch Math_log2 e1 else Some e1) = Some e2 ->
              invariant e2).
    { intros e2. destruct (_ >=? _).
      - apply completeEpoch_invariant; assumption.
      - intros [= <-]. assumption. }
    destruct (if epochInteractions e1 >=? epochSize e1
              then completeEpoch Math_log2 e1 else Some e1) as [e2|];
      cbn [mbind option_bind]; [|discriminate].
    intros [= <-]. destruct (Hinv2 e2 eq_refl).
    split; cbn [set_data config width height data lastHistoryStats history];
      try assumption.
    rewrite store_tape_length. assumption.
  - intros [= <-]. destruct Hinv. split; assumption.
Qed.

Lemma new_eq c e :
  new Math_log2 Host_allocates c = Some e -> e = reset Math_log2 (blank c).
Proof.
  unfold new.
  destruct (alloc Host_allocates 1 (gridWidth c * gridHeight c * tapeSize c))
    as [d|] eqn:Hd; cbn [mbind option_bind]; [|discriminate].
  destruct (alloc Host_allocates 1 (tapeSize c * 2)); cbn [mbind option_bind];
    [|discriminate].
  destruct (alloc Host_allocates 2 (tapeSize c * 2)); cbn [mbind option_bind];
    [|discriminate].
  intros [= <-]. apply alloc_some in Hd as (_ & _ & ->). reflexivity.
Qed.

(** [new] throws exactly when one of its three arrays cannot be had. *)
Lemma new_none c :
  new Math_log2 Host_allocates c = None <-> short_of_arrays Host_allocates c.
Proof.
  unfold new, short_of_arrays. rewrite <- !alloc_none.
  destruct (alloc Host_allocates 1 (gridWidth c * gridHeight c * tapeSize c));
    cbn [mbind option_bind]; [|split; [left; reflexivity|reflexivity]].
  destruct (alloc Host_allocates 1 (tapeSize c * 2)); cbn [mbind option_bind];
    [|split; [right; left; reflexivity|reflexivity]].
  destruct (alloc Host_allocates 2 (tapeSize c * 2)); cbn [mbind option_bind];
    [|split; [right; right; reflexivity|reflexivity]].
  split; [discriminate|]. intros [?|[?|?]]; discriminate.
Qed.

(** [new] returns an engine whenever its arrays can be had. *)
Lemma new_returns c :
  ~ short_of_arrays Host_allocates c ->
  exists e, new Math_log2 Host_allocates c = Some e.
Proof.
  intros H. destruct (new Math_log2 Host_allocates c) as [e|] eqn:He.
  - exists e. reflexivity.
  - apply new_none in He. contradiction.
Qed.

Lemma new_lengths c e :
  new Math_log2 Host_allocates c = Some e ->
  0 <= gridWidth c * gridHeight c * tapeSize c /\ 0 <= tapeSize c.
Proof.
  intros He. assert (Hn : ~ short_of_arrays Host_allocates c).
  { intros Hs. apply new_none in Hs. congruence. }
  unfold short_of_arrays, unobtainable in Hn. lia.
Qed.

Lemma new_invariant c e : new Math_log2 Host_allocates c = Some e -> invariant e.
Proof.
  intros He. destruct (new_lengths c e He) as [H1 H2].
  rewrite (new_eq c e He).
  apply reset_invariant; simpl; try reflexivity; [assumption|].
  rewrite length_replicate. lia.
Qed.

(** What [new] fixes of the engine, whatever the statistics. *)
Lemma new_fields c e :
  new Math_log2 Host_allocates c = Some e ->
  config e = c /\ width e = gridWidth c /\ height e = gridHeight c
  /\ epochSize e = gridWidth c * gridHeight c
  /\ (data e, rng e)
     = fill (seedingMode c) (Z.to_nat (gridWidth c * gridHeight c * tapeSize c))
            (PRNG.create (seed c))
  /\ epochInteractions e = 0 /\ epoch (stats e) = 0.
Proof.
  intros He. rewrite (new_eq c e He).
  unfold reset, blank. cbn [config data seedingMode seed width height epochSize].
  rewrite length_replicate.
  destruct (fill _ _ _) as [d s]. repeat split.
Qed.

(** The census of a fresh engine is the census of its grid. *)
Lemma new_census c e :
  new Math_log2 Host_allocates c = Some e ->
  census (stats e)
  = performCensus Math_log2 (gridWidth c) (gridHeight c) (tapeSize c) (data e).
Proof.
  intros He. rewrite (new_eq c e He).
  unfold reset, blank. cbn [config data seedingMode seed width height].
  destruct (fill _ _ _) as [d' s]. reflexivity.
Qed.

Lemma rebuilds_spec c e :
  negb (gridWidth c =? width e) || negb (gridHeight c =? height e)
  || negb (tapeSize c =? tapeSize (config e)) || negb (seed c =? seed (config e)) = true
  <-> rebuilds c e.
Proof.
  unfold rebuilds. rewrite !orb_true_iff, !negb_true_iff, !Z.eqb_neq. tauto.
Qed.

Lemma rebuilds_dec c e : rebuilds c e \/ ~ rebuilds c e.
Proof.
  destruct (negb (gridWidth c =? width e) || negb (gridHeight c =? height e)
            || negb (tapeSize c =? tapeSize (config e))
            || negb (seed c =? seed (config e))) eqn:H.
  - left. apply rebuilds_spec. assumption.
  - right. intros Hr. apply rebuilds_spec in Hr. congruence.
Qed.

(** The two ways [updateConfig] returns. *)
Lemma updateConfig_returned c e e' :
  updateConfig Math_log2 Host_allocates c e = Returned e' ->
  (~ rebuilds c e /\ e' = set_config e c)
  \/ (rebuilds c e /\ ~ short_of_arrays Host_allocates c
      /\ e' = with_epochSize (reset Math_log2 (blank c)) (epochSize e)).
Proof.
  unfold updateConfig.
  destruct (rebuilds_dec c e) as [Hr|Hr].
  - pose proof (proj2 (rebuilds_spec c e) Hr) as ->.
    destruct (alloc Host_allocates 1 (gridWidth c * gridHeight c * tapeSize c))
      as [d|] eqn:Hd; [|discriminate].
    destruct (alloc Host_allocates 1 (tapeSize c * 2)) eqn:Hb; [|discriminate].
    destruct (alloc Host_allocates 2 (tapeSize c * 2)) eqn:Hj; [|discriminate].
    intros [= <-]. right. split; [assumption|]. split.
    { unfold short_of_arrays. rewrite <- !alloc_none, Hd, Hb, Hj.
      intros [?|[?|?]]; discriminate. }
    apply alloc_some in Hd as (_ & _ & ->).
    unfold reset, blank, with_epochSize, set_rng, set_data.
    cbn [config data seedingMode seed width height epochSize].
    destruct (fill _ _ _). reflexivity.
  - destruct (_ || _) eqn:Hm; [apply rebuilds_spec in Hm; contradiction|].
    intros [= <-]. left. split; [assumption|reflexivity].
Qed.

(** The state [updateConfig] leaves when it throws. *)
Lemma updateConfig_threw c e e' :
  updateConfig Math_log2 Host_allocates c e = Threw e' ->
  rebuilds c e /\ short_of_arrays Host_allocates c
  /\ (e' = set_data e' (data e') /\ config e' = c /\ width e' = gridWidth c
      /\ height e' = gridHeight c /\ rng e' = rng e /\ stats e' = stats e
      /\ history e' = history e /\ lastHistoryStats e' = lastHistoryStats e
      /\ epochInteractions e' = epochInteractions e
      /\ epochTotalComplexity e' = epochTotalComplexity e
      /\ epochTotalCopies e' = epochTotalCopies e
      /\ epochTotalEffectiveCopies e' = epochTotalEffectiveCopies e
      /\ epochSize e' = epochSize e)
  /\ ((unobtainable Host_allocates 1 (gridWidth c * gridHeight c * tapeSize c)
       /\ data e' = data e)
      \/ (~ unobtainable Host_allocates 1 (gridWidth c * gridHeight c * tapeSize c)
          /\ data e' = replicate (Z.to_nat (gridWidth c * gridHeight c * tapeSize c)) 0)).
Proof.
  unfold updateConfig.
  destruct (_ || _) eqn:Hm; [|discriminate].
  apply rebuilds_spec in Hm.
  destruct (alloc Host_allocates 1 (gridWidth c * gridHeight c * tapeSize c))
    as [d|] eqn:Hd.
  - assert (Hok : ~ unobtainable Host_allocates 1
                      (gridWidth c * gridHeight c * tapeSize c)).
    { intros Hu. apply alloc_none in Hu. congruence. }
    apply alloc_some in Hd as (_ & _ & ->).
    destruct (alloc Host_allocates 1 (tapeSize c * 2)) eqn:Hb.
    + destruct (alloc Host_allocates 2 (tapeSize c * 2)) eqn:Hj; [discriminate|].
      intros [= <-]. split; [assumption|]. split.
      { right. right. apply alloc_none. assumption. }
      split; [repeat split|]. right. split; [assumption|reflexivity].
    + intros [= <-]. split; [assumption|]. split.
      { right. left. apply alloc_none. assumption. }
      split; [repeat split|]. right. split; [assumption|reflexivity].
  - intros [= <-]. split; [assumption|]. split.
    { left. apply alloc_none. assumption. }
    split; [repeat split|]. left. split; [apply alloc_none; assumption|reflexivity].
Qed.

(** [updateConfig] throws exactly when it rebuilds the grid and one of
    the arrays cannot be had. *)
Lemma updateConfig_throws c e :
  (exists e', updateConfig Math_log2 Host_allocates c e = Threw e')
  <-> rebuilds c e /\ short_of_arrays Host_allocates c.
Proof.
  split.
  - intros [e' H]. apply updateConfig_threw in H. tauto.
  - intros [Hr Hs]. destruct (updateConfig Math_log2 Host_allocates c e) as [e'|e'] eqn:Hu.
    + apply updateConfig_returned in Hu as [[Hn _]|(_ & Hn & _)]; contradiction.
    + exists e'. reflexivity.
Qed.

Lemma updateConfig_config c e e' :
  updateConfig Math_log2 Host_allocates c e = Returned e' -> config e' = c.
Proof.
  intros H. apply updateConfig_returned in H as [[_ ->]|(_ & _ & ->)].
  - reflexivity.
  - unfold reset, blank, with_epochSize. cbn [config data seedingMode seed].
    destruct (fill _ _ _). reflexivity.
Qed.

Lemma updateConfig_invariant c e e' :
  invariant e -> updateConfig Math_log2 Host_allocates c e = Returned e' -> invariant e'.
Proof.
  intros Hinv H. apply updateConfig_returned in H as [[Hr ->]|(_ & Hs & ->)].
  - unfold rebuilds in Hr.
    destruct Hinv. split; simpl; try assumption; lia.
  - unfold short_of_arrays, unobtainable in Hs.
    assert (Hb : invariant (reset Math_log2 (blank c))).
    { apply reset_invariant; simpl; try reflexivity; [lia|].
      rewrite length_replicate. lia. }
    destruct Hb. split; assumption.
Qed.

Lemma reachable_invariant e : reachable Math_log2 Host_allocates e -> invariant e.
Proof.
  induction 1 as [c e Hnew|e _ IH|c e e' _ IH Hup|fuel e e' _ IH Hint].
  - exact (new_invariant c e Hnew).
  - destruct IH. apply reset_invariant; assumption.
  - exact (updateConfig_invariant c e e' IH Hup).
  - exact (interact_invariant fuel e e' IH Hint).
Qed.

End Reachability.

(** ** Reading a cell *)

Section CellAccess.

Lemma normalize_mod v n : 0 < n -> normalize v n = v mod n.
Proof.
  intros Hn. unfold normalize.
  pose proof (Z.rem_bound_abs v n ltac:(lia)).
  pose proof (Z.rem_mod_nonneg (Z.rem v n + n) n) as H1.
  rewrite H1 by lia.
  rewrite <- (Z.mod_add v 1 n), Z.mul_1_l by lia.
  rewrite (Z.add_mod (Z.rem v n)), (Z.add_mod v) by lia.
  f_equal. f_equal.
  rewrite (Z.quot_rem' v n) at 2.
  rewrite Z.add_comm, Z.mul_comm, Z.mod_add by lia. reflexivity.
Qed.

Lemma one_wrap_mod v n : 0 < n -> - n <= v -> Z.rem (v + n) n = v mod n.
Proof.
  intros Hn Hv. rewrite Z.rem_mod_nonneg by lia.
  rewrite <- (Z.mod_add v 1 n) by lia. f_equal. lia.
Qed.

Lemma slice_in_range a i n :
  0 <= i -> 0 <= n -> i + n <= Z.of_nat (length a) ->
  Js.slice a i (i + n) = take (Z.to_nat n) (drop (Z.to_nat i) a)
  /\ Z.of_nat (length (Js.slice a i (i + n))) = n.
Proof.
  intros Hi Hn Hlen. unfold Js.slice, Js.rel_index.
  destruct (Z.ltb_spec i 0); [lia|]. destruct (Z.ltb_spec (i + n) 0); [lia|].
  rewrite !Z.min_l by lia.
  replace (i + n - i) with n by lia.
  split; [reflexivity|].
  rewrite length_take, length_drop. lia.
Qed.

End CellAccess.

(** [getCellAt] adds the width once before taking the remainder, so a
    column left of [-W] keeps a negative remainder and a negative offset,
    which [slice] reads from the end of the grid. On the 4 x 4 grid,
    [getCellAt(-5, 0)] is empty while the cell at the normalised
    coordinates [(3, 0)] has 4 bytes. *)
Lemma getCellAt_left_of_one_wrap :
  valid_config cfg0 = true
  /\ forall log2, exists e,
       new log2 ample_host cfg0 = Some e
       /\ getCellAt (-5) 0 e = []
       /\ normalize (-5) (width e) = 3 /\ normalize 0 (height e) = 0
       /\ cell_bytes e 3 0 = [91; 125; 123; 43].
Proof.
  split; [vm_compute; reflexivity|].
  intros log2.
  destruct (new_returns log2 ample_host cfg0) as [e He]; [vm_compute; intuition discriminate|].
  exists e. split; [exact He|].
  destruct (new_fields log2 ample_host cfg0 e He) as (Hc & Hw & Hh & _ & Hd & _).
  unfold getCellAt, cell_bytes. rewrite Hc, Hw, Hh.
  replace (data e) with (data e, rng e).1 by reflexivity. rewrite Hd.
  vm_compute. repeat split.
Qed.

(** The grid must fit: [updateConfig] to a 2^27 x 2^27 grid of 1-byte
    tapes throws on the first allocation, after it has assigned the new
    width and height; the old 64-byte grid stays, and [getCellAt(1, 1)]
    returns no byte. *)
Lemma getCellAt_after_a_throw :
  valid_config cfg_vast = true
  /\ forall log2, exists e e',
       new log2 ample_host cfg0 = Some e
       /\ updateConfig log2 ample_host cfg_vast e = Threw e'
       /\ 0 < width e' /\ 0 < height e' /\ tapeSize (config e') = 1
       /\ getCellAt 1 1 e' = [].
Proof.
  split; [vm_compute; reflexivity|].
  intros log2.
  destruct (new_returns log2 ample_host cfg0) as [e He]; [vm_compute; intuition discriminate|].
  destruct (new_fields log2 ample_host cfg0 e He) as (Hc & Hw & Hh & _ & Hd & _).
  assert (Hthrow : exists e', updateConfig log2 ample_host cfg_vast e = Threw e').
  { apply updateConfig_throws. split.
    - left. rewrite Hw. vm_compute. discriminate.
    - left. right. left. vm_compute. reflexivity. }
  destruct Hthrow as [e' Hu]. exists e, e'. split; [exact He|]. split; [exact Hu|].
  apply updateConfig_threw in Hu
    as (_ & _ & (_ & Hc' & Hw' & Hh' & _) & [[_ Hd']|[Hn _]]).
  2:{ exfalso. apply Hn. right. left. vm_compute. reflexivity. }
  unfold getCellAt. rewrite Hc', Hw', Hh', Hd'.
  replace (data e) with (data e, rng e).1 by reflexivity. rewrite Hd.
  vm_compute. repeat split.
Qed.

(** C8, as stated, fails in two ways. A column left of [-W] is not
    normalised: on the 4 x 4 grid, [getCellAt(-5, 0)] is empty while the
    cell at the normalised coordinates [(3, 0)] has 4 bytes. And the grid
    need not fit the dimensions: after an [updateConfig] to a
    2^27 x 2^27 grid of 1-byte tapes has thrown, [getCellAt(1, 1)]
    returns no byte of the old 64-byte grid. *)
Lemma getCellAt_two_wraps_fails :
  (valid_config cfg0 = true
   /\ forall log2, exists e,
        new log2 ample_host cfg0 = Some e
        /\ getCellAt (-5) 0 e = []
        /\ normalize (-5) (width e) = 3 /\ normalize 0 (height e) = 0
        /\ cell_bytes e 3 0 = [91; 125; 123; 43])
  /\ (valid_config cfg_vast = true
      /\ forall log2, exists e e',
           new log2 ample_host cfg0 = Some e
           /\ updateConfig log2 ample_host cfg_vast e = Threw e'
           /\ 0 < width e' /\ 0 < height e' /\ tapeSize (config e') = 1
           /\ getCellAt 1 1 e' = []).
Proof. split; [exact getCellAt_left_of_one_wrap|exact getCellAt_after_a_throw]. Qed.

(** C8, amended: on an engine with positive width and height whose grid
    holds [W·H·T] bytes, for all integers [x >= -W] and [y >= -H],
    [getCellAt(x, y)] returns the [T] bytes of the cell at the normalised
    coordinates [((x mod W + W) mod W, (y mod H + H) mod H)]. The grid
    holds [W·H·T] bytes on every engine reached through calls that
    returned ([reachable_invariant]); an [updateConfig] that threw can
    leave a grid that does not fit the new dimensions. *)
Theorem getCellAt_one_wrap (e : BFFSimulation) (x y : Z) :
  Z.of_nat (length (data e)) = width e * height e * tapeSize (config e) ->
  0 < width e -> 0 < height e ->
  - width e <= x -> - height e <= y ->
  getCellAt x y e = cell_bytes e (normalize x (width e)) (normalize y (height e))
  /\ Z.of_nat (length (getCellAt x y e)) = tapeSize (config e).
Proof.
  intros Hdata HW HH Hx Hy.
  assert (HT : 0 <= tapeSize (config e)) by nia.
  unfold getCellAt, cell_bytes, Js.rem.
  destruct (Z.eqb_spec (width e) 0); [lia|]. destruct (Z.eqb_spec (height e) 0); [lia|].
  cbn [mbind option_bind].
  rewrite !one_wrap_mod, !normalize_mod by lia.
  pose proof (Z.mod_pos_bound x (width e) HW).
  pose proof (Z.mod_pos_bound y (height e) HH).
  generalize dependent (x mod width e). generalize dependent (y mod height e).
  intros sy Hsy sx Hsx.
  assert (Hcell : 0 <= sy * width e + sx /\ sy * width e + sx + 1 <= width e * height e).
  { split; [apply Z.add_nonneg_nonneg; [apply Z.mul_nonneg_nonneg|]; lia|].
    replace (width e * height e) with ((height e - 1) * width e + width e) by ring.
    assert (sy * width e <= (height e - 1) * width e)
      by (apply Z.mul_le_mono_nonneg_r; lia).
    lia. }
  apply slice_in_range; [apply Z.mul_nonneg_nonneg; lia|lia|].
  rewrite Hdata.
  replace ((sy * width e + sx) * tapeSize (config e) + tapeSize (config e))
    with ((sy * width e + sx + 1) * tapeSize (config e)) by ring.
  apply Z.mul_le_mono_nonneg_r; lia.
Qed.

(** The amended C8 at work on the 4 x 4 grid, one wrap on each axis. *)
Lemma getCellAt_one_wrap_witness :
  valid_config cfg0 = true
  /\ forall log2, exists e,
       new log2 ample_host cfg0 = Some e
       /\ Z.of_nat (length (data e)) = width e * height e * tapeSize (config e)
       /\ getCellAt (-4) (-1) e = cell_bytes e (normalize (-4) (width e)) (normalize (-1) (height e))
       /\ Z.of_nat (length (getCellAt (-4) (-1) e)) = tapeSize (config e).
Proof.
  split; [vm_compute; reflexivity|].
  intros log2.
  destruct (new_returns log2 ample_host cfg0) as [e He]; [vm_compute; intuition discriminate|].
  exists e. split; [exact He|].
  destruct (new_fields log2 ample_host cfg0 e He) as (_ & Hw & Hh & _).
  change (gridWidth cfg0) with 4 in Hw. change (gridHeight cfg0) with 4 in Hh.
  destruct (new_invariant log2 ample_host cfg0 e He) as [_ _ _ Hd _ _].
  split; [exact Hd|].
  apply (getCellAt_one_wrap e (-4) (-1)).
  - exact Hd.
  - lia.
  - lia.
  - lia.
  - lia.
Defined.

(** ** Construction and reconfiguration *)

(** C4, as stated, fails twice. The constructor and [updateConfig]
    validate nothing: a 3-byte tape, an empty grid and a mutation rate of
    2 are all accepted, by [new] and by [updateConfig] on a running
    engine. And where [updateConfig] does throw, on a tape size of [-2]
    whose grid has a negative length, it leaves a partial state: the
    engine keeps its grid and has the refused configuration installed. *)
Lemma invalid_configs_are_accepted :
  (to_be_rejected cfg_tape3 = true /\ to_be_rejected cfg_empty = true
   /\ to_be_rejected cfg_rate2 = true /\ to_be_rejected cfg_negative = true)
  /\ forall log2,
       is_Some (new log2 ample_host cfg_tape3) /\ is_Some (new log2 ample_host cfg_empty)
       /\ is_Some (new log2 ample_host cfg_rate2)
       /\ exists e, new log2 ample_host cfg0 = Some e
            /\ (exists e1, updateConfig log2 ample_host cfg_tape3 e = Returned e1
                           /\ config e1 = cfg_tape3)
            /\ (exists e1, updateConfig log2 ample_host cfg_empty e = Returned e1
                           /\ config e1 = cfg_empty)
            /\ (exists e1, updateConfig log2 ample_host cfg_rate2 e = Returned e1
                           /\ config e1 = cfg_rate2)
            /\ (exists e1, updateConfig log2 ample_host cfg_negative e = Threw e1
                           /\ config e1 = cfg_negative /\ config e = cfg0
                           /\ data e1 = data e /\ length (data e1) = 64%nat).
Proof.
  split; [vm_compute; repeat split|].
  intros log2.
  assert (Hnew : forall c, ~ short_of_arrays ample_host c -> is_Some (new log2 ample_host c)).
  { intros c Hc. destruct (new_returns log2 ample_host c Hc) as [e ->].
    eexists; reflexivity. }
  assert (Hup : forall c e, ~ short_of_arrays ample_host c ->
            exists e1, updateConfig log2 ample_host c e = Returned e1 /\ config e1 = c).
  { intros c e Hc. destruct (updateConfig log2 ample_host c e) as [e1|e1] eqn:Hn.
    - exists e1. split; [reflexivity|]. exact (updateConfig_config log2 ample_host c e e1 Hn).
    - apply updateConfig_threw in Hn. tauto. }
  assert (Hok : ~ short_of_arrays ample_host cfg_tape3
                /\ ~ short_of_arrays ample_host cfg_empty
                /\ ~ short_of_arrays ample_host cfg_rate2).
  { split; [|split]; vm_compute; intuition discriminate. }
  destruct Hok as (H3 & H0 & H2).
  split; [apply Hnew; assumption|].
  split; [apply Hnew; assumption|].
  split; [apply Hnew; assumption|].
  destruct (new_returns log2 ample_host cfg0) as [e He]; [vm_compute; intuition discriminate|].
  destruct (new_fields log2 ample_host cfg0 e He) as (Hc & Hw & Hh & _ & Hd & _).
  exists e. split; [exact He|].
  split; [apply Hup; assumption|]. split; [apply Hup; assumption|].
  split; [apply Hup; assumption|].
  assert (Hthrow : exists e1, updateConfig log2 ample_host cfg_negative e = Threw e1).
  { apply updateConfig_throws. split.
    - right. right. left. rewrite Hc. vm_compute. discriminate.
    - left. left. vm_compute. reflexivity. }
  destruct Hthrow as [e1 Hu]. exists e1. split; [exact Hu|].
  apply updateConfig_threw in Hu
    as (_ & _ & (_ & Hc' & _) & [[_ Hd']|[Hn _]]).
  2:{ exfalso. apply Hn. left. vm_compute. reflexivity. }
  split; [exact Hc'|]. split; [exact Hc|]. split; [exact Hd'|].
  rewrite Hd'. replace (data e) with (data e, rng e).1 by reflexivity. rewrite Hd.
  vm_compute. reflexivity.
Qed.

(** C4, amended: neither [new] nor [updateConfig] validates. [new]
    throws exactly when one of its three arrays cannot be had (a length
    [W·H·T] or [2·T] that is negative or above [2^53 - 1], or a host
    without room), and then no engine exists; [updateConfig] throws
    exactly when it rebuilds the grid and one of the arrays cannot be had,
    and then the engine is left with the new configuration, width and
    height, its other fields as they were, the grid either the old one
    (the grid could not be had) or zeroed at the new size (a scratch array
    could not). Every other configuration is accepted and installed,
    whatever the form of [tapeSize], even when [W·H·T = 0], and whatever
    the mutation rate. *)
Theorem only_failed_allocations_refuse log2 host (c : SimulationConfig) :
  (new log2 host c = None <-> short_of_arrays host c)
  /\ (forall e, new log2 host c = Some e -> config e = c)
  /\ (forall e0, (exists e, updateConfig log2 host c e0 = Threw e)
                 <-> rebuilds c e0 /\ short_of_arrays host c)
  /\ (forall e0 e, updateConfig log2 host c e0 = Returned e -> config e = c)
  /\ (forall e0 e, updateConfig log2 host c e0 = Threw e ->
        config e = c /\ width e = gridWidth c /\ height e = gridHeight c
        /\ rng e = rng e0 /\ stats e = stats e0 /\ history e = history e0
        /\ epochInteractions e = epochInteractions e0 /\ epochSize e = epochSize e0
        /\ ((unobtainable host 1 (gridWidth c * gridHeight c * tapeSize c)
             /\ data e = data e0)
            \/ (~ unobtainable host 1 (gridWidth c * gridHeight c * tapeSize c)
                /\ data e
                   = replicate (Z.to_nat (gridWidth c * gridHeight c * tapeSize c)) 0))).
Proof.
  split; [apply new_none|].
  split; [intros e He; apply (new_fields log2 host c e He)|].
  split; [intros e0; apply updateConfig_throws|].
  split; [intros e0 e; apply updateConfig_config|].
  intros e0 e Hu.
  apply updateConfig_threw in Hu as (_ & _ & Hf & Hd). tauto.
Qed.

(** ** The history policy *)

Section History.

Variable Math_log2 : spec_float -> spec_float.

Lemma rem_zero_mod a : (Z.rem a CENSUS_INTERVAL =? 0) = (a mod 50 =? 0).
Proof.
  unfold CENSUS_INTERVAL.
  destruct (Z.eqb_spec (Z.rem a 50) 0) as [Hr|Hr], (Z.eqb_spec (a mod 50) 0) as [Hm|Hm];
    try reflexivity; exfalso.
  - apply Hm. apply Z.mod_divide; [lia|]. apply Z.rem_divide in Hr; [assumption|lia].
  - apply Hr. apply Z.rem_divide; [lia|]. apply Z.mod_divide in Hm; [assumption|lia].
Qed.

Lemma shouldLog_due st l :
  shouldLog (Z.rem (epoch st) CENSUS_INTERVAL =? 0) st (Some l) = snapshot_due st l.
Proof.
  unfold shouldLog, snapshot_due. rewrite rem_zero_mod.
  destruct (epoch st mod 50 =? 0); reflexivity.
Qed.

(** [completeEpoch] on an engine that satisfies the invariant: the epoch
    advances by one and the history follows the policy. *)
Lemma completeEpoch_history e e' :
  invariant e ->
  completeEpoch Math_log2 e = Some e' ->
  exists l,
    last (history e) = Some l
    /\ epoch (stats e') = epoch (stats e) + 1
    /\ history e' =
         if snapshot_due (stats e') l then history e ++ [stats e'] else history e.
Proof.
  intros [_ _ _ _ Hl Hne]. unfold completeEpoch.
  destruct (mutate _ _ _) as [[d s]|]; cbn [mbind option_bind]; [|discriminate].
  intros [= <-]. cbn [history stats epoch].
  destruct (last (history e)) as [l|] eqn:Hlast.
  - exists l. split; [reflexivity|]. split; [reflexivity|].
    rewrite Hl. rewrite <- shouldLog_due. reflexivity.
  - apply last_None in Hlast. contradiction.
Qed.

(** [reset] leaves the epoch-0 baseline as the only entry of the
    history. *)
Lemma reset_baseline e :
  history (reset Math_log2 e) = [stats (reset Math_log2 e)]
  /\ epoch (stats (reset Math_log2 e)) = 0.
Proof. unfold reset. destruct (fill _ _ _). split; reflexivity. Qed.

End History.

(** C5: on every engine reached through the public operations (by
    calls that returned), an interaction completes an epoch exactly when
    it is not abandoned and brings the count of the running epoch to
    [epochSize]. When it does,
    the epoch number goes up by one and the new statistics snapshot is
    appended to the history if and only if the epoch is a census epoch
    ([epoch mod 50 = 0]) or entropy differs by more than 0.1, or zero
    density by more than 0.05, from the last entry of the history (the
    most recently appended snapshot, at first the baseline of [reset]).
    When it does not, statistics and history stay as they were. *)
Theorem history_policy log2 host fuel (e e' : BFFSimulation) :
  reachable log2 host e ->
  interact log2 fuel e = Some e' ->
  exists s cells l,
    pick fuel e = Some (s, cells)
    /\ last (history e) = Some l
    /\ if completes_epoch e cells
       then epoch (stats e') = epoch (stats e) + 1
            /\ history e' =
                 if snapshot_due (stats e') l then history e ++ [stats e'] else history e
       else stats e' = stats e /\ history e' = history e.
Proof.
  intros Hreach. pose proof (reachable_invariant log2 host e Hreach) as Hinv.
  assert (Hlast : exists l, last (history e) = Some l).
  { destruct (last (history e)) as [l|] eqn:H; [exists l; reflexivity|].
    apply last_None in H. destruct Hinv. contradiction. }
  destruct Hlast as [l Hl].
  unfold interact.
  destruct (pick fuel e) as [[s [[idxA idxB]|]]|]; cbn [mbind option_bind];
    [| |discriminate].
  - destruct (VM.execute (tapeSize (config e)) (instructionLimit (config e))
                (load_tape (data e) (tapeSize (config e)) idxA idxB)) as [c t'].
    set (e1 := account (set_rng e s) c).
    assert (Hinv1 : invariant e1) by (destruct Hinv; split; assumption).
    intros H. exists s, (Some (idxA, idxB)), l.
    split; [reflexivity|]. split; [exact Hl|].
    unfold completes_epoch.
    change (epochInteractions e + 1 >=? epochSize e)
      with (epochInteractions e1 >=? epochSize e1).
    destruct (epochInteractions e1 >=? epochSize e1).
    + destruct (completeEpoch log2 e1) as [e2|] eqn:He2; cbn [mbind option_bind] in H;
        [|discriminate].
      injection H as <-.
      destruct (completeEpoch_history log2 e1 e2 Hinv1 He2) as (l' & Hl' & Hep & Hh).
      change (history e1) with (history e) in Hl', Hh.
      assert (l' = l) as -> by congruence.
      split; [exact Hep|exact Hh].
    + cbn [mbind option_bind] in H. injection H as <-. split; reflexivity.
  - intros [= <-]. exists s, None, l.
    split; [reflexivity|]. split; [exact Hl|]. split; reflexivity.
Qed.

(** ** Interactions that return *)

Section Totality.

Variable Math_log2 : spec_float -> spec_float.

Lemma mutate_off rate d s :
  F64.leb rate F64.zero = true -> mutate rate d s = Some (d, s).
Proof. intros H. unfold mutate. rewrite H. reflexivity. Qed.

Lemma completeEpoch_total e :
  F64.leb (mutationRate (config e)) F64.zero = true ->
  is_Some (completeEpoch Math_log2 e).
Proof.
  intros H. unfold completeEpoch. rewrite mutate_off by assumption.
  cbn [mbind option_bind]. eexists. reflexivity.
Qed.

Lemma pick_spatial_total fuel e :
  topology (config e) = spatial -> is_Some (pick fuel e).
Proof.
  intros Ht. unfold pick. rewrite Ht.
  destruct (PRNG.next (rng e)) as [s1 r1]. destruct (PRNG.next s1) as [s2 r2].
  destruct (PRNG.next s2) as [s3 r3]. destruct (PRNG.next s3) as [s4 r4].
  destruct (_ && _); eexists; reflexivity.
Qed.

(** Under the spatial topology and without mutation, [interact] returns,
    whatever the fuel. *)
Lemma interact_spatial_total fuel e :
  topology (config e) = spatial ->
  F64.leb (mutationRate (config e)) F64.zero = true ->
  is_Some (interact Math_log2 fuel e).
Proof.
  intros Ht Hm. unfold interact.
  destruct (pick_spatial_total fuel e Ht) as [[s cells] ->].
  cbn [mbind option_bind].
  destruct cells as [[idxA idxB]|]; [|eexists; reflexivity].
  destruct (VM.execute (tapeSize (config e)) (instructionLimit (config e))
              (load_tape (data e) (tapeSize (config e)) idxA idxB)) as [c t'].
  set (e1 := account (set_rng e s) c).
  destruct (epochInteractions e1 >=? epochSize e1).
  - destruct (completeEpoch_total e1 Hm) as [e2 ->].
    cbn [mbind option_bind]. eexists. reflexivity.
  - cbn [mbind option_bind]. eexists. reflexivity.
Qed.

End Totality.

(** ** Determinism *)

Section Determinism.

Variable Math_log2 : spec_float -> spec_float.

(** The resampling loop returns the same cell whatever bound on its
    rounds let it return. *)
Lemma pick_global_fuel f1 : forall f2 s w h x y r1 r2,
  pick_global f1 s w h x y = Some r1 ->
  pick_global f2 s w h x y = Some r2 ->
  r1 = r2.
Proof.
  induction f1 as [|f1 IH]; intros f2 s w h x y r1 r2; [discriminate|].
  destruct f2 as [|f2]; [discriminate|].
  cbn [pick_global].
  destruct (PRNG.next s) as [s1 v1]. destruct (PRNG.next s1) as [s2 v2].
  destruct (_ && _).
  - apply IH.
  - congruence.
Qed.

Lemma pick_fuel f1 f2 e p1 p2 :
  pick f1 e = Some p1 -> pick f2 e = Some p2 -> p1 = p2.
Proof.
  unfold pick.
  destruct (PRNG.next (rng e)) as [s1 r1]. destruct (PRNG.next s1) as [s2 r2].
  destruct (topology (config e)); [congruence|].
  destruct (pick_global f1 _ _ _ _ _) as [[[sa nxa] nya]|] eqn:H1;
    cbn [mbind option_bind]; [|discriminate].
  destruct (pick_global f2 _ _ _ _ _) as [[[sb nxb] nyb]|] eqn:H2;
    cbn [mbind option_bind]; [|discriminate].
  pose proof (pick_global_fuel _ _ _ _ _ _ _ _ _ H1 H2) as Heq.
  injection Heq as -> -> ->. congruence.
Qed.

Lemma interact_fuel f1 f2 e r1 r2 :
  interact Math_log2 f1 e = Some r1 ->
  interact Math_log2 f2 e = Some r2 ->
  r1 = r2.
Proof.
  unfold interact.
  destruct (pick f1 e) as [p1|] eqn:H1; cbn [mbind option_bind]; [|discriminate].
  destruct (pick f2 e) as [p2|] eqn:H2; cbn [mbind option_bind]; [|discriminate].
  rewrite (pick_fuel _ _ _ _ _ H1 H2). congruence.
Qed.

Lemma step_loop_fuel n : forall f1 f2 e r1 r2,
  step_loop Math_log2 n f1 e = Some r1 ->
  step_loop Math_log2 n f2 e = Some r2 ->
  r1 = r2.
Proof.
  induction n as [|n IH]; intros f1 f2 e r1 r2; cbn [step_loop]; [congruence|].
  destruct (interact Math_log2 f1 e) as [a|] eqn:Ha; cbn [mbind option_bind];
    [|discriminate].
  destruct (interact Math_log2 f2 e) as [b|] eqn:Hb; cbn [mbind option_bind];
    [|discriminate].
  rewrite (interact_fuel _ _ _ _ _ Ha Hb). apply IH.
Qed.

(** [n + m] interactions are [n] interactions followed by [m]. *)
Lemma step_loop_add n m fuel : forall e,
  step_loop Math_log2 (n + m) fuel e
  = step_loop Math_log2 n fuel e ≫= step_loop Math_log2 m fuel.
Proof.
  induction n as [|n IH]; intros e; cbn [step_loop Nat.add]; [reflexivity|].
  destruct (interact Math_log2 fuel e) as [a|]; cbn [mbind option_bind]; [|reflexivity].
  apply IH.
Qed.

(** The choice of the cells depends on the timeline only. *)
Lemma pick_timeline f a b : timeline a = timeline b -> pick f a = pick f b.
Proof.
  intros [= Hc Hw Hh _ Hr _ _ _]. unfold pick. rewrite Hc, Hw, Hh, Hr. reflexivity.
Qed.

End Determinism.

Section Timeline.

Variable loga : spec_float -> spec_float.
Variable logb : spec_float -> spec_float.

(** The statistics passes of [completeEpoch] do not feed back into the
    grid, the generator or the counters. *)
Lemma completeEpoch_timeline a b a' b' :
  timeline a = timeline b ->
  completeEpoch loga a = Some a' -> completeEpoch logb b = Some b' ->
  timeline a' = timeline b'.
Proof.
  intros [= Hc Hw Hh Hd Hr Hi Hs He]. unfold completeEpoch.
  rewrite Hc, Hd, Hr.
  destruct (mutate _ _ _) as [[d s]|]; cbn [mbind option_bind]; [|discriminate].
  intros [= <-] [= <-]. unfold timeline.
  cbn [config width height data rng epochInteractions epochSize stats epoch].
  congruence.
Qed.

(** One interaction takes equal timelines to equal timelines, whatever
    [Math.log2] the two engines compute their statistics with and
    whatever bounds are put on the resampling loop. *)
Lemma interact_timeline fa fb a b a' b' :
  timeline a = timeline b ->
  interact loga fa a = Some a' -> interact logb fb b = Some b' ->
  timeline a' = timeline b'.
Proof.
  intros Ht. pose proof Ht as [= Hc Hw Hh Hd Hr Hi Hs He].
  unfold interact.
  destruct (pick fa a) as [pa|] eqn:Ha; cbn [mbind option_bind]; [|discriminate].
  destruct (pick fb b) as [pb|] eqn:Hb; cbn [mbind option_bind]; [|discriminate].
  rewrite <- (pick_timeline fb a b Ht) in Hb.
  pose proof (pick_fuel _ _ _ _ _ Ha Hb) as <-.
  destruct pa as [s [[idxA idxB]|]].
  - rewrite <- Hc, <- Hd.
    destruct (VM.execute (tapeSize (config a)) (instructionLimit (config a))
                (load_tape (data a) (tapeSize (config a)) idxA idxB)) as [c t'].
    set (a1 := account (set_rng a s) c). set (b1 := account (set_rng b s) c).
    assert (Ht1 : timeline a1 = timeline b1).
    { unfold timeline, a1, b1.
      cbn [account set_rng config width height data rng epochInteractions epochSize stats].
      congruence. }
    assert (Hcond : (epochInteractions b1 >=? epochSize b1)
                    = (epochInteractions a1 >=? epochSize a1)).
    { unfold a1, b1. cbn [account set_rng epochInteractions epochSize]. congruence. }
    rewrite Hcond.
    assert (Hstore : forall a2 b2, timeline a2 = timeline b2 ->
              timeline (set_data a2 (store_tape (data a2) t' (tapeSize (config a)) idxA idxB))
              = timeline (set_data b2 (store_tape (data b2) t' (tapeSize (config a)) idxA idxB))).
    { intros a2 b2 [= Hc2 Hw2 Hh2 Hd2 Hr2 Hi2 Hs2 He2]. unfold timeline.
      cbn [set_data config width height data rng epochInteractions epochSize stats].
      congruence. }
    destruct (epochInteractions a1 >=? epochSize a1).
    + destruct (completeEpoch loga a1) as [a2|] eqn:Ha2; cbn [mbind option_bind];
        [|discriminate].
      destruct (completeEpoch logb b1) as [b2|] eqn:Hb2; cbn [mbind option_bind];
        [|discriminate].
      intros [= <-] [= <-].
      exact (Hstore a2 b2 (completeEpoch_timeline a1 b1 a2 b2 Ht1 Ha2 Hb2)).
    + cbn [mbind option_bind]. intros [= <-] [= <-]. exact (Hstore a1 b1 Ht1).
  - intros [= <-] [= <-]. unfold timeline.
    cbn [set_rng config width height data rng epochInteractions epochSize stats].
    congruence.
Qed.

Lemma step_loop_timeline n : forall fa fb a b a' b',
  timeline a = timeline b ->
  step_loop loga n fa a = Some a' -> step_loop logb n fb b = Some b' ->
  timeline a' = timeline b'.
Proof.
  induction n as [|n IH]; intros fa fb a b a' b' Ht; cbn [step_loop].
  - intros [= <-] [= <-]. exact Ht.
  - destruct (interact loga fa a) as [a1|] eqn:Ha; cbn [mbind option_bind];
      [|discriminate].
    destruct (interact logb fb b) as [b1|] eqn:Hb; cbn [mbind option_bind];
      [|discriminate].
    apply IH. exact (interact_timeline fa fb a b a1 b1 Ht Ha Hb).
Qed.

(** Fresh engines for the same configuration start the same timeline. *)
Lemma new_timeline hosta hostb c ea eb :
  new loga hosta c = Some ea -> new logb hostb c = Some eb ->
  timeline ea = timeline eb.
Proof.
  intros Ha Hb. rewrite (new_eq loga hosta c ea Ha), (new_eq logb hostb c eb Hb).
  unfold timeline, reset.
  destruct (fill _ _ _). reflexivity.
Qed.

End Timeline.

(** C1: two engines constructed from the same configuration hold the
    same grid, the same generator state and the same epoch count after
    the same number of interactions, whether the interactions are asked
    for in one call of [step] or in two. Nothing else enters: not the
    host's [Math.log2] (which only the statistics use), not its allocator,
    not the bounds the model puts on the global resampling loop. So the
    grid after [step] is a function of the configuration and of the
    number of interactions; and when the two engines compute with the
    same [Math.log2], their statistics, their histories and all their
    other fields are equal too. *)
Theorem determinism loga logb hosta hostb (c : SimulationConfig) (n m : Z)
    (fa fb fc : nat) (e1 e2 r1 q1 q2 : BFFSimulation) :
  new loga hosta c = Some e1 ->
  new logb hostb c = Some e2 ->
  0 <= n -> 0 <= m ->
  step loga n fa e1 = Some r1 ->
  step loga m fb r1 = Some q1 ->
  step logb (n + m) fc e2 = Some q2 ->
  data q1 = data q2 /\ rng q1 = rng q2 /\ epoch (stats q1) = epoch (stats q2)
  /\ epochInteractions q1 = epochInteractions q2
  /\ (loga = logb -> stats q1 = stats q2 /\ history q1 = history q2 /\ q1 = q2).
Proof.
  intros He1 He2 Hn Hm Hr1 Hq1 Hq2.
  pose proof (new_timeline loga logb hosta hostb c e1 e2 He1 He2) as Ht.
  unfold step in *. rewrite Z2Nat.inj_add in Hq2 by assumption.
  rewrite step_loop_add in Hq2.
  destruct (step_loop logb (Z.to_nat n) fc e2) as [r2|] eqn:Hr2;
    cbn [mbind option_bind] in Hq2; [|discriminate].
  pose proof (step_loop_timeline loga logb _ _ _ _ _ _ _ Ht Hr1 Hr2) as Ht1.
  pose proof (step_loop_timeline loga logb _ _ _ _ _ _ _ Ht1 Hq1 Hq2) as Ht2.
  injection Ht2 as _ _ _ Hd Hr Hi _ Hep.
  split; [exact Hd|]. split; [exact Hr|]. split; [exact Hep|]. split; [exact Hi|].
  intros <-.
  assert (e1 = e2) as <-.
  { rewrite (new_eq loga hosta c e1 He1), (new_eq loga hostb c e2 He2). reflexivity. }
  assert (r1 = r2) as <- by exact (step_loop_fuel loga _ _ _ _ _ _ Hr1 Hr2).
  assert (q1 = q2) as <- by exact (step_loop_fuel loga _ _ _ _ _ _ Hq1 Hq2).
  repeat split.
Qed.

Section Configuration.

Variable Math_log2 : spec_float -> spec_float.

Lemma completeEpoch_config e e' :
  completeEpoch Math_log2 e = Some e' -> config e' = config e.
Proof.
  unfold completeEpoch.
  destruct (mutate _ _ _) as [[d s]|]; cbn [mbind option_bind]; [|discriminate].
  intros [= <-]. reflexivity.
Qed.

(** [interact] leaves the configuration alone. *)
Lemma interact_config fuel e e' :
  interact Math_log2 fuel e = Some e' -> config e' = config e.
Proof.
  unfold interact.
  destruct (pick fuel e) as [[s [[idxA idxB]|]]|]; cbn [mbind option_bind];
    [| |discriminate].
  - destruct (VM.execute (tapeSize (config e)) (instructionLimit (config e))
                (load_tape (data e) (tapeSize (config e)) idxA idxB)) as [c t'].
    set (e1 := account (set_rng e s) c).
    destruct (epochInteractions e1 >=? epochSize e1).
    + destruct (completeEpoch Math_log2 e1) as [e2|] eqn:He2; cbn [mbind option_bind];
        [|discriminate].
      intros [= <-]. apply completeEpoch_config in He2. exact He2.
    + cbn [mbind option_bind]. intros [= <-]. reflexivity.
  - intros [= <-]. reflexivity.
Qed.

(** Under the spatial topology and without mutation, [step] returns. *)
Lemma step_spatial_total n fuel : forall e,
  topology (config e) = spatial ->
  F64.leb (mutationRate (config e)) F64.zero = true ->
  is_Some (step_loop Math_log2 n fuel e).
Proof.
  induction n as [|n IH]; intros e Ht Hm; cbn [step_loop]; [eexists; reflexivity|].
  destruct (interact_spatial_total Math_log2 fuel e Ht Hm) as [e' He'].
  rewrite He'. cbn [mbind option_bind].
  apply interact_config in He'. apply IH; rewrite He'; assumption.
Qed.

Lemma step_loop_config n fuel : forall e e',
  step_loop Math_log2 n fuel e = Some e' -> config e' = config e.
Proof.
  induction n as [|n IH]; intros e e'; cbn [step_loop]; [intros [= <-]; reflexivity|].
  destruct (interact Math_log2 fuel e) as [a|] eqn:Ha; cbn [mbind option_bind];
    [|discriminate].
  intros H. rewrite (IH a e' H). exact (interact_config fuel e a Ha).
Qed.

End Configuration.

(** C1 at work on the 4 x 4 grid: seven interactions then thirteen with
    a [Math.log2] that is constantly zero, against twenty at once with
    one that is the identity, on a host with another allocator. The
    grids, the generators and the epoch counts agree; the entropies in
    the statistics do not. *)
Lemma determinism_witness :
  valid_config cfg0 = true
  /\ exists e1 e2 r1 q1 q2,
       new log2_zero ample_host cfg0 = Some e1
       /\ new log2_id small_host cfg0 = Some e2
       /\ step log2_zero 7 0 e1 = Some r1
       /\ step log2_zero 13 1 r1 = Some q1
       /\ step log2_id (7 + 13) 2 e2 = Some q2
       /\ data q1 = data q2 /\ rng q1 = rng q2
       /\ epoch (stats q1) = epoch (stats q2)
       /\ epochInteractions q1 = epochInteractions q2
       /\ epoch (stats q1) = 1
       /\ entropy (stats q1) <> entropy (stats q2).
Proof.
  split; [vm_compute; reflexivity|].
  destruct (new_returns log2_zero ample_host cfg0) as [e1 He1];
    [vm_compute; intuition discriminate|].
  destruct (new_returns log2_id small_host cfg0) as [e2 He2];
    [vm_compute; intuition discriminate|].
  pose proof (new_fields log2_zero ample_host cfg0 e1 He1) as (Hc1 & _).
  pose proof (new_fields log2_id small_host cfg0 e2 He2) as (Hc2 & _).
  assert (Htotal : forall log2 k f e0, config e0 = cfg0 -> is_Some (step log2 k f e0)).
  { intros log2 k f e0 H0. apply step_spatial_total; rewrite H0; reflexivity. }
  destruct (Htotal log2_zero 7 0%nat e1 Hc1) as [r1 Hr1].
  assert (Hcr : config r1 = cfg0).
  { rewrite (step_loop_config log2_zero _ _ _ _ Hr1). exact Hc1. }
  destruct (Htotal log2_zero 13 1%nat r1 Hcr) as [q1 Hq1].
  destruct (Htotal log2_id (7 + 13) 2%nat e2 Hc2) as [q2 Hq2].
  exists e1, e2, r1, q1, q2.
  split; [exact He1|]. split; [exact He2|]. split; [exact Hr1|].
  split; [exact Hq1|]. split; [exact Hq2|].
  destruct (determinism log2_zero log2_id ample_host small_host cfg0 7 13 0 1 2
              e1 e2 r1 q1 q2 He1 He2 ltac:(lia) ltac:(lia) Hr1 Hq1 Hq2)
    as (Hd & Hr & Hep & Hi & _).
  split; [exact Hd|]. split; [exact Hr|]. split; [exact Hep|]. split; [exact Hi|].
  vm_compute in He1. injection He1 as <-.
  vm_compute in He2. injection He2 as <-.
  vm_compute in Hr1. injection Hr1 as <-.
  vm_compute in Hq1. injection Hq1 as <-.
  vm_compute in Hq2. injection Hq2 as <-.
  split; [reflexivity|]. vm_compute. discriminate.
Defined.

(** ** Strided sampling *)

Section Strides.

Lemma stride_from_nil i bound step :
  0 < step -> bound <= i -> stride_from i bound step = [].
Proof.
  intros Hs Hi. unfold stride_from.
  assert ((bound - i + step - 1) / step <= 0) as H.
  { assert ((bound - i + step - 1) / step < 1); [|lia].
    apply Z.div_lt_upper_bound; lia. }
  rewrite (Z2Nat.nonpos _ H). reflexivity.
Qed.

Lemma stride_from_cons i bound step :
  0 < step -> i < bound ->
  stride_from i bound step = i :: stride_from (i + step) bound step.
Proof.
  intros Hs Hi. unfold stride_from.
  replace (bound - i + step - 1) with (bound - (i + step) + step - 1 + 1 * step) by lia.
  rewrite Z.div_add by lia.
  assert (0 <= (bound - (i + step) + step - 1) / step)
    by (apply Z.div_pos; lia).
  rewrite Z2Nat.inj_add by lia. rewrite Nat.add_comm.
  change (Z.to_nat 1) with 1%nat. cbn [Nat.add seq map].
  f_equal; [lia|].
  rewrite <- seq_shift, map_map.
  apply map_ext. intros j. lia.
Qed.

(** The tally loop visits the strided indices and counts them. *)
Lemma tally_loop_fold d step fuel : forall i counts samples,
  0 < step ->
  Z.of_nat (length d) - i <= Z.of_nat fuel ->
  tally_loop fuel d step i counts samples
  = (fold_left (fun cs j => bump cs (TypedArray.get d j))
               (stride_from i (Z.of_nat (length d)) step) counts,
     samples + Z.of_nat (length (stride_from i (Z.of_nat (length d)) step))).
Proof.
  induction fuel as [|fuel IH]; intros i counts samples Hs Hfuel.
  - rewrite stride_from_nil by lia. cbn. f_equal. lia.
  - cbn [tally_loop]. destruct (Z.ltb_spec i (Z.of_nat (length d))).
    + rewrite stride_from_cons by lia. rewrite IH by lia.
      cbn [fold_left length]. f_equal. lia.
    + rewrite stride_from_nil by lia. cbn. f_equal. lia.
Qed.

(** The census loop visits the strided cells and counts them. *)
Lemma census_loop_fold d tapeSize totalCells step fuel : forall i m n,
  0 < step ->
  totalCells - i <= Z.of_nat fuel ->
  census_loop fuel d tapeSize totalCells step i m n
  = (fold_left (fun m j => species_bump (Js.slice d (j * tapeSize) (j * tapeSize + tapeSize)) m)
               (stride_from i totalCells step) m,
     n + Z.of_nat (length (stride_from i totalCells step))).
Proof.
  induction fuel as [|fuel IH]; intros i m n Hs Hfuel.
  - rewrite stride_from_nil by lia. cbn. f_equal. lia.
  - cbn [census_loop]. destruct (Z.ltb_spec i totalCells).
    + rewrite stride_from_cons by lia. rewrite IH by lia.
      cbn [fold_left length]. f_equal. lia.
    + rewrite stride_from_nil by lia. cbn. f_equal. lia.
Qed.

Lemma sample_step_11 : sample_step = 11.
Proof. vm_compute. reflexivity. Qed.

End Strides.

(** ** The metrics pass *)

Section Metrics.

Lemma stride_from_range i bound step j :
  0 < step -> 0 <= i -> In j (stride_from i bound step) -> 0 <= j < bound.
Proof.
  intros Hs Hi Hj. unfold stride_from in Hj.
  apply in_map_iff in Hj as (k & <- & Hk). apply in_seq in Hk.
  set (q := (bound - i + step - 1) / step) in *.
  assert (0 < q) by lia.
  assert (step * q <= bound - i + step - 1) by (apply Z.mul_div_le; lia).
  assert (Z.of_nat k <= q - 1) by lia.
  assert (Z.of_nat k * step <= (q - 1) * step)
    by (apply Z.mul_le_mono_nonneg_r; lia).
  split; [|lia].
  assert (0 <= Z.of_nat k * step) by (apply Z.mul_nonneg_nonneg; lia). lia.
Qed.

(** The sampled indices are the multiples of the stride below the bound. *)
Lemma stride_indices_spec bound step i :
  0 < step ->
  In i (stride_indices bound step) <-> 0 <= i < bound /\ (step | i).
Proof.
  intros Hs. split.
  - intros Hi. split; [apply (stride_from_range 0 bound step); (assumption || lia)|].
    unfold stride_indices, stride_from in Hi.
    apply in_map_iff in Hi as (k & <- & _). exists (Z.of_nat k). lia.
  - intros [Hi [k ->]]. unfold stride_indices, stride_from.
    apply in_map_iff. exists (Z.to_nat k).
    assert (0 <= k) by nia.
    split; [lia|]. apply in_seq.
    assert (k + 1 <= (bound - 0 + step - 1) / step)
      by (apply Z.div_le_lower_bound; lia).
    lia.
Qed.

Lemma bump_lookup cs b (k : nat) :
  bump cs (Some b) !! k
  = if bool_decide (b = Z.of_nat k) then (fun x => x + 1) <$> cs !! k else cs !! k.
Proof.
  unfold bump, TypedArray.set, TypedArray.get, TypedArray.elem.
  destruct (Z.ltb_spec b 0).
  - rewrite bool_decide_eq_false_2 by lia. reflexivity.
  - case_bool_decide as Hb.
    + subst b. rewrite Nat2Z.id.
      destruct (cs !! k) as [x|] eqn:Hk.
      * rewrite list_lookup_insert_eq by (apply lookup_lt_Some in Hk; exact Hk).
        reflexivity.
      * rewrite list_insert_ge by (apply lookup_ge_None; exact Hk).
        rewrite Hk. reflexivity.
    + rewrite list_lookup_insert_ne by lia. reflexivity.
Qed.

Lemma bump_length cs b : length (bump cs b) = length cs.
Proof. destruct b; [apply set_length|reflexivity]. Qed.

Lemma tally_lookup bs : forall cs (k : nat),
  fold_left (fun cs b => bump cs (Some b)) bs cs !! k
  = (fun x => x + Z.of_nat (count_occ Z.eq_dec bs (Z.of_nat k))) <$> cs !! k.
Proof.
  induction bs as [|b bs IH]; intros cs k; cbn [fold_left count_occ].
  - destruct (cs !! k); cbn; [f_equal; lia|reflexivity].
  - rewrite IH, bump_lookup.
    destruct (Z.eq_dec b (Z.of_nat k)) as [->|Hne].
    + rewrite bool_decide_eq_true_2 by reflexivity.
      destruct (cs !! k); cbn; [f_equal; lia|reflexivity].
    + rewrite bool_decide_eq_false_2 by assumption. reflexivity.
Qed.

Lemma tally_length bs : forall cs,
  length (fold_left (fun cs b => bump cs (Some b)) bs cs) = length cs.
Proof.
  induction bs as [|b bs IH]; intros cs; cbn [fold_left]; [reflexivity|].
  rewrite IH. apply bump_length.
Qed.

(** Tallying bytes into 256 empty buckets gives their histogram. *)
Lemma tally_histogram bs :
  fold_left (fun cs b => bump cs (Some b)) bs (replicate 256 0) = histogram bs.
Proof.
  apply list_eq. intros k. rewrite tally_lookup.
  unfold histogram. change (map ?f ?l) with (f <$> l). rewrite list_lookup_fmap.
  destruct (Nat.lt_ge_cases k 256) as [Hk|Hk].
  - rewrite lookup_replicate_2 by assumption.
    rewrite lookup_seq_lt by assumption. reflexivity.
  - rewrite (proj1 (lookup_replicate_None 256 0 k)) by lia.
    rewrite lookup_seq_ge by assumption. reflexivity.
Qed.

(** Reading the buffer inside its bounds and tallying what was read. *)
Lemma tally_indices d idxs : forall cs,
  (forall j, In j idxs -> 0 <= j < Z.of_nat (length d)) ->
  fold_left (fun cs j => bump cs (TypedArray.get d j)) idxs cs
  = fold_left (fun cs b => bump cs (Some b))
              (map (fun j => TypedArray.elem (TypedArray.get d j)) idxs) cs.
Proof.
  induction idxs as [|j idxs IH]; intros cs Hr; cbn [fold_left map]; [reflexivity|].
  rewrite IH by (intros; apply Hr; right; assumption).
  f_equal. f_equal.
  specialize (Hr j (or_introl eq_refl)).
  unfold TypedArray.get. destruct (Z.ltb_spec j 0); [lia|].
  destruct (d !! Z.to_nat j) eqn:Hj; [reflexivity|].
  apply lookup_ge_None in Hj. lia.
Qed.

(** The entropy loop computes the Shannon entropy of its buckets. *)
Lemma entropy_of_shannon log2 counts samples :
  entropy_of log2 counts (F64.of_Z samples) = shannon_entropy log2 counts samples.
Proof.
  unfold entropy_of, shannon_entropy. generalize F64.zero.
  induction counts as [|c counts IH]; intros acc; [reflexivity|].
  rewrite filter_cons. cbn [fold_left]. rewrite Z.gtb_ltb.
  destruct (Z.ltb_spec 0 c).
  - rewrite decide_True by assumption. cbn [map fold_left]. apply IH.
  - rewrite decide_False by lia. apply IH.
Qed.

End Metrics.

(** C7: [calculateGridMetrics] uses the stride 11 (the step 10 made odd),
    tallies exactly the grid bytes at the indices [0, 11, 22, …] below the
    length of the buffer, and returns as zero density the number of
    sampled bytes equal to 0 divided by the number of sampled bytes, and
    as entropy the base-2 Shannon entropy [shannon_entropy] of the
    256-bucket histogram of the sampled bytes: [−Σ p·log2 p] over the
    non-empty buckets, [p] being the bucket's count divided by the number
    of samples (binary64 arithmetic, the host's [Math.log2], buckets in
    increasing order). *)
Theorem grid_metrics_spec log2 (d : list Z) :
  sample_step = 11
  /\ (forall i, In i (stride_indices (Z.of_nat (length d)) 11)
                <-> 0 <= i < Z.of_nat (length d) /\ (11 | i))
  /\ calculateGridMetrics log2 d
     = (shannon_entropy log2 (histogram (sampled_bytes d))
                        (Z.of_nat (length (sampled_bytes d))),
        F64.div (F64.of_Z (Z.of_nat (count_occ Z.eq_dec (sampled_bytes d) 0)))
                (F64.of_Z (Z.of_nat (length (sampled_bytes d))))).
Proof.
  split; [exact sample_step_11|].
  split; [intros i; apply stride_indices_spec; lia|].
  unfold calculateGridMetrics. rewrite sample_step_11.
  rewrite tally_loop_fold by lia.
  rewrite tally_indices by (intros j Hj; apply (stride_from_range 0 _ 11); (assumption || lia)).
  fold (stride_indices (Z.of_nat (length d)) 11). fold (sampled_bytes d).
  rewrite tally_histogram.
  assert (Hlen : length (stride_indices (Z.of_nat (length d)) 11) = length (sampled_bytes d))
    by (unfold sampled_bytes; rewrite length_map; reflexivity).
  rewrite Hlen, Z.add_0_l, entropy_of_shannon.
  reflexivity.
Qed.

(** ** The census *)

Section Census.

Variable Math_log2 : spec_float -> spec_float.

Lemma species_bump_held key k m :
  held k (species_bump key m) = held k m + (if bool_decide (key = k) then 1 else 0).
Proof.
  induction m as [|[k' n] m IH]; cbn [species_bump held].
  - destruct (decide (key = k)) as [Hkk|Hkk].
    + rewrite !bool_decide_eq_true_2 by assumption. reflexivity.
    + rewrite !bool_decide_eq_false_2 by assumption. reflexivity.
  - destruct (decide (k' = key)) as [->|Hne].
    + rewrite (bool_decide_eq_true_2 (key = key)) by reflexivity. cbn [held].
      destruct (decide (key = k)) as [Hkk|Hkk].
      * rewrite !bool_decide_eq_true_2 by assumption. reflexivity.
      * rewrite !bool_decide_eq_false_2 by assumption. lia.
    + rewrite (bool_decide_eq_false_2 (k' = key)) by assumption. cbn [held].
      destruct (decide (k' = k)) as [Hk|Hk].
      * rewrite (bool_decide_eq_true_2 (k' = k)) by assumption.
        rewrite (bool_decide_eq_false_2 (key = k)) by congruence. lia.
      * rewrite (bool_decide_eq_false_2 (k' = k)) by assumption. exact IH.
Qed.

Lemma species_bump_fst key m k :
  k ∈ (species_bump key m).*1 <-> k = key \/ k ∈ m.*1.
Proof.
  induction m as [|[k' n] m IH]; cbn [species_bump].
  - cbn. rewrite list_elem_of_singleton, elem_of_nil. tauto.
  - case_bool_decide as Hk; cbn [fmap list_fmap fst]; rewrite !elem_of_cons.
    + subst k'. tauto.
    + fold (fst <$> species_bump key m). fold (fst <$> m). rewrite IH. tauto.
Qed.

Lemma species_bump_keys key m :
  NoDup m.*1 -> NoDup (species_bump key m).*1.
Proof.
  induction m as [|[k' n] m IH]; cbn [species_bump].
  - intros _. cbn. apply NoDup_singleton.
  - cbn [fmap list_fmap fst]. fold (fst <$> m). rewrite NoDup_cons. intros [Hk' Hnd].
    case_bool_decide as Hk; cbn [fmap list_fmap fst].
    + fold (fst <$> m). apply NoDup_cons. split; assumption.
    + fold (fst <$> species_bump key m). apply NoDup_cons. split; [|apply IH; assumption].
      rewrite species_bump_fst. intros [->|Hin]; [apply Hk; reflexivity|contradiction].
Qed.

(** With distinct keys, an entry's count is the count held for its key. *)
Lemma held_entry m entry :
  NoDup m.*1 -> entry ∈ m -> entry.2 = held entry.1 m.
Proof.
  induction m as [|[k n] m IH]; [intros _ H; apply elem_of_nil in H; contradiction|].
  cbn [fmap list_fmap fst]. fold (fst <$> m). rewrite NoDup_cons, elem_of_cons.
  intros [Hk Hnd] [->|Hin]; cbn [held fst snd].
  - rewrite bool_decide_eq_true_2 by reflexivity. reflexivity.
  - rewrite bool_decide_eq_false_2; [apply IH; assumption|].
    intros ->. apply Hk. apply list_elem_of_fmap. exists entry. split; [reflexivity|assumption].
Qed.

(** Bumping once per genome counts the genomes. *)
Lemma census_fold gs : forall m k,
  NoDup m.*1 ->
  let m' := fold_left (fun m g => species_bump g m) gs m in
  NoDup m'.*1
  /\ held k m' = held k m + Z.of_nat (count_occ genome_eq_dec gs k).
Proof.
  induction gs as [|g gs IH]; intros m k Hnd; cbn [fold_left count_occ].
  - split; [assumption|lia].
  - destruct (IH (species_bump g m) k (species_bump_keys g m Hnd)) as [Hnd' Hheld].
    split; [exact Hnd'|].
    cbn zeta in Hheld. rewrite Hheld, species_bump_held.
    destruct (genome_eq_dec g k) as [->|Hne].
    + rewrite bool_decide_eq_true_2 by reflexivity. lia.
    + rewrite bool_decide_eq_false_2 by assumption. lia.
Qed.

Lemma sort_insert_elem x y l : x ∈ sort_insert y l <-> x = y \/ x ∈ l.
Proof.
  induction l as [|z l IH]; cbn [sort_insert].
  - rewrite list_elem_of_singleton, elem_of_nil. tauto.
  - destruct (_ <=? 0); rewrite !elem_of_cons; [tauto|]. rewrite IH. tauto.
Qed.

Lemma sort_species_elem x l : x ∈ sort_species l <-> x ∈ l.
Proof.
  unfold sort_species. induction l as [|y l IH]; cbn [foldr]; [reflexivity|].
  rewrite sort_insert_elem, elem_of_cons, IH. reflexivity.
Qed.

(** The ranked records, without their entropy: dominance and count. *)
Lemma ranked_figures total n (l : list (list Z * Z)) :
  map (fun r => (dominance r, species_count r))
      (imap (species_record Math_log2 total n) l)
  = map (fun entry =>
           let dom := F64.div (F64.of_Z entry.2) (F64.of_Z n) in
           (dom, F64.floor (F64.mul dom (F64.of_Z total)))) l.
Proof.
  assert (Hgen : forall (l : list (list Z * Z)) (f g : nat -> list Z * Z -> SpeciesData),
            (forall i x, dominance (f i x) = dominance (g i x)
                         /\ species_count (f i x) = species_count (g i x)) ->
            map (fun r => (dominance r, species_count r)) (imap f l)
            = map (fun r => (dominance r, species_count r)) (imap g l)).
  { clear. induction l as [|x l IH]; intros f g Hfg; cbn [imap map]; [reflexivity|].
    destruct (Hfg O x) as [-> ->]. f_equal.
    apply IH. intros i y. apply Hfg. }
  rewrite (Hgen l _ (fun _ => species_record Math_log2 total n O))
    by (intros; split; reflexivity).
  clear Hgen. induction l as [|x l IH]; cbn [imap map]; [reflexivity|].
  f_equal. exact IH.
Qed.

End Census.

(** The first census of the 23 x 1 grid: the three sampled cells hold
    three distinct genomes. *)
Lemma first_census_23 log2 e :
  new log2 ample_host cfg23 = Some e ->
  map (fun r => (dominance r, species_count r)) (topSpecies (census (stats e)))
  = [(F64.div (F64.of_Z 1) (F64.of_Z 3), F64.of_Z 7);
     (F64.div (F64.of_Z 1) (F64.of_Z 3), F64.of_Z 7);
     (F64.div (F64.of_Z 1) (F64.of_Z 3), F64.of_Z 7)].
Proof.
  intros He.
  rewrite (new_census log2 ample_host cfg23 e He).
  destruct (new_fields log2 ample_host cfg23 e He) as (_ & _ & _ & _ & Hd & _).
  replace (data e) with (data e, rng e).1 by reflexivity. rewrite Hd.
  unfold performCensus. cbn [topSpecies].
  destruct (census_loop _ _ _ _ _ _ _ _) as [m n] eqn:Hloop.
  cbn [topSpecies]. rewrite ranked_figures.
  vm_compute in Hloop. injection Hloop as <- <-.
  vm_compute. reflexivity.
Qed.

(** C6, as stated, fails: the projected count is the floor, not the
    rounding, of [dominance · W · H]. On the fresh 23 x 1 grid the census
    samples three distinct cells; each species has dominance [1/3] and
    count [floor(7.66…) = 7], where rounding gives 8. *)
Lemma census_count_is_not_rounded :
  valid_config cfg23 = true
  /\ forall log2, exists e,
       new log2 ample_host cfg23 = Some e
       /\ map (fun r => (dominance r, species_count r)) (topSpecies (census (stats e)))
          = [(F64.div (F64.of_Z 1) (F64.of_Z 3), F64.of_Z 7);
             (F64.div (F64.of_Z 1) (F64.of_Z 3), F64.of_Z 7);
             (F64.div (F64.of_Z 1) (F64.of_Z 3), F64.of_Z 7)]
       /\ F64.round (F64.mul (F64.div (F64.of_Z 1) (F64.of_Z 3))
                             (F64.of_Z (gridWidth cfg23 * gridHeight cfg23)))
          = F64.of_Z 8
       /\ F64.of_Z 7 <> F64.of_Z 8.
Proof.
  split; [vm_compute; reflexivity|].
  intros log2.
  destruct (new_returns log2 ample_host cfg23) as [e He]; [vm_compute; intuition discriminate|].
  exists e. split; [exact He|].
  split; [exact (first_census_23 log2 e He)|].
  vm_compute. split; [reflexivity|discriminate].
Qed.

(** C6, amended: in every census, each ranked species record has
    [dominance = sampled_count / sample_size], where the sample is the
    cells [0, 11, 22, …] and [sampled_count] is the number of sampled
    cells that hold the record's genome, and
    [count = floor(dominance · W · H)]. *)
Theorem census_count_is_floor log2 (w h tapeSize : Z) (d : list Z) (r : SpeciesData) :
  In r (topSpecies (performCensus log2 w h tapeSize d)) ->
  dominance r
  = F64.div
      (F64.of_Z (Z.of_nat (count_occ genome_eq_dec (sampled_genomes w h tapeSize d) (code r))))
      (F64.of_Z (Z.of_nat (length (sampled_genomes w h tapeSize d))))
  /\ species_count r = F64.floor (F64.mul (dominance r) (F64.of_Z (w * h))).
Proof.
  unfold performCensus. rewrite sample_step_11.
  rewrite census_loop_fold by lia. cbn [topSpecies].
  set (idxs := stride_from 0 (w * h) 11).
  set (gs := sampled_genomes w h tapeSize d).
  assert (Hfold :
    fold_left (fun m j => species_bump (Js.slice d (j * tapeSize) (j * tapeSize + tapeSize)) m)
              idxs []
    = fold_left (fun m g => species_bump g m) gs []).
  { unfold gs, sampled_genomes, stride_indices. fold idxs.
    generalize (@nil (list Z * Z)). induction idxs as [|j idxs IH]; intros m;
      cbn [fold_left map]; [reflexivity|]. apply IH. }
  rewrite Hfold.
  assert (Hlen : length idxs = length gs)
    by (unfold gs, sampled_genomes, stride_indices; rewrite length_map; reflexivity).
  rewrite Hlen, Z.add_0_l.
  set (m := fold_left (fun m g => species_bump g m) gs []).
  intros Hr. apply list_elem_of_In, elem_of_lookup_imap in Hr as (i & entry & -> & Hi).
  apply list_elem_of_lookup_2, subseteq_take in Hi.
  apply (proj1 (sort_species_elem entry m)) in Hi.
  cbn [dominance species_count code species_record].
  split; [|reflexivity].
  destruct (census_fold gs [] entry.1 (NoDup_nil_2)) as [Hnd Hheld].
  fold m in Hnd, Hheld.
  rewrite (held_entry m entry Hnd Hi), Hheld. cbn [held]. rewrite Z.add_0_l.
  reflexivity.
Qed.

(** The amended C6 at work: the first ranked species of the fresh
    23 x 1 grid. *)
Lemma census_count_is_floor_witness :
  valid_config cfg23 = true
  /\ forall log2, exists e r,
       new log2 ample_host cfg23 = Some e
       /\ head (topSpecies (census (stats e))) = Some r
       /\ species_count r = F64.of_Z 7
       /\ dominance r
          = F64.div
              (F64.of_Z (Z.of_nat (count_occ genome_eq_dec
                                     (sampled_genomes 23 1 1 (data e)) (code r))))
              (F64.of_Z (Z.of_nat (length (sampled_genomes 23 1 1 (data e)))))
       /\ species_count r = F64.floor (F64.mul (dominance r) (F64.of_Z (23 * 1))).
Proof.
  split; [vm_compute; reflexivity|].
  intros log2.
  destruct (new_returns log2 ample_host cfg23) as [e He]; [vm_compute; intuition discriminate|].
  pose proof (first_census_23 log2 e He) as Hc.
  pose proof (new_census log2 ample_host cfg23 e He) as Hn.
  destruct (topSpecies (census (stats e))) as [|r l] eqn:Htop; [discriminate|].
  exists e, r.
  split; [exact He|]. split; [rewrite Htop; reflexivity|].
  split; [cbn [map] in Hc; congruence|].
  apply (census_count_is_floor log2 23 1 1 (data e) r).
  change (performCensus log2 23 1 1 (data e))
    with (performCensus log2 (gridWidth cfg23) (gridHeight cfg23) (tapeSize cfg23) (data e)).
  rewrite <- Hn, Htop. left. reflexivity.
Defined.

(** ** The global topology on a single cell *)

Section SingleCell.

Variable Math_log2 : spec_float -> spec_float.

(** With one cell, every resampled pair is the cell itself. *)
Lemma pick_global_solo fuel : forall s, pick_global fuel s 1 1 0 0 = None.
Proof.
  induction fuel as [|fuel IH]; intros s; cbn [pick_global]; [reflexivity|].
  pose proof (F64Facts.scale_next s 1 ltac:(lia)) as H1.
  destruct (PRNG.next s) as [s1 r1]. cbn [snd] in H1.
  pose proof (F64Facts.scale_next s1 1 ltac:(lia)) as H2.
  destruct (PRNG.next s1) as [s2 r2]. cbn [snd] in H2.
  replace (PRNG.scale r1 1) with 0 by lia. replace (PRNG.scale r2 1) with 0 by lia.
  cbn [Z.eqb andb]. apply IH.
Qed.

Lemma pick_solo fuel e :
  width e = 1 -> height e = 1 -> topology (config e) = global -> pick fuel e = None.
Proof.
  intros Hw Hh Ht. unfold pick. rewrite Hw, Hh, Ht.
  pose proof (F64Facts.scale_next (rng e) 1 ltac:(lia)) as H1.
  destruct (PRNG.next (rng e)) as [s1 r1]. cbn [snd] in H1.
  pose proof (F64Facts.scale_next s1 1 ltac:(lia)) as H2.
  destruct (PRNG.next s1) as [s2 r2]. cbn [snd] in H2.
  replace (PRNG.scale r1 1) with 0 by lia. replace (PRNG.scale r2 1) with 0 by lia.
  rewrite pick_global_solo. reflexivity.
Qed.

(** No bound on the rounds of the resampling loop lets [interact]
    return. *)
Lemma interact_solo fuel e :
  width e = 1 -> height e = 1 -> topology (config e) = global ->
  interact Math_log2 fuel e = None.
Proof.
  intros Hw Hh Ht. unfold interact. rewrite pick_solo by assumption. reflexivity.
Qed.

End SingleCell.

(** C9 fails on the code: on a valid 1 x 1 grid under the global
    topology the resampling loop of [interact] can never leave, since the
    only cell it can draw is cell A. For every bound on the rounds of the
    loop, [interact] does not return, and neither does [step(n)] for
    [n >= 1]. *)
Theorem single_cell_global_never_returns :
  valid_config cfg_solo = true
  /\ (forall log2, is_Some (new log2 ample_host cfg_solo))
  /\ forall log2 host e,
       new log2 host cfg_solo = Some e ->
       forall fuel,
         interact log2 fuel e = None
         /\ forall n, 0 < n -> step log2 n fuel e = None.
Proof.
  split; [vm_compute; reflexivity|].
  split.
  { intros log2.
    destruct (new_returns log2 ample_host cfg_solo) as [e He];
      [vm_compute; intuition discriminate|].
    exists e. exact He. }
  intros log2 host e He fuel.
  destruct (new_fields log2 host cfg_solo e He) as (Hc & Hw & Hh & _).
  assert (Hi : interact log2 fuel e = None)
    by (apply interact_solo; [exact Hw|exact Hh|rewrite Hc; reflexivity]).
  split; [exact Hi|].
  intros n Hn. unfold step.
  destruct (Z.to_nat n) as [|k] eqn:Hk; [lia|].
  cbn [step_loop]. rewrite Hi. reflexivity.
Qed.

(** ** The write-back of an interaction *)

Section WriteBack.

Variable Math_log2 : spec_float -> spec_float.

Lemma cycle_length resolve tapeSize mask m m' :
  VM.cycle resolve tapeSize mask m = inl m' \/ VM.cycle resolve tapeSize mask m = inr m' ->
  length (VM.tape m') = length (VM.tape m).
Proof.
  unfold VM.cycle.
  destruct (VM.decode _); try destruct (VM.cell_is_zero _ _); try destruct (resolve _ _ _);
    intros [[= <-]|[= <-]]; cbn [VM.tape VM.advance]; rewrite ?set_length; reflexivity.
Qed.

Lemma run_length resolve tapeSize mask fuel : forall m,
  length (VM.tape (VM.run resolve tapeSize mask fuel m)) = length (VM.tape m).
Proof.
  induction fuel as [|fuel IH]; intros m; cbn [VM.run]; [reflexivity|].
  destruct (VM.cycle resolve tapeSize mask m) as [m'|m'] eqn:Hc.
  - rewrite IH. apply (cycle_length resolve tapeSize mask). left. exact Hc.
  - apply (cycle_length resolve tapeSize mask). right. exact Hc.
Qed.

(** [execute] returns a tape as long as the one it was given. *)
Lemma execute_length tapeSize limit t :
  length (VM.execute tapeSize limit t).2 = length t.
Proof. unfold VM.execute. cbn [snd]. apply run_length. Qed.

Lemma load_tape_length d tapeSize idxA idxB :
  length (load_tape d tapeSize idxA idxB) = (Z.to_nat tapeSize + Z.to_nat tapeSize)%nat.
Proof. unfold load_tape. rewrite length_app, !length_map, !length_seq. reflexivity. Qed.

Lemma store_tape_loop d t tapeSize A B :
  0 <= A -> 0 <= B -> 0 <= tapeSize ->
  store_tape d t tapeSize (Some A) (Some B)
  = store_loop t (Z.to_nat tapeSize) (Z.to_nat A) (Z.to_nat B) (Z.to_nat tapeSize) d.
Proof.
  intros HA HB HT. unfold store_tape, store_loop.
  assert (Hstep : forall (i : nat) (d0 : list Z),
    TypedArray.set
      (TypedArray.set d0 (index_at (Some A) (Z.of_nat i))
         (TypedArray.elem (TypedArray.get t (Z.of_nat i))))
      (index_at (Some B) (Z.of_nat i))
      (TypedArray.elem (TypedArray.get t (tapeSize + Z.of_nat i)))
    = <[(Z.to_nat B + i)%nat := default 0 (t !! (Z.to_nat tapeSize + i)%nat)]>
        (<[(Z.to_nat A + i)%nat := default 0 (t !! i)]> d0)).
  { intros i d0. unfold TypedArray.set, TypedArray.get, TypedArray.elem, index_at.
    destruct (Z.ltb_spec (A + Z.of_nat i) 0); [lia|].
    destruct (Z.ltb_spec (B + Z.of_nat i) 0); [lia|].
    destruct (Z.ltb_spec (Z.of_nat i) 0); [lia|].
    destruct (Z.ltb_spec (tapeSize + Z.of_nat i) 0); [lia|].
    rewrite !Z2Nat.inj_add, !Nat2Z.id by lia. reflexivity. }
  generalize (seq 0 (Z.to_nat tapeSize)). intros l. revert d.
  induction l as [|i l IH]; intros d; cbn [fold_left]; [reflexivity|].
  rewrite Hstep. apply IH.
Qed.

Lemma store_loop_length t n a b m d : length (store_loop t n a b m d) = length d.
Proof.
  unfold store_loop. generalize (seq 0 m). intros l. revert d.
  induction l as [|i l IH]; intros d; cbn [fold_left]; [reflexivity|].
  rewrite IH, !length_insert. reflexivity.
Qed.

Lemma store_loop_S t n a b m d :
  store_loop t n a b (S m) d
  = <[(b + m)%nat := default 0 (t !! (n + m)%nat)]>
      (<[(a + m)%nat := default 0 (t !! m)]> (store_loop t n a b m d)).
Proof. unfold store_loop. rewrite seq_S, fold_left_app. reflexivity. Qed.

(** With the two cells apart and inside the grid, the loop leaves the
    first half of the tape in cell A and the second half in cell B. *)
Lemma store_loop_lookup t n a b d m :
  (a + n <= b \/ b + n <= a)%nat ->
  (a + n <= length d)%nat -> (b + n <= length d)%nat ->
  (m <= n)%nat ->
  forall k, (k < m)%nat ->
    store_loop t n a b m d !! (a + k)%nat = Some (default 0 (t !! k))
    /\ store_loop t n a b m d !! (b + k)%nat = Some (default 0 (t !! (n + k)%nat)).
Proof.
  intros Hapart Ha Hb. induction m as [|m IH]; intros Hm k Hk; [lia|].
  rewrite store_loop_S.
  pose proof (store_loop_length t n a b m d) as Hlen.
  destruct (decide (k = m)) as [->|Hne].
  - split.
    + rewrite list_lookup_insert_ne by lia.
      rewrite list_lookup_insert_eq by lia. reflexivity.
    + rewrite list_lookup_insert_eq by (rewrite length_insert; lia). reflexivity.
  - destruct (IH ltac:(lia) k ltac:(lia)) as [IHa IHb].
    split; rewrite !list_lookup_insert_ne by lia; assumption.
Qed.

Lemma take_drop_lookup (l : list Z) a n k :
  (k < n)%nat -> take n (drop a l) !! k = l !! (a + k)%nat.
Proof. intros Hk. rewrite lookup_take_lt by assumption. apply lookup_drop. Qed.

(** The write-back, read back as two slices. *)
Lemma store_tape_slices d t tapeSize A B :
  0 <= tapeSize -> 0 <= A -> 0 <= B ->
  A + tapeSize <= B \/ B + tapeSize <= A ->
  A + tapeSize <= Z.of_nat (length d) -> B + tapeSize <= Z.of_nat (length d) ->
  length t = (Z.to_nat tapeSize + Z.to_nat tapeSize)%nat ->
  let d' := store_tape d t tapeSize (Some A) (Some B) in
  Js.slice d' A (A + tapeSize) = take (Z.to_nat tapeSize) t
  /\ Js.slice d' B (B + tapeSize) = drop (Z.to_nat tapeSize) t.
Proof.
  intros HT HA HB Hapart HAr HBr Ht. cbn zeta.
  rewrite store_tape_loop by assumption.
  set (n := Z.to_nat tapeSize) in *. set (a := Z.to_nat A). set (b := Z.to_nat B).
  pose proof (store_loop_length t n a b n d) as Hlen.
  destruct (slice_in_range (store_loop t n a b n d) A tapeSize) as [-> _];
    [lia|lia|rewrite Hlen; lia|].
  destruct (slice_in_range (store_loop t n a b n d) B tapeSize) as [-> _];
    [lia|lia|rewrite Hlen; lia|].
  fold n a b.
  assert (Hlook := store_loop_lookup t n a b d n ltac:(lia) ltac:(lia) ltac:(lia) (le_n n)).
  split; apply list_eq; intros k.
  - destruct (Nat.lt_ge_cases k n) as [Hk|Hk].
    + rewrite take_drop_lookup by assumption.
      destruct (Hlook k Hk) as [-> _].
      rewrite lookup_take_lt by assumption.
      destruct (t !! k) eqn:Htk; [reflexivity|].
      apply lookup_ge_None in Htk. lia.
    + rewrite !lookup_take_ge by assumption. reflexivity.
  - destruct (Nat.lt_ge_cases k n) as [Hk|Hk].
    + rewrite take_drop_lookup by assumption.
      destruct (Hlook k Hk) as [_ ->].
      rewrite lookup_drop.
      destruct (t !! (n + k)%nat) eqn:Htk; [reflexivity|].
      apply lookup_ge_None in Htk. lia.
    + rewrite lookup_take_ge by assumption.
      symmetry. apply lookup_ge_None. rewrite length_drop. lia.
Qed.

End WriteBack.

(** ** The cells an interaction picks *)

Section Picking.

Lemma cell_index_range x y w h :
  0 <= x < w -> 0 <= y < h -> 0 <= y * w + x < w * h.
Proof.
  intros Hx Hy. split.
  - apply Z.add_nonneg_nonneg; [apply Z.mul_nonneg_nonneg|]; lia.
  - replace (w * h) with ((h - 1) * w + w) by ring.
    assert (y * w <= (h - 1) * w) by (apply Z.mul_le_mono_nonneg_r; lia).
    lia.
Qed.

Lemma pick_global_range fuel : forall s w h x y s' nx ny,
  0 < w <= 2 ^ 21 -> 0 < h <= 2 ^ 21 ->
  pick_global fuel s w h x y = Some (s', nx, ny) ->
  0 <= nx < w /\ 0 <= ny < h.
Proof.
  induction fuel as [|fuel IH]; intros s w h x y s' nx ny Hw Hh; cbn [pick_global];
    [discriminate|].
  destruct (PRNG.next s) as [s1 r1] eqn:E1.
  pose proof (F64Facts.scale_next s w Hw) as H1. rewrite E1 in H1. cbn [snd] in H1.
  destruct (PRNG.next s1) as [s2 r2] eqn:E2.
  pose proof (F64Facts.scale_next s1 h Hh) as H2. rewrite E2 in H2. cbn [snd] in H2.
  destruct (_ && _).
  - apply IH; assumption.
  - intros [= <- <- <-]. split; assumption.
Qed.

(** [(x + dx + W) % W] for an offset [dx >= -2]: never negative. *)
Lemma wrap_range v n : 0 < n -> n - 2 <= v -> 0 <= Z.rem v n < n.
Proof.
  intros Hn Hv. destruct (Z.eq_dec n 1) as [->|Hn1].
  - rewrite Z.rem_1_r. lia.
  - apply Z.rem_bound_pos; lia.
Qed.

Lemma pick_cells fuel e s oa ob :
  0 < width e <= 2 ^ 21 -> 0 < height e <= 2 ^ 21 ->
  pick fuel e = Some (s, Some (oa, ob)) ->
  exists a b,
    oa = Some (a * tapeSize (config e)) /\ ob = Some (b * tapeSize (config e))
    /\ 0 <= a < width e * height e /\ 0 <= b < width e * height e.
Proof.
  intros Hw Hh. unfold pick.
  destruct (PRNG.next (rng e)) as [s1 r1] eqn:E1.
  pose proof (F64Facts.scale_next (rng e) (width e) Hw) as H1.
  rewrite E1 in H1. cbn [snd] in H1.
  destruct (PRNG.next s1) as [s2 r2] eqn:E2.
  pose proof (F64Facts.scale_next s1 (height e) Hh) as H2.
  rewrite E2 in H2. cbn [snd] in H2.
  pose proof (cell_index_range _ _ _ _ H1 H2) as HA.
  destruct (topology (config e)).
  - destruct (PRNG.next s2) as [s3 r3] eqn:E3.
    pose proof (F64Facts.scale_next s2 5 ltac:(lia)) as H3.
    rewrite E3 in H3. cbn [snd] in H3.
    destruct (PRNG.next s3) as [s4 r4] eqn:E4.
    pose proof (F64Facts.scale_next s3 5 ltac:(lia)) as H4.
    rewrite E4 in H4. cbn [snd] in H4.
    destruct (_ && _); [discriminate|].
    unfold Js.rem.
    destruct (Z.eqb_spec (width e) 0); [lia|]. destruct (Z.eqb_spec (height e) 0); [lia|].
    cbn [mbind option_bind]. intros [= <- <- <-].
    pose proof (wrap_range (PRNG.scale r1 (width e) + (PRNG.scale r3 5 - 2) + width e)
                  (width e) ltac:(lia) ltac:(lia)) as Hnx.
    pose proof (wrap_range (PRNG.scale r2 (height e) + (PRNG.scale r4 5 - 2) + height e)
                  (height e) ltac:(lia) ltac:(lia)) as Hny.
    eexists _, _. split; [reflexivity|]. split; [reflexivity|].
    split; [exact HA|]. apply cell_index_range; assumption.
  - destruct (pick_global fuel s2 (width e) (height e) _ _) as [[[s3 nx] ny]|] eqn:Hg;
      cbn [mbind option_bind]; [|discriminate].
    intros [= <- <- <-].
    destruct (pick_global_range _ _ _ _ _ _ _ _ _ Hw Hh Hg) as [Hnx Hny].
    eexists _, _. split; [reflexivity|]. split; [reflexivity|].
    split; [exact HA|]. apply cell_index_range; assumption.
Qed.

End Picking.

Section EpochBoundary.

Variable Math_log2 : spec_float -> spec_float.

Lemma completeEpoch_length e e' :
  completeEpoch Math_log2 e = Some e' -> length (data e') = length (data e).
Proof.
  unfold completeEpoch.
  destruct (mutate _ _ _) as [[d s]|] eqn:Hm; cbn [mbind option_bind]; [|discriminate].
  intros [= <-]. cbn [data]. exact (mutate_length _ _ _ _ _ Hm).
Qed.

(** What [interact] does once its two cells are known: it runs the VM on
    the grid as it was, lets [completeEpoch] (mutation included) run if
    the epoch is full, and then stores the VM's tape. *)
Lemma interact_stores fuel e e' s idxA idxB :
  pick fuel e = Some (s, Some (idxA, idxB)) ->
  interact Math_log2 fuel e = Some e' ->
  let T := tapeSize (config e) in
  let run := VM.execute T (instructionLimit (config e)) (load_tape (data e) T idxA idxB) in
  let e1 := account (set_rng e s) run.1 in
  exists e2,
    (if epochInteractions e1 >=? epochSize e1
     then completeEpoch Math_log2 e1 else Some e1) = Some e2
    /\ length (data e2) = length (data e)
    /\ data e' = store_tape (data e2) run.2 T idxA idxB.
Proof.
  intros Hpick. unfold interact. rewrite Hpick. cbn [mbind option_bind]. cbn zeta.
  destruct (VM.execute (tapeSize (config e)) (instructionLimit (config e))
              (load_tape (data e) (tapeSize (config e)) idxA idxB)) as [c t'].
  cbn [fst snd].
  set (e1 := account (set_rng e s) c).
  destruct (epochInteractions e1 >=? epochSize e1).
  - destruct (completeEpoch Math_log2 e1) as [e2|] eqn:He2; cbn [mbind option_bind];
      [|discriminate].
    intros [= <-]. exists e2. split; [reflexivity|].
    split; [exact (completeEpoch_length e1 e2 He2)|reflexivity].
  - cbn [mbind option_bind]. intros [= <-]. exists e1.
    split; [reflexivity|]. split; reflexivity.
Qed.

End EpochBoundary.

(** C10 fails on the code. The spatial branch of [interact] means to
    rule out self-interaction (its comment says so, and the global branch
    resamples until the two cells differ), but it only skips the offset
    [(0, 0)]: on a grid two cells wide an offset of two columns wraps onto
    cell A itself. The write-back then stores the first half and
    afterwards the second half of the tape into that one cell, which
    cannot equal both. On the 2 x 2 grid seeded with 3, the fourth
    interaction completes the first epoch with A = B = the cell at offset
    6; the VM leaves [[44; 63; 44; 44]], and the cell ends as the second
    half [[44; 44]], not the first half [[44; 63]]. *)
Theorem self_interaction_keeps_second_half :
  valid_config cfg_pairs = true
  /\ forall log2, exists e e3 e4 s,
         new log2 ample_host cfg_pairs = Some e
         /\ step log2 3 0 e = Some e3
         /\ epochInteractions e3 + 1 = epochSize e3
         /\ pick 0 e3 = Some (s, Some (Some 6, Some 6))
         /\ interact log2 0 e3 = Some e4
         /\ epoch (stats e4) = epoch (stats e3) + 1
         /\ (VM.execute 2 16 (load_tape (data e3) 2 (Some 6) (Some 6))).2 = [44; 63; 44; 44]
         /\ Js.slice (data e4) 6 (6 + 2) = [44; 44].
Proof.
  split; [vm_compute; reflexivity|].
  intros log2.
  destruct (new_returns log2 ample_host cfg_pairs) as [e He]; [vm_compute; intuition discriminate|].
  exists e. pose proof (new_eq log2 ample_host cfg_pairs e He) as ->.
  set (e0 := reset log2 (blank cfg_pairs)) in *.
  assert (Hf :
    (e3 ← step log2 3 0 e0;
     e4 ← interact log2 0 e3;
     Some (epochInteractions e3 + 1 - epochSize e3,
           snd <$> pick 0 e3,
           epoch (stats e4) - epoch (stats e3),
           (VM.execute 2 16 (load_tape (data e3) 2 (Some 6) (Some 6))).2,
           Js.slice (data e4) 6 (6 + 2)))
    = Some (0, Some (Some (Some 6, Some 6)), 1, [44; 63; 44; 44], [44; 44]))
    by (vm_compute; reflexivity).
  destruct (step log2 3 0 e0) as [e3|] eqn:Hs3; cbn [mbind option_bind] in Hf;
    [|discriminate].
  destruct (interact log2 0 e3) as [e4|] eqn:Hi4; cbn [mbind option_bind] in Hf;
    [|discriminate].
  apply (f_equal (default (0, None, 0, [], []))) in Hf. cbn [default id] in Hf.
  pose proof (f_equal snd Hf) as H5.
  pose proof (f_equal (fun p => snd (fst p)) Hf) as H4.
  pose proof (f_equal (fun p => snd (fst (fst p))) Hf) as H3.
  pose proof (f_equal (fun p => snd (fst (fst (fst p)))) Hf) as H2.
  pose proof (f_equal (fun p => fst (fst (fst (fst p)))) Hf) as H1.
  cbn [fst snd] in H1, H2, H3, H4, H5. clear Hf.
  destruct (pick 0 e3) as [[s cells]|] eqn:Hp;
    cbn [fmap option_fmap option_map snd] in H2; [|discriminate].
  injection H2 as ->.
  exists e3, e4, s.
  split; [exact He|].
  split; [reflexivity|]. split; [lia|]. split; [exact Hp|]. split; [exact Hi4|].
  split; [lia|]. split; assumption.
Qed.

Lemma step_reachable log2 host n fuel : forall e e',
  reachable log2 host e -> step_loop log2 n fuel e = Some e' -> reachable log2 host e'.
Proof.
  induction n as [|n IH]; intros e e' Hr; cbn [step_loop].
  - intros [= <-]. exact Hr.
  - destruct (interact log2 fuel e) as [e1|] eqn:H1; cbn [mbind option_bind];
      [|discriminate].
    apply IH. exact (reach_interact log2 host fuel e e1 Hr H1).
Qed.

(** C5 at work on the 2 x 2 grid seeded with 4, with a [Math.log2] that
    is constantly zero (so that entropy never moves). The fourth
    interaction completes epoch 1: zero density is what it was at the
    baseline, and nothing is appended. The eighth completes epoch 2: zero
    density has moved from 1 to 0, and the snapshot is appended, at an
    epoch that is no census epoch. *)
Lemma history_policy_witness :
  valid_config cfg_quiet = true
  /\ exists e0 e3 e4 e7 e8,
       new log2_zero ample_host cfg_quiet = Some e0
       /\ step log2_zero 3 8 e0 = Some e3 /\ interact log2_zero 8 e3 = Some e4
       /\ step log2_zero 3 8 e4 = Some e7 /\ interact log2_zero 8 e7 = Some e8
       /\ epoch (stats e3) = 0 /\ epoch (stats e4) = 1
       /\ history e4 = history e3
       /\ epoch (stats e7) = 1 /\ epoch (stats e8) = 2
       /\ history e8 = history e7 ++ [stats e8]
       /\ map epoch (history e8) = [0; 2].
Proof.
  split; [vm_compute; reflexivity|].
  destruct (new_returns log2_zero ample_host cfg_quiet) as [e0 He0];
    [vm_compute; intuition discriminate|].
  pose proof (reach_new log2_zero ample_host cfg_quiet e0 He0) as Hr0.
  destruct (step log2_zero 3 8 e0) as [e3|] eqn:Hs3.
  2:{ exfalso. vm_compute in He0. injection He0 as <-. vm_compute in Hs3. discriminate. }
  pose proof (step_reachable log2_zero ample_host _ _ _ _ Hr0 Hs3) as Hr3.
  destruct (interact log2_zero 8 e3) as [e4|] eqn:Hi4.
  2:{ exfalso. vm_compute in He0. injection He0 as <-.
      vm_compute in Hs3. injection Hs3 as <-. vm_compute in Hi4. discriminate. }
  pose proof (reach_interact log2_zero ample_host 8 e3 e4 Hr3 Hi4) as Hr4.
  destruct (step log2_zero 3 8 e4) as [e7|] eqn:Hs7.
  2:{ exfalso. vm_compute in He0. injection He0 as <-.
      vm_compute in Hs3. injection Hs3 as <-. vm_compute in Hi4. injection Hi4 as <-.
      vm_compute in Hs7. discriminate. }
  pose proof (step_reachable log2_zero ample_host _ _ _ _ Hr4 Hs7) as Hr7.
  destruct (interact log2_zero 8 e7) as [e8|] eqn:Hi8.
  2:{ exfalso. vm_compute in He0. injection He0 as <-.
      vm_compute in Hs3. injection Hs3 as <-. vm_compute in Hi4. injection Hi4 as <-.
      vm_compute in Hs7. injection Hs7 as <-. vm_compute in Hi8. discriminate. }
  destruct (history_policy log2_zero ample_host 8 e3 e4 Hr3 Hi4)
    as (s4 & cells4 & l4 & Hp4 & Hl4 & Hif4).
  destruct (history_policy log2_zero ample_host 8 e7 e8 Hr7 Hi8)
    as (s8 & cells8 & l8 & Hp8 & Hl8 & Hif8).
  exists e0, e3, e4, e7, e8.
  split; [exact He0|]. split; [exact Hs3|]. split; [exact Hi4|].
  split; [exact Hs7|]. split; [exact Hi8|].
  clear Hr0 Hr3 Hr4 Hr7.
  vm_compute in He0. injection He0 as <-.
  vm_compute in Hs3. injection Hs3 as <-.
  vm_compute in Hi4. injection Hi4 as <-.
  vm_compute in Hs7. injection Hs7 as <-.
  vm_compute in Hi8. injection Hi8 as <-.
  vm_compute in Hp4. injection Hp4 as <- <-.
  vm_compute in Hl4. injection Hl4 as <-.
  vm_compute in Hp8. injection Hp8 as <- <-.
  vm_compute in Hl8. injection Hl8 as <-.
  match type of Hif4 with (if ?c then _ else _) =>
    assert (Hc4 : c = true) by (vm_compute; reflexivity); rewrite Hc4 in Hif4 end.
  match type of Hif8 with (if ?c then _ else _) =>
    assert (Hc8 : c = true) by (vm_compute; reflexivity); rewrite Hc8 in Hif8 end.
  destruct Hif4 as [Hep4 Hh4]. destruct Hif8 as [Hep8 Hh8].
  match type of Hh4 with (_ = if ?c then _ else _) =>
    assert (Hd4 : c = false) by (vm_compute; reflexivity); rewrite Hd4 in Hh4 end.
  match type of Hh8 with (_ = if ?c then _ else _) =>
    assert (Hd8 : c = true) by (vm_compute; reflexivity); rewrite Hd8 in Hh8 end.
  split; [reflexivity|]. split; [exact Hep4|]. split; [exact Hh4|].
  split; [reflexivity|]. split; [exact Hep8|]. split; [exact Hh8|].
  vm_compute. reflexivity.
Defined.

(** * Further properties of the code *)

(** ** The virtual machine: counters and tapes *)

Section Counters.
Import VM.

Variable resolve : resolver.
Variable tapeSize : Z.
Variable mask : Z.

Lemma cycle_counters m m' :
  cycle resolve tapeSize mask m = inl m' \/ cycle resolve tapeSize mask m = inr m' ->
  grows (tally m) (tally m') 1.
Proof.
  unfold cycle, grows.
  destruct (decode _); try destruct (cell_is_zero _ _); try destruct (resolve _ _ _);
    intros [[= <-]|[= <-]]; cbn [tally advance bump_complexity complexity copies neighborWrites];
    try destruct (_ >=? _);
    cbn [tally advance bump_complexity complexity copies neighborWrites]; lia.
Qed.

Lemma run_counters fuel : forall m,
  grows (tally m) (tally (run resolve tapeSize mask fuel m)) (Z.of_nat fuel).
Proof.
  induction fuel as [|fuel IH]; intros m; cbn [run].
  - unfold grows. lia.
  - destruct (cycle resolve tapeSize mask m) as [m'|m'] eqn:Hc.
    + pose proof (cycle_counters m m' (or_introl Hc)) as H1.
      specialize (IH m'). unfold grows in *. lia.
    + pose proof (cycle_counters m m' (or_intror Hc)) as H1.
      unfold grows in *. lia.
Qed.

(** A tape without writing instructions is never written. *)
Lemma cycle_read_only m m' :
  forallb (fun b => negb (writes_tape b)) (tape m) = true ->
  cycle resolve tapeSize mask m = inl m' \/ cycle resolve tapeSize mask m = inr m' ->
  tape m' = tape m /\ copies (tally m') = copies (tally m)
  /\ neighborWrites (tally m') = neighborWrites (tally m).
Proof.
  intros Hro. unfold cycle.
  destruct (TypedArray.get (tape m) (Z.land (ip m) mask)) as [b|] eqn:Hb.
  - assert (Hw : writes_tape b = false).
    { unfold TypedArray.get in Hb. destruct (_ <? 0); [discriminate|].
      rewrite forallb_forall in Hro.
      apply list_elem_of_lookup_2, list_elem_of_In, Hro in Hb.
      destruct (writes_tape b); [discriminate|reflexivity]. }
    unfold writes_tape in Hw. unfold decode.
    destruct (b =? CMD_LEFT); [intros [[= <-]|[= <-]]; repeat split|].
    destruct (b =? CMD_RIGHT); [intros [[= <-]|[= <-]]; repeat split|].
    destruct (b =? CMD_H1_DEC); [intros [[= <-]|[= <-]]; repeat split|].
    destruct (b =? CMD_H1_INC); [intros [[= <-]|[= <-]]; repeat split|].
    destruct (b =? CMD_DEC); [discriminate|].
    destruct (b =? CMD_INC); [discriminate|].
    destruct (b =? CMD_COPY_0_TO_1); [discriminate|].
    destruct (b =? CMD_COPY_1_TO_0); [discriminate|].
    destruct (b =? CMD_JZ).
    { destruct (cell_is_zero _ _); try destruct (resolve _ _ _);
        intros [[= <-]|[= <-]]; repeat split. }
    destruct (b =? CMD_JNZ).
    { destruct (cell_is_zero _ _); try destruct (resolve _ _ _);
        intros [[= <-]|[= <-]]; repeat split. }
    intros [[= <-]|[= <-]]; repeat split.
  - cbn [decode]. intros [[= <-]|[= <-]]; repeat split.
Qed.

Lemma run_read_only fuel : forall m,
  forallb (fun b => negb (writes_tape b)) (tape m) = true ->
  let m' := run resolve tapeSize mask fuel m in
  tape m' = tape m /\ copies (tally m') = copies (tally m)
  /\ neighborWrites (tally m') = neighborWrites (tally m).
Proof.
  induction fuel as [|fuel IH]; intros m Hro; cbn [run]; [repeat split|].
  destruct (cycle resolve tapeSize mask m) as [m'|m'] eqn:Hc.
  - destruct (cycle_read_only m m' Hro (or_introl Hc)) as (Ht & Hcp & Hn).
    cbn zeta. destruct (IH m') as (Ht' & Hcp' & Hn'); [rewrite Ht; exact Hro|].
    cbn zeta in *. repeat split; congruence.
  - exact (cycle_read_only m m' Hro (or_intror Hc)).
Qed.

(** Bytes that are no instruction only move [ip]. *)
Lemma cycle_inert m m' :
  (forall b, b ∈ tape m -> decode (Some b) = OpOther) ->
  cycle resolve tapeSize mask m = inl m' \/ cycle resolve tapeSize mask m = inr m' ->
  tape m' = tape m /\ tally m' = tally m.
Proof.
  intros Hin. unfold cycle.
  destruct (TypedArray.get (tape m) (Z.land (ip m) mask)) as [b|] eqn:Hb.
  - assert (Hd : decode (Some b) = OpOther).
    { unfold TypedArray.get in Hb. destruct (_ <? 0); [discriminate|].
      apply list_elem_of_lookup_2, Hin in Hb. exact Hb. }
    rewrite Hd. intros [[= <-]|[= <-]]; repeat split.
  - cbn [decode]. intros [[= <-]|[= <-]]; repeat split.
Qed.

Lemma run_inert fuel : forall m,
  (forall b, b ∈ tape m -> decode (Some b) = OpOther) ->
  let m' := run resolve tapeSize mask fuel m in
  tape m' = tape m /\ tally m' = tally m.
Proof.
  induction fuel as [|fuel IH]; intros m Hin; cbn [run]; [repeat split|].
  destruct (cycle resolve tapeSize mask m) as [m'|m'] eqn:Hc.
  - destruct (cycle_inert m m' Hin (or_introl Hc)) as (Ht & Hc').
    cbn zeta. destruct (IH m') as (Ht' & Hc''); [rewrite Ht; exact Hin|].
    cbn zeta in *. split; congruence.
  - exact (cycle_inert m m' Hin (or_intror Hc)).
Qed.

End Counters.

(** The counters of one call of the current engine's [execute]. *)
Lemma execute_grows tapeSize limit t :
  grows (VM.Counters 0 0 0) (VM.execute tapeSize limit t).1 (Z.max 0 limit).
Proof.
  unfold VM.execute. cbn [fst].
  pose proof (run_counters (VM.resolve_table
        (VM.build_jumps t (tapeSize * 2) (tapeSize * 2 - 1)) (tapeSize * 2 - 1))
      tapeSize (tapeSize * 2 - 1) (Z.to_nat limit) (VM.start t)) as H.
  unfold grows in *. cbn [VM.start VM.tally] in H. lia.
Qed.

(** A tape without writing instructions comes back from the current
    engine's [execute] as it went in. *)
Lemma execute_keeps_read_only_tape tapeSize limit t :
  forallb (fun b => negb (writes_tape b)) t = true ->
  (VM.execute tapeSize limit t).2 = t
  /\ VM.copies (VM.execute tapeSize limit t).1 = 0
  /\ VM.neighborWrites (VM.execute tapeSize limit t).1 = 0.
Proof.
  intros Hro. unfold VM.execute. cbn [fst snd].
  exact (run_read_only (VM.resolve_table
        (VM.build_jumps t (tapeSize * 2) (tapeSize * 2 - 1)) (tapeSize * 2 - 1))
      tapeSize (tapeSize * 2 - 1) (Z.to_nat limit) (VM.start t) Hro).
Qed.

(** X1: in both engines, [execute] returns counters with
    [0 <= neighborWrites <= copies <= complexity <= max(0, limit)], for
    every tape size, instruction limit and tape. *)
Theorem execute_counters_bounded (tapeSize limit : Z) (t : list Z) :
  let bounded (c : VM.counters) :=
    0 <= VM.neighborWrites c <= VM.copies c
    /\ VM.copies c <= VM.complexity c
    /\ VM.complexity c <= Z.max 0 limit in
  bounded (VM.execute tapeSize limit t).1
  /\ bounded (VM.execute_scanning tapeSize limit t).1.
Proof.
  cbn zeta. split.
  - pose proof (execute_grows tapeSize limit t) as H.
    unfold grows in H. cbn [VM.complexity VM.copies VM.neighborWrites] in H. lia.
  - unfold VM.execute_scanning. cbn [fst].
    pose proof (run_counters (VM.resolve_scan (tapeSize * 2) (tapeSize * 2 - 1))
      tapeSize (tapeSize * 2 - 1) (Z.to_nat limit) (VM.start t)) as H.
    unfold grows in H. cbn [VM.start VM.tally VM.complexity VM.copies VM.neighborWrites] in H.
    lia.
Qed.

(** X2: a tape that holds none of the four writing instructions
    ([-], [+], [.], [,]) is returned unchanged by [execute], with no copy
    and no neighbour write counted, in both engines. *)
Theorem execute_read_only (tapeSize limit : Z) (t : list Z) :
  forallb (fun b => negb (writes_tape b)) t = true ->
  (VM.execute tapeSize limit t).2 = t
  /\ VM.copies (VM.execute tapeSize limit t).1 = 0
  /\ VM.neighborWrites (VM.execute tapeSize limit t).1 = 0
  /\ (VM.execute_scanning tapeSize limit t).2 = t
  /\ VM.copies (VM.execute_scanning tapeSize limit t).1 = 0
  /\ VM.neighborWrites (VM.execute_scanning tapeSize limit t).1 = 0.
Proof.
  intros Hro.
  destruct (execute_keeps_read_only_tape tapeSize limit t Hro) as (H1 & H2 & H3).
  unfold VM.execute_scanning. cbn [fst snd].
  destruct (run_read_only (VM.resolve_scan (tapeSize * 2) (tapeSize * 2 - 1))
      tapeSize (tapeSize * 2 - 1) (Z.to_nat limit) (VM.start t) Hro) as (H4 & H5 & H6).
  cbn zeta in *. repeat split; assumption.
Qed.

(** X2 at work: a loop that only moves the heads. *)
Lemma execute_read_only_witness :
  (VM.execute 4 64 read_only_tape).2 = read_only_tape
  /\ VM.copies (VM.execute 4 64 read_only_tape).1 = 0
  /\ VM.neighborWrites (VM.execute 4 64 read_only_tape).1 = 0
  /\ (VM.execute_scanning 4 64 read_only_tape).2 = read_only_tape
  /\ VM.copies (VM.execute_scanning 4 64 read_only_tape).1 = 0
  /\ VM.neighborWrites (VM.execute_scanning 4 64 read_only_tape).1 = 0.
Proof. apply (execute_read_only 4 64 read_only_tape). reflexivity. Defined.

(** X3: on a tape that holds none of the ten instructions, [execute]
    counts nothing and changes nothing, in both engines: data bytes only
    move the instruction pointer. *)
Theorem execute_inert (tapeSize limit : Z) (t : list Z) :
  forallb (fun b => bool_decide (b ∉ VALID_OPS)) t = true ->
  VM.execute tapeSize limit t = (VM.Counters 0 0 0, t)
  /\ VM.execute_scanning tapeSize limit t = (VM.Counters 0 0 0, t).
Proof.
  intros Hin.
  assert (Hin' : forall b, b ∈ t -> VM.decode (Some b) = VM.OpOther).
  { rewrite forallb_forall in Hin. intros b Hb. apply list_elem_of_In in Hb.
    specialize (Hin b Hb).
    apply bool_decide_eq_true in Hin.
    unfold VM.decode.
    repeat match goal with
    | |- context [?x =? ?y] =>
        destruct (Z.eqb_spec x y) as [->|?];
          [exfalso; apply Hin, list_elem_of_In; unfold VALID_OPS; cbn [In];
           intuition reflexivity|]
    end.
    reflexivity. }
  unfold VM.execute, VM.execute_scanning.
  destruct (run_inert (VM.resolve_table
        (VM.build_jumps t (tapeSize * 2) (tapeSize * 2 - 1)) (tapeSize * 2 - 1))
      tapeSize (tapeSize * 2 - 1) (Z.to_nat limit) (VM.start t) Hin') as (H1 & H2).
  destruct (run_inert (VM.resolve_scan (tapeSize * 2) (tapeSize * 2 - 1))
      tapeSize (tapeSize * 2 - 1) (Z.to_nat limit) (VM.start t) Hin') as (H3 & H4).
  cbn zeta in *. rewrite H1, H2, H3, H4. split; reflexivity.
Qed.

(** X3 at work. *)
Lemma execute_inert_witness :
  VM.execute 4 64 [0; 1; 2; 3; 200; 255; 42; 47]
  = (VM.Counters 0 0 0, [0; 1; 2; 3; 200; 255; 42; 47])
  /\ VM.execute_scanning 4 64 [0; 1; 2; 3; 200; 255; 42; 47]
     = (VM.Counters 0 0 0, [0; 1; 2; 3; 200; 255; 42; 47]).
Proof. apply (execute_inert 4 64). reflexivity. Defined.

(** ** The jump table *)

Module MatchingFacts.
Import TypedArray VM Matching.

Section Scan.
Variable t : list Z.
Variable mask : Z.

Lemma weight_swap o c p : o <> c -> weight t mask c o p = - weight t mask o c p.
Proof.
  intros Hne. unfold weight. cbn zeta.
  destruct (get t (Z.land p mask)) as [b|].
  - destruct (decide (b = o)) as [Ho|Ho].
    + subst b.
      rewrite (bool_decide_eq_true_2 (Some o = Some o)) by reflexivity.
      rewrite (bool_decide_eq_false_2 (Some o = Some c)) by congruence. reflexivity.
    + rewrite (bool_decide_eq_false_2 (Some b = Some o)) by congruence.
      destruct (decide (b = c)) as [Hc|Hc].
      * subst b. rewrite (bool_decide_eq_true_2 (Some c = Some c)) by reflexivity.
        reflexivity.
      * rewrite (bool_decide_eq_false_2 (Some b = Some c)) by congruence. reflexivity.
  - rewrite !bool_decide_eq_false_2 by discriminate. reflexivity.
Qed.

Lemma scan_step o c dir budget depth p :
  scan t mask o c dir (S budget) depth p
  = if depth >? 0
    then scan t mask o c dir budget (depth + weight t mask o c p) (p + dir)
    else (depth, p).
Proof.
  cbn [scan]. unfold weight. cbn zeta.
  destruct (depth >? 0); [|reflexivity].
  destruct (bool_decide _); [reflexivity|].
  destruct (bool_decide _); [reflexivity|].
  rewrite Z.add_0_r. reflexivity.
Qed.

(** A scan is a number of turns, ended by the depth or by the budget. *)
Lemma scan_turns o c dir budget : forall depth p,
  exists s,
    (s <= budget)%nat
    /\ turns t mask o c dir s depth p
             (scan t mask o c dir budget depth p).1 (scan t mask o c dir budget depth p).2
    /\ ((scan t mask o c dir budget depth p).1 <= 0 \/ s = budget).
Proof.
  induction budget as [|budget IH]; intros depth p.
  - exists O. cbn [scan fst snd]. split; [lia|]. split; [constructor|]. right. reflexivity.
  - rewrite scan_step. destruct (Z.gtb_spec depth 0) as [Hpos|Hneg].
    + destruct (IH (depth + weight t mask o c p) (p + dir)) as (s & Hs & Ht & Hend).
      exists (S s). split; [lia|]. split; [constructor; [lia|exact Ht]|].
      destruct Hend as [H|H]; [left; exact H|right; lia].
    + exists O. cbn [fst snd]. split; [lia|]. split; [constructor|]. left. lia.
Qed.

Lemma turns_scan o c dir s : forall budget depth p depth' p',
  turns t mask o c dir s depth p depth' p' ->
  depth' <= 0 -> (s <= budget)%nat ->
  scan t mask o c dir budget depth p = (depth', p').
Proof.
  induction s as [|s IH]; intros budget depth p depth' p' Ht Hd Hb.
  - inversion Ht; subst. destruct budget; [reflexivity|].
    rewrite scan_step. destruct (Z.gtb_spec depth' 0); [lia|reflexivity].
  - inversion Ht; subst. destruct budget as [|budget]; [lia|].
    rewrite scan_step. destruct (Z.gtb_spec depth 0); [|lia].
    apply IH; [assumption|assumption|lia].
Qed.

Lemma turns_position o c dir s : forall depth p depth' p',
  turns t mask o c dir s depth p depth' p' -> p' = p + Z.of_nat s * dir.
Proof.
  induction s as [|s IH]; intros depth p depth' p' Ht; inversion Ht; subst.
  - lia.
  - rewrite (IH _ _ _ _ H1). lia.
Qed.

(** The depth a live run of turns starts with is positive. *)
Lemma turns_start o c dir s depth p depth' p' :
  turns t mask o c dir s depth p depth' p' -> 0 < depth' -> 0 < depth.
Proof. intros Ht Hd. inversion Ht; subst; assumption. Qed.

Lemma turns_snoc o c dir s : forall depth p depth' p',
  turns t mask o c dir s depth p depth' p' ->
  0 < depth' ->
  turns t mask o c dir (S s) depth p (depth' + weight t mask o c p') (p' + dir).
Proof.
  induction s as [|s IH]; intros depth p depth' p' Ht Hd; inversion Ht; subst.
  - constructor; [assumption|constructor].
  - constructor; [assumption|]. apply IH; assumption.
Qed.

(** The last turn of a run. *)
Lemma turns_unsnoc o c dir s : forall depth p depth' p',
  turns t mask o c dir (S s) depth p depth' p' ->
  exists d q,
    turns t mask o c dir s depth p d q
    /\ 0 < d /\ depth' = d + weight t mask o c q /\ p' = q + dir.
Proof.
  induction s as [|s IH]; intros depth p depth' p' Ht; inversion Ht; subst.
  - inversion H1; subst. exists depth, p. split; [constructor|]. split; [assumption|].
    split; reflexivity.
  - destruct (IH _ _ _ _ H1) as (d & q & Hd & Hpos & -> & ->).
    exists d, q. split; [constructor; assumption|]. split; [assumption|]. split; reflexivity.
Qed.

(** Scanning back over a run retraces its depths. *)
Lemma turns_reverse o c dir s : forall depth p depth' p',
  o <> c ->
  turns t mask o c dir s depth p depth' p' ->
  0 < depth' ->
  turns t mask c o (- dir) s depth' (p' - dir) depth (p - dir).
Proof.
  induction s as [|s IH]; intros depth p depth' p' Hne Ht Hd; inversion Ht; subst.
  - constructor.
  - pose proof (IH _ _ _ _ Hne H1 Hd) as Hback.
    pose proof (turns_start _ _ _ _ _ _ _ _ H1 Hd) as Hmid.
    pose proof (turns_snoc _ _ _ _ _ _ _ _ Hback Hmid) as Hs.
    replace (p + dir - dir) with p in Hs by lia.
    rewrite (weight_swap o c p Hne) in Hs.
    replace (depth + weight t mask o c p + - weight t mask o c p) with depth in Hs by lia.
    replace (p + - dir) with (p - dir) in Hs by lia.
    exact Hs.
Qed.

Lemma weight_cases o c p :
  o <> c ->
  (weight t mask o c p = 1 /\ get t (Z.land p mask) = Some o)
  \/ (weight t mask o c p = -1 /\ get t (Z.land p mask) = Some c)
  \/ (weight t mask o c p = 0 /\ get t (Z.land p mask) <> Some o
      /\ get t (Z.land p mask) <> Some c).
Proof.
  intros Hne. unfold weight. cbn zeta.
  destruct (decide (get t (Z.land p mask) = Some o)) as [Ho|Ho].
  - left. rewrite bool_decide_eq_true_2 by assumption. split; [reflexivity|assumption].
  - rewrite (bool_decide_eq_false_2 _ Ho).
    destruct (decide (get t (Z.land p mask) = Some c)) as [Hc|Hc].
    + right. left. rewrite bool_decide_eq_true_2 by assumption. split; [reflexivity|assumption].
    + right. right. rewrite bool_decide_eq_false_2 by assumption. repeat split; assumption.
Qed.

(** A scan that closes at depth [0] from an opening bracket at [i] stops
    just past a closing bracket, and the scan back from that bracket
    closes on [i]. *)
Lemma matching_scan o c dir budget i P :
  o <> c ->
  get t (Z.land i mask) = Some o ->
  scan t mask o c dir budget 1 (i + dir) = (0, P) ->
  get t (Z.land (P - dir) mask) = Some c
  /\ scan t mask c o (- dir) budget 1 (P - dir - dir) = (0, i - dir).
Proof.
  intros Hne Hi Hscan.
  destruct (scan_turns o c dir budget 1 (i + dir)) as (s & Hs & Ht & _).
  rewrite Hscan in Ht. cbn [fst snd] in Ht.
  destruct s as [|s]; [inversion Ht; lia|].
  destruct (turns_unsnoc _ _ _ _ _ _ _ _ Ht) as (d & q & Hrun & Hd & Hzero & ->).
  destruct (weight_cases o c q Hne) as [[Hw _]|[[Hw Hc]|[Hw _]]]; try lia.
  assert (d = 1) by lia. subst d.
  replace (q + dir - dir) with q by lia.
  split; [exact Hc|].
  pose proof (turns_reverse _ _ _ _ _ _ _ _ Hne Hrun ltac:(lia)) as Hback.
  replace (i + dir - dir) with i in Hback by lia.
  pose proof (turns_snoc _ _ _ _ _ _ _ _ Hback ltac:(lia)) as Hlast.
  rewrite (weight_swap o c i Hne) in Hlast.
  destruct (weight_cases o c i Hne) as [[Hwi _]|[[_ Hci]|[_ [Hoi _]]]];
    [|congruence|contradiction].
  rewrite Hwi in Hlast.
  replace (i + - dir) with (i - dir) in Hlast by lia.
  apply (turns_scan _ _ _ _ _ _ _ _ _ Hlast); [lia|exact Hs].
Qed.

End Scan.

Section Table.

Variable k : Z.
Hypothesis k_nonneg : 0 <= k.
Hypothesis small_tape : 2 ^ k <= 16384.

Local Abbreviation len := (2 ^ k * 2).
Local Abbreviation mask := (2 ^ k * 2 - 1).

Lemma jump_entry_matches t o c dir i :
  o <> c -> dir = 1 \/ dir = -1 ->
  0 <= i < len ->
  get t i = Some o ->
  forall d P,
    scan t mask o c dir (Z.to_nat len) 1 (i + dir) = (d, P) ->
    d = 0 ->
    let j := (P - dir) mod len in
    get t j = Some c
    /\ exists P',
         scan t mask c o (- dir) (Z.to_nat len) 1 (j - dir) = (0, P')
         /\ (P' + dir) mod len = i.
Proof.
  intros Hne Hdir Hi Hget d P Hscan ->. cbn zeta.
  pose proof (Refinement.len_pos k k_nonneg) as Hlen.
  destruct (matching_scan t mask o c dir (Z.to_nat len) i P Hne) as [Hc Hback].
  { rewrite (Refinement.land_mask k k_nonneg), Z.mod_small by lia. exact Hget. }
  { exact Hscan. }
  rewrite (Refinement.land_mask k k_nonneg) in Hc.
  split; [exact Hc|].
  rewrite (Refinement.scan_shift k k_nonneg t c o (- dir) (Z.to_nat len) 1
             ((P - dir) mod len - dir) (P - dir - dir)).
  2:{ rewrite (Zminus_mod ((P - dir) mod len)), Z.mod_mod, <- Zminus_mod by lia.
      reflexivity. }
  rewrite Hback. cbn [fst snd]. eexists. split; [reflexivity|].
  replace (i - dir + ((P - dir) mod len - dir - (P - dir - dir)) + dir)
    with (i + ((P - dir) mod len - (P - dir))) by lia.
  rewrite (Refinement.mod_len_shift k k_nonneg); [apply Z.mod_small; lia|].
  apply Z.mod_mod. lia.
Qed.

End Table.
End MatchingFacts.

(** X4: for [tapeSize = 2^k] with [2 * tapeSize <= 32768], every entry
    of the jump table that the pre-pass of [execute] builds is [-1] or
    the position of the matching bracket: it lies on the tape, it holds
    the opposite bracket, and its own entry points back. *)
Theorem jump_table_pairs_brackets (k : Z) (t : list Z) (i j : Z) :
  0 <= k -> 2 ^ k <= 16384 ->
  let len := 2 ^ k * 2 in
  let jumps := VM.build_jumps t len (len - 1) in
  0 <= i < len ->
  TypedArray.get jumps i = Some j ->
  j <> -1 ->
  0 <= j < len
  /\ TypedArray.get jumps j = Some i
  /\ ((TypedArray.get t i = Some VM.CMD_JZ /\ TypedArray.get t j = Some VM.CMD_JNZ)
      \/ (TypedArray.get t i = Some VM.CMD_JNZ /\ TypedArray.get t j = Some VM.CMD_JZ)).
Proof.
  intros Hk Hsmall. cbn zeta. intros Hi Hget Hj.
  pose proof (Refinement.len_pos k Hk) as Hlen.
  rewrite (Refinement.table_lookup k Hk t i Hi) in Hget. injection Hget as Hentry.
  unfold VM.jump_entry in Hentry.
  assert (Hne : VM.CMD_JZ <> VM.CMD_JNZ) by discriminate.
  assert (Hne' : VM.CMD_JNZ <> VM.CMD_JZ) by discriminate.
  destruct (decide (TypedArray.get t i = Some VM.CMD_JZ)) as [Hz|Hz].
  - rewrite bool_decide_eq_true_2 in Hentry by assumption.
    destruct (VM.scan t (2 ^ k * 2 - 1) VM.CMD_JZ VM.CMD_JNZ 1 (Z.to_nat (2 ^ k * 2)) 1 (i + 1))
      as [d P] eqn:Hscan.
    destruct (Z.eqb_spec d 0) as [Hd|Hd]; [|congruence].
    rewrite (Refinement.land_mask k Hk) in Hentry.
    pose proof (Z.mod_pos_bound (P - 1) (2 ^ k * 2) Hlen) as Hr.
    rewrite Refinement.i16_small in Hentry by lia. subst j.
    destruct (MatchingFacts.jump_entry_matches k Hk t _ _ 1 i Hne (or_introl eq_refl) Hi Hz
                d P Hscan Hd) as (Hc & P' & Hback & HP').
    cbn zeta in Hc, Hback.
    split; [exact Hr|]. split; [|left; split; assumption].
    rewrite (Refinement.table_lookup k Hk t _ Hr). f_equal.
    unfold VM.jump_entry.
    rewrite bool_decide_eq_false_2 by (rewrite Hc; discriminate).
    rewrite bool_decide_eq_true_2 by exact Hc.
    change (- (1)) with (-1) in Hback. rewrite Hback. cbn [Z.eqb].
    rewrite (Refinement.land_mask k Hk), HP'.
    apply Refinement.i16_small. lia.
  - rewrite bool_decide_eq_false_2 in Hentry by assumption.
    destruct (decide (TypedArray.get t i = Some VM.CMD_JNZ)) as [Hnz|Hnz].
    2:{ rewrite bool_decide_eq_false_2 in Hentry by assumption. congruence. }
    rewrite bool_decide_eq_true_2 in Hentry by assumption.
    destruct (VM.scan t (2 ^ k * 2 - 1) VM.CMD_JNZ VM.CMD_JZ (-1) (Z.to_nat (2 ^ k * 2)) 1 (i - 1))
      as [d P] eqn:Hscan.
    destruct (Z.eqb_spec d 0) as [Hd|Hd]; [|congruence].
    rewrite (Refinement.land_mask k Hk) in Hentry.
    pose proof (Z.mod_pos_bound (P + 1) (2 ^ k * 2) Hlen) as Hr.
    rewrite Refinement.i16_small in Hentry by lia. subst j.
    destruct (MatchingFacts.jump_entry_matches k Hk t _ _ (-1) i Hne' (or_intror eq_refl) Hi Hnz
                d P Hscan Hd) as (Hc & P' & Hback & HP').
    cbn zeta in Hc, Hback.
    replace (P - -1) with (P + 1) in * by lia.
    split; [exact Hr|]. split; [|right; split; assumption].
    rewrite (Refinement.table_lookup k Hk t _ Hr). f_equal.
    unfold VM.jump_entry.
    rewrite bool_decide_eq_true_2 by exact Hc.
    change (- -1) with 1 in Hback.
    replace ((P + 1) mod (2 ^ k * 2) - -1) with ((P + 1) mod (2 ^ k * 2) + 1) in Hback by lia.
    rewrite Hback. cbn [Z.eqb].
    replace (P' + -1) with (P' - 1) in HP' by lia.
    rewrite (Refinement.land_mask k Hk), HP'.
    apply Refinement.i16_small. lia.
Qed.

(** X4 at work: the loop of the countdown tape. *)
Lemma jump_table_pairs_brackets_witness :
  0 <= 3 < 2 ^ 2 * 2
  /\ TypedArray.get (VM.build_jumps countdown_tape (2 ^ 2 * 2) (2 ^ 2 * 2 - 1)) 3 = Some 1
  /\ ((TypedArray.get countdown_tape 1 = Some VM.CMD_JZ
       /\ TypedArray.get countdown_tape 3 = Some VM.CMD_JNZ)
      \/ (TypedArray.get countdown_tape 1 = Some VM.CMD_JNZ
          /\ TypedArray.get countdown_tape 3 = Some VM.CMD_JZ)).
Proof.
  apply (jump_table_pairs_brackets 2 countdown_tape 1 3).
  - lia.
  - vm_compute. discriminate.
  - vm_compute. split; [discriminate|reflexivity].
  - reflexivity.
  - discriminate.
Defined.

(** X5: for [tapeSize = 2^k] with [2 * tapeSize <= 32768], the earlier
    engine's [execute] (scan at jump time) and the current one (jump
    table) return the same counters and the same tape on every tape that
    holds no writing instruction. *)
Theorem engines_agree_on_read_only_tapes (k limit : Z) (t : list Z) :
  0 <= k -> 2 ^ k <= 16384 ->
  forallb (fun b => negb (writes_tape b)) t = true ->
  VM.execute_scanning (2 ^ k) limit t = VM.execute (2 ^ k) limit t.
Proof.
  intros Hk Hsmall Hro.
  unfold VM.execute_scanning, VM.execute.
  assert (Hrel : Brackets.related (2 ^ k * 2) (VM.start t) (VM.start t)).
  { unfold Brackets.related. repeat split. }
  pose proof (Refinement.run_sim k Hk Hsmall t (Z.to_nat limit) _ _ Hrel) as Hrun.
  destruct Hrun as (Ht & _ & _ & Hc & _).
  - intros n _.
    destruct (run_read_only (VM.resolve_table
          (VM.build_jumps t (2 ^ k * 2) (2 ^ k * 2 - 1)) (2 ^ k * 2 - 1))
        (2 ^ k) (2 ^ k * 2 - 1) n (VM.start t) Hro) as (Hsame & _).
    cbn zeta in Hsame. rewrite Hsame. cbn [VM.start VM.tape].
    unfold Brackets.same_brackets. apply bool_decide_eq_true. reflexivity.
  - rewrite Ht, Hc. reflexivity.
Qed.

(** X5 at work. *)
Lemma engines_agree_on_read_only_tapes_witness :
  VM.execute_scanning (2 ^ 2) 64 read_only_tape = VM.execute (2 ^ 2) 64 read_only_tape.
Proof.
  apply (engines_agree_on_read_only_tapes 2 64 read_only_tape).
  - lia.
  - vm_compute. discriminate.
  - reflexivity.
Defined.

(** ** The generator and the seeding of the grid *)

(** X6: whatever its state, [next()] returns [u / 2^32] for an integer
    [0 <= u < 2^32], and for every [n] with [0 < n <= 2^21] the scaled
    draw [(next() * n) | 0] is [floor(u * n / 2^32)], an index in
    [[0, n)]. *)
Theorem next_is_a_fraction (s : PRNG.state) :
  exists u,
    0 <= u < 2 ^ 32
    /\ (PRNG.next s).2 = F64.div (F64.of_Z u) (F64.of_Z 4294967296)
    /\ forall n, 0 < n <= 2 ^ 21 ->
         PRNG.scale (PRNG.next s).2 n = u * n / 2 ^ 32
         /\ 0 <= PRNG.scale (PRNG.next s).2 n < n.
Proof.
  destruct (F64Facts.next_output s) as (u & Hu & Hr).
  exists u. split; [exact Hu|]. split; [exact Hr|].
  intros n Hn. split; [|apply F64Facts.scale_next; exact Hn].
  rewrite Hr. apply F64Facts.scale_exact; nia.
Qed.

Lemma fill_alphabet mode n : forall s, Forall (seeded_byte mode) (fill mode n s).1.
Proof.
  induction n as [|n IH]; intros s; cbn [fill]; [constructor|].
  pose proof (F64Facts.next_output s) as (u & Hu & Hr).
  pose proof (F64Facts.scale_next s 256 ltac:(lia)) as H256.
  destruct (PRNG.next s) as [s1 r]. cbn [snd] in Hr, H256.
  specialize (IH s1). destruct (fill mode n s1) as [rest s2]. cbn [fst] in *.
  constructor; [|exact IH].
  destruct mode; cbn [seeded_byte].
  - rewrite u8_small by lia. lia.
  - rewrite Hr.
    change (Z.of_nat (length (VALID_OPS ++ [0]))) with 11.
    rewrite F64Floor.floor_scale by nia. cbn [default id].
    assert (Hk : 0 <= u * 11 / 2 ^ 32 < 11).
    { split; [apply Z.div_pos; lia|apply Z.div_lt_upper_bound; lia]. }
    generalize dependent (u * 11 / 2 ^ 32). intros k Hk.
    assert (Hcases : k = 0 \/ k = 1 \/ k = 2 \/ k = 3 \/ k = 4 \/ k = 5 \/ k = 6
                     \/ k = 7 \/ k = 8 \/ k = 9 \/ k = 10) by lia.
    unfold VALID_OPS.
    repeat (destruct Hcases as [->|Hcases];
            [vm_compute;
             intuition (apply list_elem_of_In; cbn [In]; intuition reflexivity)|]).
    subst k. vm_compute. left. reflexivity.
Qed.

(** X7: [reset] reseeds a grid of the same length, and every byte it
    draws is an instruction or [0] in the balanced mode and a byte
    [0..255] in the random mode. *)
Theorem reset_seeds_alphabet log2 (e : BFFSimulation) :
  length (data (reset log2 e)) = length (data e)
  /\ Forall (seeded_byte (seedingMode (config e))) (data (reset log2 e)).
Proof.
  unfold reset.
  pose proof (fill_alphabet (seedingMode (config e)) (length (data e))
                (PRNG.create (seed (config e)))) as Ha.
  pose proof (fill_length (seedingMode (config e)) (length (data e))
                (PRNG.create (seed (config e)))) as Hl.
  destruct (fill _ _ _) as [d s]. cbn [data fst] in *.
  split; [exact Hl|exact Ha].
Qed.

(** ** What an interaction leaves alone *)

Section Frames.
Variable log2 : spec_float -> spec_float.

Lemma completeEpoch_fields e e' :
  completeEpoch log2 e = Some e' ->
  config e' = config e /\ width e' = width e /\ height e' = height e
  /\ epochSize e' = epochSize e /\ length (data e') = length (data e)
  /\ epochInteractions e' = 0
  /\ epoch (stats e') = epoch (stats e) + 1
  /\ lastCensusEpoch (stats e')
     = (if (epoch (stats e) + 1) mod 50 =? 0 then epoch (stats e) + 1
        else lastCensusEpoch (stats e))
  /\ (history e' = history e \/ history e' = history e ++ [stats e'])
  /\ ((epoch (stats e) + 1) mod 50 = 0 -> history e' = history e ++ [stats e']).
Proof.
  unfold completeEpoch.
  destruct (mutate _ _ _) as [[d s]|] eqn:Hm; cbn [mbind option_bind]; [|discriminate].
  intros [= <-].
  cbn [config width height epochSize data epochInteractions stats epoch lastCensusEpoch history].
  rewrite rem_zero_mod.
  repeat (split; [reflexivity|]).
  split; [exact (mutate_length _ _ _ _ _ Hm)|].
  repeat (split; [reflexivity|]).
  split.
  - destruct (shouldLog _ _ _); [right|left]; reflexivity.
  - intros H0. apply Z.eqb_eq in H0. rewrite H0. reflexivity.
Qed.

(** The three ways an interaction ends. *)
Lemma interact_cases fuel e e' :
  interact log2 fuel e = Some e' ->
  (exists s, pick fuel e = Some (s, None) /\ e' = set_rng e s)
  \/ (exists s a b d,
        let c := (VM.execute (tapeSize (config e)) (instructionLimit (config e))
                    (load_tape (data e) (tapeSize (config e)) a b)).1 in
        pick fuel e = Some (s, Some (a, b))
        /\ epochInteractions e + 1 < epochSize e
        /\ length d = length (data e)
        /\ e' = set_data (account (set_rng e s) c) d)
  \/ (exists s a b d e2,
        let c := (VM.execute (tapeSize (config e)) (instructionLimit (config e))
                    (load_tape (data e) (tapeSize (config e)) a b)).1 in
        pick fuel e = Some (s, Some (a, b))
        /\ epochSize e <= epochInteractions e + 1
        /\ completeEpoch log2 (account (set_rng e s) c) = Some e2
        /\ length d = length (data e)
        /\ e' = set_data e2 d).
Proof.
  unfold interact.
  destruct (pick fuel e) as [[s [[idxA idxB]|]]|]; cbn [mbind option_bind];
    [| |discriminate].
  - destruct (VM.execute (tapeSize (config e)) (instructionLimit (config e))
                (load_tape (data e) (tapeSize (config e)) idxA idxB)) as [c t'] eqn:Hx.
    set (e1 := account (set_rng e s) c).
    assert (Hi1 : epochInteractions e1 = epochInteractions e + 1) by reflexivity.
    assert (Hs1 : epochSize e1 = epochSize e) by reflexivity.
    destruct (Z.geb_spec (epochInteractions e1) (epochSize e1)) as [Hge|Hlt].
    + destruct (completeEpoch log2 e1) as [e2|] eqn:He2; cbn [mbind option_bind];
        [|discriminate].
      intros [= <-]. right. right.
      exists s, idxA, idxB, (store_tape (data e2) t' (tapeSize (config e)) idxA idxB), e2.
      cbn zeta. rewrite Hx. cbn [fst].
      split; [reflexivity|]. split; [lia|]. split; [exact He2|].
      split; [|reflexivity].
      rewrite store_tape_length.
      destruct (completeEpoch_fields e1 e2 He2) as (_ & _ & _ & _ & Hl & _).
      exact Hl.
    + cbn [mbind option_bind]. intros [= <-]. right. left.
      exists s, idxA, idxB, (store_tape (data e1) t' (tapeSize (config e)) idxA idxB).
      cbn zeta. rewrite Hx. cbn [fst].
      split; [reflexivity|]. split; [lia|].
      split; [rewrite store_tape_length; reflexivity|reflexivity].
  - intros [= <-]. left. exists s. split; reflexivity.
Qed.

Lemma interact_frame fuel e e' :
  interact log2 fuel e = Some e' ->
  config e' = config e /\ width e' = width e /\ height e' = height e
  /\ epochSize e' = epochSize e /\ length (data e') = length (data e).
Proof.
  intros H. destruct (interact_cases fuel e e' H)
    as [(s & _ & ->)|[(s & a & b & d & _ & _ & Hl & ->)
                     |(s & a & b & d & e2 & _ & _ & He2 & Hl & ->)]].
  - repeat split.
  - repeat split. exact Hl.
  - destruct (completeEpoch_fields _ _ He2) as (Hc & Hw & Hh & Hs & _).
    cbn [set_data config width height epochSize data].
    rewrite Hc, Hw, Hh, Hs. repeat split. exact Hl.
Qed.

Lemma step_loop_frame n fuel : forall e e',
  step_loop log2 n fuel e = Some e' ->
  config e' = config e /\ width e' = width e /\ height e' = height e
  /\ epochSize e' = epochSize e /\ length (data e') = length (data e).
Proof.
  induction n as [|n IH]; intros e e'; cbn [step_loop].
  - intros [= <-]. repeat split.
  - destruct (interact log2 fuel e) as [e1|] eqn:H1; cbn [mbind option_bind];
      [|discriminate].
    intros H. destruct (IH _ _ H) as (Hc & Hw & Hh & Hs & Hl).
    destruct (interact_frame _ _ _ H1) as (Hc1 & Hw1 & Hh1 & Hs1 & Hl1).
    repeat split; congruence.
Qed.

(** [reset] reads the configuration, the dimensions, the epoch size and
    the length of the grid, and nothing else. *)
Lemma reset_ext e e' :
  config e = config e' -> width e = width e' -> height e = height e' ->
  epochSize e = epochSize e' -> length (data e) = length (data e') ->
  reset log2 e = reset log2 e'.
Proof.
  intros Hc Hw Hh Hs Hl. unfold reset. rewrite Hc, Hw, Hh, Hs, Hl. reflexivity.
Qed.

Lemma reset_fields e :
  config (reset log2 e) = config e /\ width (reset log2 e) = width e
  /\ height (reset log2 e) = height e /\ epochSize (reset log2 e) = epochSize e
  /\ length (data (reset log2 e)) = length (data e).
Proof.
  unfold reset.
  pose proof (fill_length (seedingMode (config e)) (length (data e))
                (PRNG.create (seed (config e)))) as Hl.
  destruct (fill _ _ _) as [d s]. cbn [fst] in Hl. repeat split. exact Hl.
Qed.

Lemma reset_idempotent e : reset log2 (reset log2 e) = reset log2 e.
Proof.
  destruct (reset_fields e) as (Hc & Hw & Hh & Hs & Hl).
  apply reset_ext; assumption.
Qed.

End Frames.

(** X8: after any number of interactions, [reset] brings the engine
    back to the state its constructor produced: grid, generator,
    statistics, history and counters. *)
Theorem reset_restores_construction log2 host (c : SimulationConfig) (n : Z) (fuel : nat)
    (e0 e : BFFSimulation) :
  new log2 host c = Some e0 ->
  step log2 n fuel e0 = Some e ->
  reset log2 e = e0.
Proof.
  intros Hnew Hstep.
  destruct (step_loop_frame log2 _ _ _ _ Hstep) as (Hc & Hw & Hh & Hs & Hl).
  rewrite (reset_ext log2 e e0 Hc Hw Hh Hs Hl).
  rewrite (new_eq log2 host c e0 Hnew). apply reset_idempotent.
Qed.

(** X8 at work: three interactions on the 4 x 4 grid, then [reset]. *)
Lemma reset_restores_construction_witness :
  valid_config cfg0 = true
  /\ forall log2, exists e0 e,
       new log2 ample_host cfg0 = Some e0
       /\ step log2 3 0 e0 = Some e
       /\ reset log2 e = e0.
Proof.
  split; [vm_compute; reflexivity|].
  intros log2.
  destruct (new_returns log2 ample_host cfg0) as [e0 He0]; [vm_compute; intuition discriminate|].
  destruct (new_fields log2 ample_host cfg0 e0 He0) as (Hc & _).
  assert (Hs : is_Some (step log2 3 0 e0))
    by (apply step_spatial_total; rewrite Hc; reflexivity).
  destruct Hs as [e He].
  exists e0, e. split; [exact He0|]. split; [exact He|].
  exact (reset_restores_construction log2 ample_host cfg0 3 0 e0 e He0 He).
Defined.

(** X9: [updateConfig] with the same width, height, tape size and seed
    only installs the new configuration; with any of them changed it
    yields the engine the constructor builds for the new configuration,
    except that [epochSize] keeps the value of the old grid. *)
Theorem updateConfig_keeps_epochSize log2 host (c : SimulationConfig) (e e' : BFFSimulation) :
  updateConfig log2 host c e = Returned e' ->
  (gridWidth c = width e /\ gridHeight c = height e
   /\ tapeSize c = tapeSize (config e) /\ seed c = seed (config e) ->
   e' = set_config e c)
  /\ (~ (gridWidth c = width e /\ gridHeight c = height e
         /\ tapeSize c = tapeSize (config e) /\ seed c = seed (config e)) ->
      exists n, new log2 host c = Some n /\ e' = with_epochSize n (epochSize e)).
Proof.
  intros H.
  apply updateConfig_returned in H as [[Hr ->]|(Hr & Hs & ->)]; unfold rebuilds in Hr.
  - split; [reflexivity|]. intros Hn. exfalso. apply Hn. lia.
  - split; [intros (H1 & H2 & H3 & H4); exfalso; lia|].
    intros _. destruct (new_returns log2 host c Hs) as [n Hn].
    exists n. split; [exact Hn|].
    rewrite (new_eq log2 host c n Hn). reflexivity.
Qed.

(** X9 at work: the 4 x 4 engine reconfigured to 2 x 2 keeps an epoch
    of 16 interactions on its 4 cells. *)
Lemma updateConfig_keeps_epochSize_witness :
  valid_config cfg_pairs = true
  /\ forall log2, exists e e' n,
       new log2 ample_host cfg0 = Some e
       /\ updateConfig log2 ample_host cfg_pairs e = Returned e'
       /\ new log2 ample_host cfg_pairs = Some n
       /\ e' = with_epochSize n 16
       /\ width e' * height e' = 4.
Proof.
  split; [vm_compute; reflexivity|].
  intros log2.
  destruct (new_returns log2 ample_host cfg0) as [e He]; [vm_compute; intuition discriminate|].
  destruct (new_fields log2 ample_host cfg0 e He) as (Hc & Hw & Hh & Hs & _).
  destruct (updateConfig log2 ample_host cfg_pairs e) as [e'|e'] eqn:Hu.
  2:{ apply updateConfig_threw in Hu as (_ & Hshort & _). exfalso.
      revert Hshort. vm_compute. intuition discriminate. }
  destruct (updateConfig_keeps_epochSize log2 ample_host cfg_pairs e e' Hu) as [_ Hreset].
  destruct Hreset as (n & Hn & ->).
  { rewrite Hw. intros (H & _). vm_compute in H. discriminate. }
  exists e, (with_epochSize n (epochSize e)), n.
  split; [exact He|]. split; [exact Hu|]. split; [exact Hn|].
  split; [rewrite Hs; reflexivity|].
  destruct (new_fields log2 ample_host cfg_pairs n Hn) as (_ & Hw' & Hh' & _).
  cbn [with_epochSize width height]. rewrite Hw', Hh'. reflexivity.
Defined.

(** ** Epochs, census and history *)

Section Chronicle.
Variable log2 : spec_float -> spec_float.
Variable host : Z -> bool.

Lemma reset_chronicle e : chronicle (reset log2 e).
Proof.
  unfold reset. destruct (fill _ _ _) as [d s].
  split; cbn [stats history epoch lastCensusEpoch head fmap option_fmap option_map].
  - lia.
  - reflexivity.
  - reflexivity.
  - intros i j a b Hi Hj Hij. destruct i, j; try lia; cbn in Hj; discriminate.
  - intros a Ha. apply list_elem_of_singleton in Ha. subst a. cbn [epoch]. lia.
  - cbn [length]. lia.
  - intros k Hk0 Hk. assert (k = 0) by lia. subst k.
    eexists. split; [apply list_elem_of_singleton; reflexivity|]. split; reflexivity.
Qed.

Lemma chronicle_same e e' :
  stats e' = stats e -> history e' = history e -> chronicle e -> chronicle e'.
Proof. intros Hs Hh [H1 H2 H3 H4 H5 H6 H7]. split; rewrite ?Hs, ?Hh; assumption. Qed.

Lemma completeEpoch_chronicle e e' :
  chronicle e -> completeEpoch log2 e = Some e' -> chronicle e'.
Proof.
  intros [H1 H2 H3 H4 H5 Hsize H6] He.
  destruct (completeEpoch_fields log2 e e' He)
    as (_ & _ & _ & _ & _ & _ & Hep & Hlc & Hh & Hcen).
  assert (Hne : exists a0 l, history e = a0 :: l /\ epoch a0 = 0).
  { destruct (history e) as [|a0 l]; [discriminate|]. exists a0, l.
    split; [reflexivity|]. cbn in H3. congruence. }
  destruct Hne as (a0 & l & Hl & Ha0).
  split.
  - lia.
  - rewrite Hlc, Hep.
    destruct (Z.eqb_spec ((epoch (stats e) + 1) mod 50) 0) as [Hz|Hz].
    + Z.div_mod_to_equations. lia.
    + rewrite H2. Z.div_mod_to_equations. lia.
  - destruct Hh as [->| ->]; [assumption|].
    rewrite Hl. cbn. congruence.
  - destruct Hh as [->| ->]; [assumption|].
    intros i j a b Hi Hj Hij.
    destruct (lookup_app_Some (history e) [stats e'] j b) as [Hcase _].
    destruct (Hcase Hj) as [Hjl|[Hjlen Hjr]].
    + apply (H4 i j a b); [|assumption|assumption].
      rewrite lookup_app_l in Hi; [assumption|].
      apply lookup_lt_Some in Hjl. lia.
    + assert (b = stats e').
      { destruct (j - length (history e))%nat; cbn in Hjr; [congruence|discriminate]. }
      subst b. rewrite Hep.
      assert (Hlen : (j = length (history e))%nat).
      { apply lookup_lt_Some in Hj. rewrite length_app in Hj. cbn in Hj. lia. }
      rewrite lookup_app_l in Hi by lia.
      apply list_elem_of_lookup_2, H5 in Hi. lia.
  - intros a Ha. rewrite Hep.
    destruct Hh as [Hh|Hh]; rewrite Hh in Ha.
    + apply H5 in Ha. lia.
    + apply elem_of_app in Ha as [Ha|Ha]; [apply H5 in Ha; lia|].
      apply list_elem_of_singleton in Ha. subst a. lia.
  - rewrite Hep. destruct Hh as [->| ->]; [lia|].
    rewrite length_app. cbn [length]. lia.
  - intros k Hk0 Hk. rewrite Hep in Hk.
    destruct (Z.le_gt_cases (50 * k) (epoch (stats e))) as [Hold|Hnew].
    + destruct (H6 k Hk0 Hold) as (a & Ha & Hea & Hla).
      exists a. split; [|split; assumption].
      destruct Hh as [->| ->]; [assumption|apply elem_of_app; left; assumption].
    + assert (Hk' : epoch (stats e) + 1 = 50 * k) by lia.
      assert (Hz : (epoch (stats e) + 1) mod 50 = 0).
      { rewrite Hk', Z.mul_comm. apply Z.mod_mul. lia. }
      exists (stats e'). rewrite (Hcen Hz).
      split; [apply elem_of_app; right; apply list_elem_of_singleton; reflexivity|].
      split; [lia|].
      rewrite Hlc. apply Z.eqb_eq in Hz. rewrite Hz. exact Hk'.
Qed.

Lemma interact_chronicle fuel e e' :
  chronicle e -> interact log2 fuel e = Some e' -> chronicle e'.
Proof.
  intros Hc H. destruct (interact_cases log2 fuel e e' H)
    as [(s & _ & ->)|[(s & a & b & d & _ & _ & _ & ->)
                     |(s & a & b & d & e2 & _ & _ & He2 & _ & ->)]].
  - apply (chronicle_same e); [reflexivity|reflexivity|exact Hc].
  - apply (chronicle_same e); [reflexivity|reflexivity|exact Hc].
  - apply (chronicle_same e2); [reflexivity|reflexivity|].
    refine (completeEpoch_chronicle _ e2 _ He2).
    apply (chronicle_same e); [reflexivity|reflexivity|exact Hc].
Qed.

Lemma updateConfig_chronicle c e e' :
  chronicle e -> updateConfig log2 host c e = Returned e' -> chronicle e'.
Proof.
  intros Hc H. apply updateConfig_returned in H as [[_ ->]|(_ & _ & ->)].
  - apply (chronicle_same e); [reflexivity|reflexivity|exact Hc].
  - apply (chronicle_same (reset log2 (blank c))); [reflexivity|reflexivity|].
    apply reset_chronicle.
Qed.

Lemma reachable_chronicle e : reachable log2 host e -> chronicle e.
Proof.
  induction 1 as [c e He|e _ _|c e e' _ IH Hu|fuel e e' _ IH Hi].
  - rewrite (new_eq log2 host c e He). apply reset_chronicle.
  - apply reset_chronicle.
  - exact (updateConfig_chronicle c e e' IH Hu).
  - exact (interact_chronicle fuel e e' IH Hi).
Qed.

(** The census of [completeEpoch]: taken anew, on the grid as the
    mutation pass left it, when the new epoch is a multiple of 50, and
    kept otherwise. *)
Lemma completeEpoch_census e e' :
  completeEpoch log2 e = Some e' ->
  exists d s,
    mutate (mutationRate (config e)) (data e) (rng e) = Some (d, s)
    /\ census (stats e')
       = if (epoch (stats e) + 1) mod 50 =? 0
         then performCensus log2 (width e) (height e) (tapeSize (config e)) d
         else census (stats e).
Proof.
  unfold completeEpoch.
  destruct (mutate _ _ _) as [[d s]|]; cbn [mbind option_bind]; [|discriminate].
  intros [= <-]. exists d, s. split; [reflexivity|].
  cbn [stats census]. rewrite rem_zero_mod. reflexivity.
Qed.

(** What one interaction does to the census. *)
Lemma interact_census fuel e e' :
  interact log2 fuel e = Some e' ->
  if negb (epoch (stats e') =? epoch (stats e)) && (epoch (stats e') mod 50 =? 0)
  then lastCensusEpoch (stats e') = epoch (stats e')
       /\ exists s cells d s',
            pick fuel e = Some (s, Some cells)
            /\ mutate (mutationRate (config e)) (data e) s = Some (d, s')
            /\ census (stats e')
               = performCensus log2 (width e) (height e) (tapeSize (config e)) d
  else census (stats e') = census (stats e)
       /\ lastCensusEpoch (stats e') = lastCensusEpoch (stats e).
Proof.
  intros H. destruct (interact_cases log2 fuel e e' H)
    as [(s & _ & ->)|[(s & a & b & d & _ & _ & _ & ->)
                     |(s & a & b & d & e2 & Hp & _ & He2 & _ & ->)]].
  - cbn [set_rng stats]. rewrite Z.eqb_refl. split; reflexivity.
  - cbn [set_data account set_rng stats]. rewrite Z.eqb_refl. split; reflexivity.
  - cbn zeta in Hp, He2.
    destruct (completeEpoch_fields log2 _ _ He2)
      as (_ & _ & _ & _ & _ & _ & Hep & Hlc & _ & _).
    destruct (completeEpoch_census _ _ He2) as (d' & s' & Hm & Hcen).
    cbn [set_data stats]. cbn [account set_rng stats config data rng width height] in *.
    rewrite Hep. destruct (Z.eqb_spec (epoch (stats e) + 1) (epoch (stats e))); [lia|].
    cbn [negb andb]. rewrite Hlc, Hcen.
    destruct ((epoch (stats e) + 1) mod 50 =? 0).
    + split; [reflexivity|]. exists s, (a, b), d', s'.
      split; [exact Hp|]. split; [exact Hm|reflexivity].
    + split; reflexivity.
Qed.

(** How one interaction moves the count of executed interactions. *)
Lemma interact_count fuel e e' :
  0 <= epochInteractions e < epochSize e ->
  interact log2 fuel e = Some e' ->
  exists k,
    0 <= k <= 1
    /\ epoch (stats e') * epochSize e + epochInteractions e'
       = epoch (stats e) * epochSize e + epochInteractions e + k
    /\ 0 <= epochInteractions e' < epochSize e
    /\ (topology (config e) = global -> k = 1).
Proof.
  intros Hr H. destruct (interact_cases log2 fuel e e' H)
    as [(s & Hp & ->)|[(s & a & b & d & _ & Hlt & _ & ->)
                      |(s & a & b & d & e2 & _ & Hge & He2 & _ & ->)]].
  - exists 0. cbn [set_rng stats epochInteractions].
    split; [lia|]. split; [lia|]. split; [lia|].
    intros Hg. exfalso. unfold pick in Hp. rewrite Hg in Hp.
    destruct (PRNG.next (rng e)) as [s1 r1]. destruct (PRNG.next s1) as [s2 r2].
    destruct (pick_global _ _ _ _ _ _) as [[[s3 nx] ny]|];
      cbn [mbind option_bind] in Hp; discriminate.
  - exists 1. cbn [set_data account set_rng stats epochInteractions].
    split; [lia|]. split; [lia|]. split; [lia|]. reflexivity.
  - exists 1.
    destruct (completeEpoch_fields log2 _ _ He2) as (_ & _ & _ & _ & _ & Hi0 & Hep & _).
    cbn [set_data stats epochInteractions]. rewrite Hi0, Hep.
    cbn [account set_rng stats].
    split; [lia|]. split; [nia|]. split; [lia|]. reflexivity.
Qed.

Lemma step_loop_count n fuel : forall e e',
  0 <= epochInteractions e < epochSize e ->
  step_loop log2 n fuel e = Some e' ->
  exists k,
    0 <= k <= Z.of_nat n
    /\ epoch (stats e') * epochSize e + epochInteractions e'
       = epoch (stats e) * epochSize e + epochInteractions e + k
    /\ 0 <= epochInteractions e' < epochSize e
    /\ (topology (config e) = global -> k = Z.of_nat n).
Proof.
  induction n as [|n IH]; intros e e' Hr; cbn [step_loop].
  - intros [= <-]. exists 0. repeat split; lia.
  - destruct (interact log2 fuel e) as [e1|] eqn:H1; cbn [mbind option_bind];
      [|discriminate].
    intros H.
    destruct (interact_count fuel e e1 Hr H1) as (k1 & Hk1 & Hsum1 & Hr1 & Hg1).
    destruct (interact_frame log2 fuel e e1 H1) as (Hc & _ & _ & Hs & _).
    rewrite <- Hs in Hr1.
    destruct (IH e1 e' Hr1 H) as (k & Hk & Hsum & Hr' & Hg).
    rewrite Hs in Hsum, Hr'. rewrite Hc in Hg.
    exists (k1 + k). split; [lia|]. split; [lia|]. split; [lia|].
    intros Hglobal. rewrite (Hg1 Hglobal), (Hg Hglobal). lia.
Qed.

End Chronicle.

(** X10: from a fresh engine over [W * H > 0] cells, [n] interactions
    leave [0 <= epochInteractions < W * H] and
    [epoch * W * H + epochInteractions <= n]; under the global topology,
    where no interaction is abandoned, [epoch = n div (W * H)] and
    [epochInteractions = n mod (W * H)]. *)
Theorem epochs_count_interactions log2 host (c : SimulationConfig) (n : Z) (fuel : nat)
    (e0 e : BFFSimulation) :
  new log2 host c = Some e0 ->
  0 < gridWidth c * gridHeight c ->
  0 <= n ->
  step log2 n fuel e0 = Some e ->
  let cells := gridWidth c * gridHeight c in
  0 <= epochInteractions e < cells
  /\ epoch (stats e) * cells + epochInteractions e <= n
  /\ (topology c = global ->
      epoch (stats e) = n / cells /\ epochInteractions e = n mod cells).
Proof.
  intros Hnew Hpos Hn Hstep. cbn zeta.
  destruct (new_fields log2 host c e0 Hnew) as (Hc & _ & _ & Hs & _ & Hi0 & Hep0).
  destruct (step_loop_count log2 (Z.to_nat n) fuel e0 e) as (k & Hk & Hsum & Hr & Hg).
  { rewrite Hi0, Hs. lia. }
  { exact Hstep. }
  rewrite Hs, Hi0, Hep0 in Hsum. rewrite Hs in Hr. rewrite Hc in Hg.
  rewrite Z2Nat.id in Hk, Hg by lia.
  split; [exact Hr|]. split; [lia|].
  intros Hglobal. specialize (Hg Hglobal). subst k.
  assert (Hdm : n = (gridWidth c * gridHeight c) * epoch (stats e) + epochInteractions e) by lia.
  split.
  - apply (Z.div_unique_pos n _ _ (epochInteractions e)); [lia|exact Hdm].
  - apply (Z.mod_unique_pos n _ (epoch (stats e))); [lia|exact Hdm].
Qed.

Lemma epochs_count_interactions_witness :
  valid_config cfg_soup = true
  /\ forall log2, exists e0 e,
       new log2 ample_host cfg_soup = Some e0
       /\ step log2 9 8 e0 = Some e
       /\ 0 <= epochInteractions e < 4
       /\ epoch (stats e) * 4 + epochInteractions e <= 9
       /\ (topology cfg_soup = global ->
           epoch (stats e) = 9 / 4 /\ epochInteractions e = 9 mod 4).
Proof.
  split; [vm_compute; reflexivity|].
  intros log2.
  destruct (new_returns log2 ample_host cfg_soup) as [e0 He0]; [vm_compute; intuition discriminate|].
  assert (Hf : (e ← step log2 9 8 e0; Some (epochInteractions e)) = Some 1).
  { rewrite (new_eq log2 ample_host cfg_soup e0 He0). vm_compute. reflexivity. }
  destruct (step log2 9 8 e0) as [e|] eqn:Hs; cbn [mbind option_bind] in Hf;
    [|discriminate].
  exists e0, e. split; [exact He0|]. split; [exact Hs|].
  apply (epochs_count_interactions log2 ample_host cfg_soup 9 8 e0 e He0); [reflexivity|lia|exact Hs].
Defined.


(** The 2 x 2 soup seeded with 5, at the last interaction of its 50th
    epoch. *)
Lemma soup_census_epoch log2 :
  exists e0 e e' s cells,
    new log2 ample_host cfg_soup = Some e0
    /\ step log2 199 8 e0 = Some e
    /\ interact log2 8 e = Some e'
    /\ reachable log2 ample_host e
    /\ pick 8 e = Some (s, Some cells)
    /\ (config e = cfg_soup /\ width e = 2 /\ height e = 2)
    /\ (epoch (stats e) = 49 /\ lastCensusEpoch (stats e) = 0)
    /\ (epoch (stats e') = 50 /\ lastCensusEpoch (stats e') = 50).
Proof.
  destruct (new_returns log2 ample_host cfg_soup) as [e0 He0]; [vm_compute; intuition discriminate|].
  assert (Hf :
    (e ← step log2 199 8 e0;
     e' ← interact log2 8 e;
     Some (snd <$> pick 8 e, width e, height e,
           epoch (stats e), lastCensusEpoch (stats e),
           epoch (stats e'), lastCensusEpoch (stats e')))
    = Some (Some (Some (Some 2, Some 4)), 2, 2, 49, 0, 50, 50)).
  { rewrite (new_eq log2 ample_host cfg_soup e0 He0). vm_compute. reflexivity. }
  destruct (step log2 199 8 e0) as [e|] eqn:Hs; cbn [mbind option_bind] in Hf;
    [|discriminate].
  destruct (interact log2 8 e) as [e'|] eqn:Hi; cbn [mbind option_bind] in Hf;
    [|discriminate].
  apply (f_equal (default (None, 0, 0, 0, 0, 0, 0))) in Hf. cbn [default id] in Hf.
  pose proof (f_equal snd Hf) as H7.
  pose proof (f_equal (fun p => snd (fst p)) Hf) as H6.
  pose proof (f_equal (fun p => snd (fst (fst p))) Hf) as H5.
  pose proof (f_equal (fun p => snd (fst (fst (fst p)))) Hf) as H4.
  pose proof (f_equal (fun p => snd (fst (fst (fst (fst p))))) Hf) as H3.
  pose proof (f_equal (fun p => snd (fst (fst (fst (fst (fst p)))))) Hf) as H2.
  pose proof (f_equal (fun p => fst (fst (fst (fst (fst (fst p)))))) Hf) as H1.
  cbn [fst snd] in H1, H2, H3, H4, H5, H6, H7. clear Hf.
  destruct (pick 8 e) as [[s cells]|] eqn:Hp;
    cbn [fmap option_fmap option_map snd] in H1; [|discriminate].
  injection H1 as ->.
  exists e0, e, e', s, (Some 2, Some 4).
  split; [exact He0|]. split; [exact Hs|]. split; [exact Hi|].
  split.
  { exact (step_reachable log2 ample_host _ _ _ _
             (reach_new log2 ample_host cfg_soup e0 He0) Hs). }
  split; [exact Hp|].
  split.
  { split; [|split; assumption].
    rewrite (step_loop_config log2 _ _ _ _ Hs).
    apply (new_fields log2 ample_host cfg_soup e0 He0). }
  split; split; assumption.
Qed.

(** X12: on every engine reached through the public operations (by
    calls that returned), [lastCensusEpoch] is the last multiple of 50 at
    or before the current epoch, so the census held in the statistics is
    never more than 49 epochs old; and an interaction replaces that
    census exactly when it completes an epoch whose number is a multiple
    of 50, by the census of the grid as that epoch's mutation pass left
    it (before the interaction's write-back), and keeps it otherwise. *)
Theorem census_is_recent log2 host (e : BFFSimulation) :
  reachable log2 host e ->
  (lastCensusEpoch (stats e) mod 50 = 0
   /\ 0 <= lastCensusEpoch (stats e) <= epoch (stats e)
   /\ epoch (stats e) < lastCensusEpoch (stats e) + 50)
  /\ forall fuel e',
       interact log2 fuel e = Some e' ->
       if negb (epoch (stats e') =? epoch (stats e)) && (epoch (stats e') mod 50 =? 0)
       then lastCensusEpoch (stats e') = epoch (stats e')
            /\ exists s cells d s',
                 pick fuel e = Some (s, Some cells)
                 /\ mutate (mutationRate (config e)) (data e) s = Some (d, s')
                 /\ census (stats e')
                    = performCensus log2 (width e) (height e) (tapeSize (config e)) d
       else census (stats e') = census (stats e)
            /\ lastCensusEpoch (stats e') = lastCensusEpoch (stats e).
Proof.
  intros Hr. split.
  - destruct (reachable_chronicle log2 host e Hr) as [H1 H2 _ _ _ _ _].
    rewrite H2. Z.div_mod_to_equations. lia.
  - intros fuel e'. apply interact_census.
Qed.

(** X12 at work: the 200th interaction of the 2 x 2 grid completes epoch
    50 and takes a new census, of the grid as it is before the
    write-back (the mutation rate is zero). *)
Lemma census_is_recent_witness :
  valid_config cfg_soup = true
  /\ forall log2, exists e0 e e',
       new log2 ample_host cfg_soup = Some e0
       /\ step log2 199 8 e0 = Some e
       /\ interact log2 8 e = Some e'
       /\ epoch (stats e) = 49 /\ lastCensusEpoch (stats e) = 0
       /\ lastCensusEpoch (stats e) mod 50 = 0
       /\ epoch (stats e) < lastCensusEpoch (stats e) + 50
       /\ epoch (stats e') = 50 /\ lastCensusEpoch (stats e') = 50
       /\ census (stats e') = performCensus log2 2 2 2 (data e).
Proof.
  split; [vm_compute; reflexivity|].
  intros log2.
  destruct (soup_census_epoch log2)
    as (e0 & e & e' & s & cells & He0 & Hs & Hi & Hr & Hp & (Hc & Hw & Hh)
        & (Hep & Hlc) & (Hep' & Hlc')).
  exists e0, e, e'. split; [exact He0|]. split; [exact Hs|]. split; [exact Hi|].
  split; [exact Hep|]. split; [exact Hlc|].
  destruct (census_is_recent log2 ample_host e Hr) as ((Hm & _ & Hlt) & Hstep).
  split; [exact Hm|]. split; [exact Hlt|].
  split; [exact Hep'|]. split; [exact Hlc'|].
  specialize (Hstep 8%nat e' Hi). rewrite Hep', Hep in Hstep.
  change (negb (50 =? 49) && (50 mod 50 =? 0)) with true in Hstep.
  destruct Hstep as (_ & s1 & cells1 & d & s' & Hp1 & Hmut & Hcen).
  rewrite Hc in Hmut, Hcen. rewrite Hw, Hh in Hcen.
  rewrite mutate_off in Hmut by reflexivity. injection Hmut as <- _.
  exact Hcen.
Defined.

(** X13: on every engine reached through the public operations, the
    history starts with the epoch-0 baseline, its epochs increase
    strictly, none is later than the current epoch, and it holds at most
    [epoch + 1] snapshots. *)
Theorem history_is_chronological log2 host (e : BFFSimulation) :
  reachable log2 host e ->
  epoch <$> head (history e) = Some 0
  /\ (forall i j a b,
        history e !! i = Some a -> history e !! j = Some b -> (i < j)%nat ->
        epoch a < epoch b)
  /\ (forall a, a ∈ history e -> 0 <= epoch a <= epoch (stats e))
  /\ Z.of_nat (length (history e)) <= epoch (stats e) + 1.
Proof.
  intros Hr. destruct (reachable_chronicle log2 host e Hr) as [H1 H2 H3 H4 H5 Hlen H6].
  split; [exact H3|]. split; [exact H4|]. split; [|exact Hlen].
  intros a Ha. split; [|exact (H5 a Ha)].
  apply list_elem_of_lookup_1 in Ha as [j Hj].
  destruct (history e) as [|a0 l] eqn:Hl; [discriminate|].
  cbn in H3. destruct j as [|j].
  - cbn in Hj. injection Hj as <-. injection H3 as ->. lia.
  - assert (epoch a0 < epoch a) by (apply (H4 O (S j) a0 a); [reflexivity|exact Hj|lia]).
    injection H3 as H3. lia.
Qed.

(** X13 at work, after 50 epochs of the 2 x 2 grid. *)
Lemma history_is_chronological_witness :
  valid_config cfg_soup = true
  /\ forall log2, exists e,
       reachable log2 ample_host e
       /\ epoch (stats e) = 50
       /\ epoch <$> head (history e) = Some 0
       /\ (forall i j a b,
             history e !! i = Some a -> history e !! j = Some b -> (i < j)%nat ->
             epoch a < epoch b)
       /\ (forall a, a ∈ history e -> 0 <= epoch a <= epoch (stats e))
       /\ Z.of_nat (length (history e)) <= epoch (stats e) + 1.
Proof.
  split; [vm_compute; reflexivity|].
  intros log2.
  destruct (soup_census_epoch log2)
    as (e0 & e & e' & s & cells & _ & _ & Hi & Hr & _ & _ & _ & (Hep' & _)).
  pose proof (reach_interact log2 ample_host 8 e e' Hr Hi) as Hr'.
  exists e'. split; [exact Hr'|]. split; [exact Hep'|].
  exact (history_is_chronological log2 ample_host e' Hr').
Defined.

(** X14: on every engine reached through the public operations (by
    calls that returned), every census epoch up to the current one
    (every multiple of 50, the baseline included) has its snapshot in the
    history, and that snapshot records the epoch as the one of its census
    ([lastCensusEpoch]). *)
Theorem census_epochs_are_logged log2 host (e : BFFSimulation) (k : Z) :
  reachable log2 host e ->
  0 <= k -> 50 * k <= epoch (stats e) ->
  exists a, a ∈ history e /\ epoch a = 50 * k /\ lastCensusEpoch a = 50 * k.
Proof.
  intros Hr. destruct (reachable_chronicle log2 host e Hr) as [_ _ _ _ _ _ H6]. apply H6.
Qed.

(** X14 at work: the snapshot of epoch 50, after 200 interactions of the
    2 x 2 grid. *)
Lemma census_epochs_are_logged_witness :
  valid_config cfg_soup = true
  /\ forall log2, exists e,
       reachable log2 ample_host e
       /\ epoch (stats e) = 50
       /\ exists a, a ∈ history e /\ epoch a = 50 * 1 /\ lastCensusEpoch a = 50 * 1.
Proof.
  split; [vm_compute; reflexivity|].
  intros log2.
  destruct (soup_census_epoch log2)
    as (e0 & e & e' & s & cells & _ & _ & Hi & Hr & _ & _ & _ & (Hep' & _)).
  pose proof (reach_interact log2 ample_host 8 e e' Hr Hi) as Hr'.
  exists e'. split; [exact Hr'|]. split; [exact Hep'|].
  apply (census_epochs_are_logged log2 ample_host e' 1 Hr'); [lia|rewrite Hep'; lia].
Defined.

Section Accumulators.
Variable log2 : spec_float -> spec_float.

Lemma completeEpoch_accumulators e e' :
  completeEpoch log2 e = Some e' ->
  epochInteractions e' = 0 /\ epochTotalComplexity e' = 0
  /\ epochTotalCopies e' = 0 /\ epochTotalEffectiveCopies e' = 0.
Proof.
  unfold completeEpoch.
  destruct (mutate _ _ _) as [[d s]|]; cbn [mbind option_bind]; [|discriminate].
  intros [= <-]. repeat split.
Qed.

Lemma interact_accumulators fuel e e' :
  accumulators_bounded (instructionLimit (config e)) e ->
  interact log2 fuel e = Some e' ->
  accumulators_bounded (instructionLimit (config e)) e'.
Proof.
  intros Ha H. destruct (interact_cases log2 fuel e e' H)
    as [(s & _ & ->)|[(s & a & b & d & _ & _ & _ & ->)
                     |(s & a & b & d & e2 & _ & _ & He2 & _ & ->)]].
  - exact Ha.
  - pose proof (execute_grows (tapeSize (config e)) (instructionLimit (config e))
                  (load_tape (data e) (tapeSize (config e)) a b)) as Hg.
    unfold accumulators_bounded, grows in *.
    cbn [set_data account set_rng epochInteractions epochTotalComplexity
         epochTotalCopies epochTotalEffectiveCopies].
    cbn [VM.complexity VM.copies VM.neighborWrites] in Hg.
    rewrite Z.mul_add_distr_r. lia.
  - destruct (completeEpoch_accumulators _ _ He2) as (H1 & H2 & H3 & H4).
    unfold accumulators_bounded.
    cbn [set_data epochInteractions epochTotalComplexity
         epochTotalCopies epochTotalEffectiveCopies].
    rewrite H1, H2, H3, H4. lia.
Qed.

Lemma step_loop_accumulators n fuel : forall e e',
  accumulators_bounded (instructionLimit (config e)) e ->
  step_loop log2 n fuel e = Some e' ->
  accumulators_bounded (instructionLimit (config e)) e'.
Proof.
  induction n as [|n IH]; intros e e' Ha; cbn [step_loop].
  - intros [= <-]. exact Ha.
  - destruct (interact log2 fuel e) as [e1|] eqn:H1; cbn [mbind option_bind];
      [|discriminate].
    intros H.
    destruct (interact_frame log2 fuel e e1 H1) as (Hc & _).
    rewrite <- Hc. apply IH; [|exact H].
    rewrite Hc. exact (interact_accumulators fuel e e1 Ha H1).
Qed.

End Accumulators.

(** X11: from a fresh engine, any number of interactions leaves the
    accumulators of the running epoch ordered and bounded:
    [0 <= effective copies <= copies <= complexity
       <= epochInteractions * max(0, instructionLimit)]. *)
Theorem accumulators_stay_bounded log2 host (c : SimulationConfig) (n : Z) (fuel : nat)
    (e0 e : BFFSimulation) :
  new log2 host c = Some e0 ->
  step log2 n fuel e0 = Some e ->
  0 <= epochTotalEffectiveCopies e <= epochTotalCopies e
  /\ epochTotalCopies e <= epochTotalComplexity e
  /\ epochTotalComplexity e <= epochInteractions e * Z.max 0 (instructionLimit c).
Proof.
  intros Hnew Hstep.
  destruct (new_fields log2 host c e0 Hnew) as (Hc & _ & _ & _ & _ & Hi0 & _).
  assert (H0 : accumulators_bounded (instructionLimit (config e0)) e0).
  { rewrite (new_eq log2 host c e0 Hnew). unfold accumulators_bounded, reset.
    destruct (fill _ _ _) as [d s].
    cbn [epochInteractions epochTotalComplexity epochTotalCopies
         epochTotalEffectiveCopies]. lia. }
  pose proof (step_loop_accumulators log2 _ fuel e0 e H0 Hstep) as (_ & H1 & H2 & H3).
  rewrite Hc in H3. repeat split; try apply H1; assumption.
Qed.

(** X11 at work: three interactions of the 2 x 2 grid. *)
Lemma accumulators_stay_bounded_witness :
  valid_config cfg_soup = true
  /\ forall log2, exists e0 e,
       new log2 ample_host cfg_soup = Some e0
       /\ step log2 3 8 e0 = Some e
       /\ epochInteractions e = 3
       /\ 0 <= epochTotalEffectiveCopies e <= epochTotalCopies e
       /\ epochTotalCopies e <= epochTotalComplexity e
       /\ epochTotalComplexity e <= epochInteractions e * Z.max 0 (instructionLimit cfg_soup).
Proof.
  split; [vm_compute; reflexivity|].
  intros log2.
  destruct (new_returns log2 ample_host cfg_soup) as [e0 He0]; [vm_compute; intuition discriminate|].
  assert (Hf : (e ← step log2 3 8 e0; Some (epochInteractions e)) = Some 3).
  { rewrite (new_eq log2 ample_host cfg_soup e0 He0). vm_compute. reflexivity. }
  destruct (step log2 3 8 e0) as [e|] eqn:Hs; cbn [mbind option_bind] in Hf;
    [|discriminate].
  exists e0, e. split; [exact He0|]. split; [exact Hs|]. split; [congruence|].
  exact (accumulators_stay_bounded log2 ample_host cfg_soup 3 8 e0 e He0 Hs).
Defined.

(** ** The census and the entropies *)

Section Ranking.

Lemma ranked_cons x l :
  ranked (x :: l) <-> (forall y, y ∈ l -> y.2 <= x.2) /\ ranked l.
Proof.
  split.
  - intros H. split.
    + intros y Hy. apply list_elem_of_lookup_1 in Hy as [j Hj].
      apply (H O (S j) x y); [reflexivity|exact Hj|lia].
    + intros i j a b Hi Hj Hij. apply (H (S i) (S j) a b); [exact Hi|exact Hj|lia].
  - intros [Hx Hl] i j a b Hi Hj Hij.
    destruct i as [|i], j as [|j]; try lia.
    + cbn in Hi. injection Hi as <-. apply Hx. apply (list_elem_of_lookup_2 _ j). exact Hj.
    + apply (Hl i j a b); [exact Hi|exact Hj|lia].
Qed.

Lemma sort_insert_perm x l : sort_insert x l ≡ₚ x :: l.
Proof.
  induction l as [|y l IH]; cbn [sort_insert]; [reflexivity|].
  destruct (_ <=? 0); [reflexivity|].
  rewrite IH. apply Permutation_swap.
Qed.

Lemma sort_species_perm l : sort_species l ≡ₚ l.
Proof.
  induction l as [|x l IH]; cbn [sort_species foldr]; [reflexivity|].
  fold (sort_species l). rewrite sort_insert_perm, IH. reflexivity.
Qed.

Lemma sort_insert_ranked x l : ranked l -> ranked (sort_insert x l).
Proof.
  induction l as [|y l IH]; cbn [sort_insert]; intros Hl.
  - apply ranked_cons. split; [|exact Hl]. intros y Hy. apply elem_of_nil in Hy. contradiction.
  - apply ranked_cons in Hl as [Hy Hl].
    destruct (Z.leb_spec (y.2 - x.2) 0) as [Hle|Hgt].
    + apply ranked_cons. split.
      * intros z Hz. apply elem_of_cons in Hz as [->|Hz]; [lia|].
        specialize (Hy z Hz). lia.
      * apply ranked_cons. split; assumption.
    + apply ranked_cons. split.
      * intros z Hz. apply sort_insert_elem in Hz as [->|Hz]; [lia|apply Hy; exact Hz].
      * apply IH. exact Hl.
Qed.

Lemma sort_species_ranked l : ranked (sort_species l).
Proof.
  induction l as [|x l IH]; cbn [sort_species foldr].
  - intros i j x y Hi. destruct i; discriminate.
  - apply sort_insert_ranked. exact IH.
Qed.

(** The keys of the species map are the genomes met. *)
Lemma census_keys gs : forall m k,
  k ∈ (fold_left (fun m g => species_bump g m) gs m).*1 <-> k ∈ gs \/ k ∈ m.*1.
Proof.
  induction gs as [|g gs IH]; intros m k; cbn [fold_left].
  - split; [intros H; right; exact H|intros [H|H]; [apply elem_of_nil in H; contradiction|exact H]].
  - rewrite IH, species_bump_fst, elem_of_cons. tauto.
Qed.

End Ranking.

Section CensusShape.
Variable log2 : spec_float -> spec_float.
Variable w : Z.
Variable h : Z.
Variable tapeSize : Z.
Variable d : list Z.

Local Abbreviation gs := (sampled_genomes w h tapeSize d).
Local Abbreviation m := (fold_left (fun m g => species_bump g m) gs []).

Lemma performCensus_fold :
  performCensus log2 w h tapeSize d
  = {| speciesCount := Z.of_nat (length m);
       topSpecies := imap (species_record log2 (w * h) (Z.of_nat (length gs)))
                          (take 5 (sort_species m)) |}.
Proof.
  unfold performCensus. rewrite sample_step_11.
  rewrite census_loop_fold by lia.
  set (idxs := stride_from 0 (w * h) 11).
  assert (Hfold :
    fold_left (fun m j => species_bump (Js.slice d (j * tapeSize) (j * tapeSize + tapeSize)) m)
              idxs []
    = m).
  { unfold m, gs, sampled_genomes, stride_indices. fold idxs.
    generalize (@nil (list Z * Z)). induction idxs as [|j idxs IH]; intros m0;
      cbn [fold_left map]; [reflexivity|]. apply IH. }
  rewrite Hfold.
  assert (Hlen : length idxs = length gs)
    by (unfold gs, sampled_genomes, stride_indices; rewrite length_map; reflexivity).
  rewrite Hlen, Z.add_0_l. reflexivity.
Qed.

Lemma map_keys_nodup : NoDup m.*1.
Proof. exact (proj1 (census_fold gs [] [] (NoDup_nil_2))). Qed.

Lemma map_counts entry :
  entry ∈ m -> entry.2 = Z.of_nat (count_occ genome_eq_dec gs entry.1).
Proof.
  intros Hin. rewrite (held_entry m entry map_keys_nodup Hin).
  destruct (census_fold gs [] entry.1 (NoDup_nil_2)) as [_ Hheld].
  fold m in Hheld. rewrite Hheld. cbn [held]. lia.
Qed.

Lemma map_keys k : k ∈ m.*1 <-> k ∈ gs.
Proof.
  unfold m. rewrite census_keys. cbn [fmap list_fmap].
  split; [intros [H|H]; [exact H|apply elem_of_nil in H; contradiction]|intros H; left; exact H].
Qed.

Lemma map_size : length m = length (remove_dups gs).
Proof.
  rewrite <- (length_fmap fst m). apply Permutation_length.
  apply NoDup_Permutation; [exact map_keys_nodup|apply NoDup_remove_dups|].
  intros k. rewrite map_keys, elem_of_remove_dups. reflexivity.
Qed.

End CensusShape.

(** X15: [performCensus] reports as [speciesCount] the number of
    distinct genomes among the sampled cells, and as [topSpecies] the
    [min(5, speciesCount)] most frequent of them: ranked [1, 2, ...],
    pairwise distinct, in non-increasing order of their number of
    sampled cells, and no genome left out was sampled more often than a
    ranked one. *)
Theorem census_ranks_the_sample log2 (w h tapeSize : Z) (d : list Z) :
  let cen := performCensus log2 w h tapeSize d in
  let sample := sampled_genomes w h tapeSize d in
  let seen g := Z.of_nat (count_occ genome_eq_dec sample g) in
  speciesCount cen = Z.of_nat (length (remove_dups sample))
  /\ length (topSpecies cen) = Nat.min 5 (length (remove_dups sample))
  /\ NoDup (code <$> topSpecies cen)
  /\ (forall i r, topSpecies cen !! i = Some r ->
        rank r = Z.of_nat i + 1 /\ code r ∈ sample)
  /\ (forall i j r r', topSpecies cen !! i = Some r -> topSpecies cen !! j = Some r' ->
        (i < j)%nat -> seen (code r') <= seen (code r))
  /\ (forall r g, r ∈ topSpecies cen -> g ∈ sample -> g ∉ code <$> topSpecies cen ->
        seen g <= seen (code r)).
Proof.
  cbn zeta. rewrite performCensus_fold. cbn [speciesCount topSpecies].
  set (gs := sampled_genomes w h tapeSize d).
  set (m := fold_left (fun m g => species_bump g m) gs []).
  set (sorted := sort_species m).
  pose proof (sort_species_perm m) as Hperm. fold sorted in Hperm.
  pose proof (sort_species_ranked m) as Hrank. fold sorted in Hrank.
  pose proof (map_keys_nodup w h tapeSize d) as Hnd. fold gs m in Hnd.
  pose proof (map_size w h tapeSize d) as Hsize. fold gs m in Hsize.
  assert (Hcount : forall entry, entry ∈ sorted ->
            entry.2 = Z.of_nat (count_occ genome_eq_dec gs entry.1)).
  { intros entry He. apply (map_counts w h tapeSize d). fold gs m.
    rewrite <- Hperm. exact He. }
  assert (Hcodes : code <$> imap (species_record log2 (w * h) (Z.of_nat (length gs)))
                                 (take 5 sorted)
                   = (take 5 sorted).*1).
  { generalize (take 5 sorted). intros l.
    change (code <$> imap (species_record log2 (w * h) (Z.of_nat (length gs))) l)
      with (fmap code (imap (species_record log2 (w * h) (Z.of_nat (length gs))) l)).
    rewrite fmap_imap. unfold compose. cbn [code species_record].
    clear. generalize 0%nat. induction l as [|x l IH]; intros k; cbn; [reflexivity|].
    f_equal. rewrite <- (IH (S k)). apply imap_ext. reflexivity. }
  assert (Hsnd : NoDup sorted.*1) by (rewrite Hperm; exact Hnd).
  split; [f_equal; exact Hsize|].
  split.
  { rewrite length_imap, length_take, <- Hsize, <- (Permutation_length Hperm).
    reflexivity. }
  split.
  { rewrite Hcodes, fmap_take.
    rewrite <- (take_drop 5 sorted.*1) in Hsnd.
    apply NoDup_app in Hsnd as [Htake _]. exact Htake. }
  split.
  { intros i r Hi. apply list_lookup_imap_Some in Hi as (entry & Hi & ->).
    cbn [rank code species_record]. split; [reflexivity|].
    apply (map_keys w h tapeSize d). fold gs m.
    apply list_elem_of_fmap. exists entry. split; [reflexivity|].
    rewrite <- Hperm. apply list_elem_of_lookup_2 in Hi. apply subseteq_take in Hi. exact Hi. }
  split.
  { intros i j r r' Hi Hj Hij.
    apply list_lookup_imap_Some in Hi as (x & Hi & ->).
    apply list_lookup_imap_Some in Hj as (y & Hj & ->).
    cbn [code species_record].
    rewrite lookup_take_Some in Hi, Hj. destruct Hi as [Hi _], Hj as [Hj _].
    rewrite <- (Hcount x), <- (Hcount y)
      by (eapply list_elem_of_lookup_2; eassumption).
    exact (Hrank i j x y Hi Hj Hij). }
  intros r g Hr Hg Hout.
  apply list_elem_of_lookup_1 in Hr as [i Hi].
  apply list_lookup_imap_Some in Hi as (x & Hi & ->).
  cbn [code species_record].
  rewrite lookup_take_Some in Hi. destruct Hi as [Hi Hi5].
  rewrite Hcodes in Hout.
  apply (map_keys w h tapeSize d) in Hg. fold gs m in Hg.
  apply list_elem_of_fmap in Hg as (y & -> & Hy).
  rewrite <- Hperm in Hy.
  apply list_elem_of_lookup_1 in Hy as [j Hj].
  rewrite <- (Hcount x), <- (Hcount y) by (eapply list_elem_of_lookup_2; eassumption).
  destruct (Nat.lt_ge_cases j 5) as [Hj5|Hj5].
  - exfalso. apply Hout. apply list_elem_of_fmap. exists y. split; [reflexivity|].
    apply (list_elem_of_lookup_2 _ j). rewrite lookup_take_Some. split; [exact Hj|exact Hj5].
  - apply (Hrank i j x y Hi Hj). lia.
Qed.

Lemma histogram_perm g g' : g ≡ₚ g' -> histogram g = histogram g'.
Proof.
  intros Hp. unfold histogram. apply List.map_ext. intros v. f_equal.
  apply (proj1 (Permutation_count_occ Z.eq_dec g g')). exact Hp.
Qed.

(** X16: the entropy of a genome does not depend on the order of its
    bytes. *)
Theorem genome_entropy_ignores_order log2 (g g' : list Z) :
  g ≡ₚ g' ->
  calculateGenomeEntropy log2 g = calculateGenomeEntropy log2 g'.
Proof.
  intros Hp. unfold calculateGenomeEntropy.
  rewrite !tally_histogram, (histogram_perm g g' Hp), (Permutation_length Hp).
  reflexivity.
Qed.

Lemma genome_entropy_ignores_order_witness :
  [43; 91; 43; 0] ≡ₚ [0; 43; 43; 91]
  /\ forall log2,
       calculateGenomeEntropy log2 [43; 91; 43; 0] = calculateGenomeEntropy log2 [0; 43; 43; 91].
Proof.
  assert (Hp : [43; 91; 43; 0] ≡ₚ [0; 43; 43; 91]).
  { apply (proj2 (Permutation_count_occ Z.eq_dec _ _)). intros x.
    cbn [count_occ]. repeat destruct (Z.eq_dec _ x); try lia. }
  split; [exact Hp|].
  intros log2. apply (genome_entropy_ignores_order log2 _ _ Hp).
Defined.

(** X17: the sampled metrics of the current engine are the metrics the
    earlier engine computes on the sampled bytes alone. *)
Theorem sampled_metrics_are_earlier_metrics log2 (d : list Z) :
  calculateGridMetrics log2 d = Earlier.calculateGridMetrics log2 (sampled_bytes d).
Proof.
  assert (Hfull : forall l,
    tally_loop (length l) l 1 0 (replicate 256 0) 0
    = (histogram (map (fun j => TypedArray.elem (TypedArray.get l (Z.of_nat j)))
                      (seq 0 (length l))),
       Z.of_nat (length l))).
  { intros l. rewrite tally_loop_fold by lia.
    rewrite tally_indices
      by (intros j Hj; apply (stride_from_range 0 _ 1); (assumption || lia)).
    rewrite tally_histogram. unfold stride_from.
    replace (Z.to_nat ((Z.of_nat (length l) - 0 + 1 - 1) / 1)) with (length l)
      by (rewrite Z.div_1_r; lia).
    rewrite length_map, length_seq, map_map. f_equal. f_equal.
    apply List.map_ext. intros j. do 2 f_equal. lia. }
  assert (Hid : forall l,
    map (fun j => TypedArray.elem (TypedArray.get l (Z.of_nat j))) (seq 0 (length l)) = l).
  { intros l. apply list_eq. intros i.
    change (map ?f ?x) with (f <$> x). rewrite list_lookup_fmap.
    destruct (Nat.lt_ge_cases i (length l)) as [Hi|Hi].
    - rewrite lookup_seq_lt by lia. cbn [fmap option_fmap option_map Nat.add].
      unfold TypedArray.get. destruct (Z.ltb_spec (Z.of_nat i) 0); [lia|].
      rewrite Nat2Z.id. destruct (l !! i) eqn:Hl; [reflexivity|].
      apply lookup_ge_None in Hl. lia.
    - rewrite lookup_seq_ge by lia.
      symmetry. apply lookup_ge_None. exact Hi. }
  unfold Earlier.calculateGridMetrics. rewrite Hfull, Hid.
  unfold calculateGridMetrics. rewrite sample_step_11.
  rewrite tally_loop_fold by lia.
  rewrite tally_indices by (intros j Hj; apply (stride_from_range 0 _ 11); (assumption || lia)).
  fold (stride_indices (Z.of_nat (length d)) 11). fold (sampled_bytes d).
  rewrite tally_histogram.
  assert (Hlen : length (stride_indices (Z.of_nat (length d)) 11) = length (sampled_bytes d))
    by (unfold sampled_bytes; rewrite length_map; reflexivity).
  rewrite Hlen, Z.add_0_l. reflexivity.
Qed.

(** X18: an engine constructed over an empty grid ([W * H * T = 0]) has
    no byte to sample: its entropy is [0], its zero density is NaN, and
    the baseline snapshot records both. *)
Theorem empty_grid_has_no_zero_density log2 host (c : SimulationConfig) (e : BFFSimulation) :
  new log2 host c = Some e ->
  gridWidth c * gridHeight c * tapeSize c = 0 ->
  data e = []
  /\ entropy (stats e) = F64.zero
  /\ zeroDensity (stats e) = S754_nan
  /\ history e = [stats e].
Proof.
  intros Hnew H0. rewrite (new_eq log2 host c e Hnew).
  unfold reset, blank. cbn [config data seedingMode seed width height epochSize].
  rewrite H0. cbn [Z.to_nat replicate length fill].
  cbn [data stats history entropy zeroDensity].
  split; [reflexivity|]. split; [|split; [|reflexivity]]; vm_compute; reflexivity.
Qed.

Lemma empty_grid_has_no_zero_density_witness :
  to_be_rejected cfg_empty = true
  /\ forall log2, exists e,
       new log2 ample_host cfg_empty = Some e
       /\ data e = []
       /\ entropy (stats e) = F64.zero
       /\ zeroDensity (stats e) = S754_nan
       /\ history e = [stats e].
Proof.
  split; [vm_compute; reflexivity|].
  intros log2.
  destruct (new_returns log2 ample_host cfg_empty) as [e He]; [vm_compute; intuition discriminate|].
  exists e. split; [exact He|].
  apply (empty_grid_has_no_zero_density log2 ample_host cfg_empty e He). reflexivity.
Defined.


(** ** The two cells of an interaction *)

Section RoundTrip.

Lemma set_same a i : TypedArray.set a i (TypedArray.elem (TypedArray.get a i)) = a.
Proof.
  unfold TypedArray.set, TypedArray.get. destruct (i <? 0); [reflexivity|].
  destruct (a !! Z.to_nat i) as [v|] eqn:Hv; cbn [TypedArray.elem default id].
  - apply list_insert_id. exact Hv.
  - apply list_insert_ge. apply lookup_ge_None. exact Hv.
Qed.

Lemma load_tape_get d tapeSize oa ob (i : nat) :
  Z.of_nat i < tapeSize ->
  TypedArray.get (load_tape d tapeSize oa ob) (Z.of_nat i)
  = Some (TypedArray.elem (TypedArray.get d (index_at oa (Z.of_nat i))))
  /\ TypedArray.get (load_tape d tapeSize oa ob) (tapeSize + Z.of_nat i)
     = Some (TypedArray.elem (TypedArray.get d (index_at ob (Z.of_nat i)))).
Proof.
  intros Hi.
  pose (cell := fun base =>
    map (fun j => TypedArray.elem (TypedArray.get d (index_at base (Z.of_nat j))))
        (seq 0 (Z.to_nat tapeSize))).
  change (load_tape d tapeSize oa ob) with (cell oa ++ cell ob).
  assert (Hlen : forall base, length (cell base) = Z.to_nat tapeSize)
    by (intros base; unfold cell; rewrite length_map, length_seq; reflexivity).
  assert (Hcell : forall base,
            cell base !! i
            = Some (TypedArray.elem (TypedArray.get d (index_at base (Z.of_nat i))))).
  { intros base. unfold cell.
    change (map ?f ?l) with (f <$> l).
    rewrite list_lookup_fmap, lookup_seq_lt by lia. reflexivity. }
  unfold TypedArray.get.
  destruct (Z.ltb_spec (Z.of_nat i) 0); [lia|].
  destruct (Z.ltb_spec (tapeSize + Z.of_nat i) 0); [lia|].
  split.
  - rewrite Nat2Z.id, lookup_app_l by (rewrite Hlen; lia). apply Hcell.
  - replace (Z.to_nat (tapeSize + Z.of_nat i)) with (length (cell oa) + i)%nat
      by (rewrite Hlen; lia).
    rewrite lookup_app_r by lia.
    replace (length (cell oa) + i - length (cell oa))%nat with i by lia.
    apply Hcell.
Qed.

End RoundTrip.

(** Writing back, over any offsets below [tapeSize], the bytes that
    were loaded from the grid changes nothing. *)
Lemma store_loaded_bytes (d : list Z) (tapeSize : Z) (oa ob : option Z) (l : list nat) :
  (forall i, In i l -> Z.of_nat i < tapeSize) ->
  fold_left
    (fun d0 i =>
       let i := Z.of_nat i in
       TypedArray.set
         (TypedArray.set d0 (index_at oa i)
            (TypedArray.elem (TypedArray.get (load_tape d tapeSize oa ob) i)))
         (index_at ob i)
         (TypedArray.elem (TypedArray.get (load_tape d tapeSize oa ob) (tapeSize + i))))
    l d = d.
Proof.
  induction l as [|i l IH]; intros Hl; cbn [fold_left]; [reflexivity|].
  assert (Hi : Z.of_nat i < tapeSize) by (apply Hl; left; reflexivity).
  destruct (load_tape_get d tapeSize oa ob i Hi) as [HA HB].
  cbn zeta. rewrite HA, HB. cbn [TypedArray.elem default id].
  change (default 0 (TypedArray.get d ?x)) with (TypedArray.elem (TypedArray.get d x)).
  rewrite !set_same. apply IH. intros j Hj. apply Hl. right. exact Hj.
Qed.

(** X19: loading two cells into the interaction buffer and storing the
    buffer back leaves the grid as it was, wherever the two cells are
    (the same cell, overlapping cells, offsets outside the grid). *)
Theorem store_after_load_is_identity (d : list Z) (tapeSize : Z) (oa ob : option Z) :
  store_tape d (load_tape d tapeSize oa ob) tapeSize oa ob = d.
Proof.
  unfold store_tape. apply store_loaded_bytes.
  intros i Hi. apply in_seq in Hi.
  destruct Hi as [_ Hi]. cbn [Nat.add] in Hi.
  apply Nat2Z.inj_lt in Hi. rewrite Z2Nat.id in Hi; [exact Hi|].
  destruct (Z.le_gt_cases 0 tapeSize) as [H0|H0]; [exact H0|].
  rewrite Z2Nat.nonpos in Hi by lia. lia.
Qed.

Section Locality.
Variable log2 : spec_float -> spec_float.

Lemma set_lookup_other a i v (k : nat) :
  i <> Z.of_nat k -> TypedArray.set a i v !! k = a !! k.
Proof.
  intros Hne. unfold TypedArray.set. destruct (Z.ltb_spec i 0); [reflexivity|].
  apply list_lookup_insert_ne. lia.
Qed.

Lemma store_tape_other d t tapeSize oa ob (k : nat) :
  (forall A, oa = Some A -> ~ (A <= Z.of_nat k < A + tapeSize)) ->
  (forall B, ob = Some B -> ~ (B <= Z.of_nat k < B + tapeSize)) ->
  store_tape d t tapeSize oa ob !! k = d !! k.
Proof.
  intros HA HB. unfold store_tape.
  assert (Hgen : forall l d0,
            (forall i, In i l -> Z.of_nat i < tapeSize) ->
            fold_left
              (fun d i =>
                 let i := Z.of_nat i in
                 TypedArray.set (TypedArray.set d (index_at oa i) (TypedArray.elem (TypedArray.get t i)))
                   (index_at ob i) (TypedArray.elem (TypedArray.get t (tapeSize + i))))
              l d0 !! k = d0 !! k).
  { induction l as [|i l IH]; intros d0 Hl; cbn [fold_left]; [reflexivity|].
    rewrite IH by (intros j Hj; apply Hl; right; exact Hj).
    assert (Hi : Z.of_nat i < tapeSize) by (apply Hl; left; reflexivity).
    cbn zeta. rewrite !set_lookup_other; [reflexivity| |].
    - destruct oa as [A|]; cbn [index_at]; [|lia].
      specialize (HA A eq_refl). lia.
    - destruct ob as [B|]; cbn [index_at]; [|lia].
      specialize (HB B eq_refl). lia. }
  apply Hgen. intros i Hi. apply in_seq in Hi. lia.
Qed.

Lemma completeEpoch_data_off e e' :
  F64.leb (mutationRate (config e)) F64.zero = true ->
  completeEpoch log2 e = Some e' -> data e' = data e.
Proof.
  intros Hoff. unfold completeEpoch. rewrite (mutate_off _ _ _ Hoff).
  cbn [mbind option_bind]. intros [= <-]. reflexivity.
Qed.

End Locality.

(** X20: an interaction that completes no epoch, or runs with mutation
    off, changes no byte of the grid outside its cells A and B. *)
Theorem interact_is_local log2 fuel (e e' : BFFSimulation) s (oa ob : option Z) (k : nat) :
  pick fuel e = Some (s, Some (oa, ob)) ->
  interact log2 fuel e = Some e' ->
  epochInteractions e + 1 < epochSize e
  \/ F64.leb (mutationRate (config e)) F64.zero = true ->
  (forall A, oa = Some A -> ~ (A <= Z.of_nat k < A + tapeSize (config e))) ->
  (forall B, ob = Some B -> ~ (B <= Z.of_nat k < B + tapeSize (config e))) ->
  data e' !! k = data e !! k.
Proof.
  intros Hp Hi Hquiet HA HB.
  destruct (interact_stores log2 fuel e e' s oa ob Hp Hi) as (e2 & He2 & _ & Hd).
  cbn zeta in He2, Hd. rewrite Hd, store_tape_other by assumption.
  cbn [account set_rng epochInteractions epochSize] in He2.
  destruct (Z.geb_spec (epochInteractions e + 1) (epochSize e)) as [Hge|Hlt].
  - destruct Hquiet as [Hlt|Hoff]; [lia|].
    rewrite (completeEpoch_data_off log2 _ e2 (Hoff : F64.leb (mutationRate (config (account (set_rng e s) _))) F64.zero = true) He2).
    reflexivity.
  - injection He2 as <-. reflexivity.
Qed.

(** X20 at work: the first interaction of the 2 x 2 grid pairs the
    cells at offsets 2 and 6 and leaves byte 0 alone. *)
Lemma interact_is_local_witness :
  valid_config cfg_soup = true
  /\ forall log2, exists e e' s,
       new log2 ample_host cfg_soup = Some e
       /\ pick 8 e = Some (s, Some (Some 2, Some 6))
       /\ interact log2 8 e = Some e'
       /\ data e' !! 0%nat = data e !! 0%nat.
Proof.
  split; [vm_compute; reflexivity|].
  intros log2.
  destruct (new_returns log2 ample_host cfg_soup) as [e He]; [vm_compute; intuition discriminate|].
  destruct (new_fields log2 ample_host cfg_soup e He) as (Hc & _ & _ & Hs & _ & Hi0 & _).
  assert (Hf : (e' ← interact log2 8 e; Some (snd <$> pick 8 e))
               = Some (Some (Some (Some 2, Some 6)))).
  { rewrite (new_eq log2 ample_host cfg_soup e He). vm_compute. reflexivity. }
  destruct (interact log2 8 e) as [e'|] eqn:Hi; cbn [mbind option_bind] in Hf;
    [|discriminate].
  destruct (pick 8 e) as [[s cells]|] eqn:Hp;
    cbn [fmap option_fmap option_map snd] in Hf; [|discriminate].
  assert (cells = Some (Some 2, Some 6)) as -> by congruence.
  exists e, e', s. split; [exact He|]. split; [exact Hp|]. split; [exact Hi|].
  apply (interact_is_local log2 8 e e' s (Some 2) (Some 6) 0 Hp Hi).
  - left. rewrite Hi0, Hs. vm_compute. reflexivity.
  - intros A [= <-]. rewrite Hc. vm_compute. intros [H _]. apply H. reflexivity.
  - intros B [= <-]. rewrite Hc. vm_compute. intros [H _]. apply H. reflexivity.
Defined.

(** X21: an interaction whose joined tape holds no writing instruction
    leaves the whole grid as it was (when it completes no epoch, or
    mutation is off). *)
Theorem read_only_interaction_keeps_grid log2 fuel (e e' : BFFSimulation) s
    (oa ob : option Z) :
  pick fuel e = Some (s, Some (oa, ob)) ->
  forallb (fun b => negb (writes_tape b))
          (load_tape (data e) (tapeSize (config e)) oa ob) = true ->
  epochInteractions e + 1 < epochSize e
  \/ F64.leb (mutationRate (config e)) F64.zero = true ->
  interact log2 fuel e = Some e' ->
  data e' = data e.
Proof.
  intros Hp Hro Hquiet Hi.
  destruct (interact_stores log2 fuel e e' s oa ob Hp Hi) as (e2 & He2 & _ & Hd).
  cbn zeta in He2, Hd.
  destruct (execute_keeps_read_only_tape (tapeSize (config e))
              (instructionLimit (config e)) _ Hro) as (Ht & _).
  rewrite Ht in Hd.
  assert (H2 : data e2 = data e).
  { cbn [account set_rng epochInteractions epochSize] in He2.
    destruct (Z.geb_spec (epochInteractions e + 1) (epochSize e)) as [Hge|Hlt].
    - destruct Hquiet as [Hlt|Hoff]; [lia|].
      exact (completeEpoch_data_off log2 _ e2
               (Hoff : F64.leb (mutationRate (config (account (set_rng e s) _))) F64.zero = true)
               He2).
    - injection He2 as <-. reflexivity. }
  rewrite Hd, H2. unfold store_tape. apply store_loaded_bytes.
  intros i Hin. apply in_seq in Hin. lia.
Qed.

(** X21 at work: the first interaction of the 2 x 2 grid seeded with 4
    joins [<], [0], [{], [<]. *)
Lemma read_only_interaction_keeps_grid_witness :
  valid_config cfg_quiet = true
  /\ forall log2, exists e e' s,
       new log2 ample_host cfg_quiet = Some e
       /\ pick 8 e = Some (s, Some (Some 6, Some 2))
       /\ load_tape (data e) 2 (Some 6) (Some 2) = [60; 0; 123; 60]
       /\ interact log2 8 e = Some e'
       /\ data e' = data e.
Proof.
  split; [vm_compute; reflexivity|].
  intros log2.
  destruct (new_returns log2 ample_host cfg_quiet) as [e He]; [vm_compute; intuition discriminate|].
  destruct (new_fields log2 ample_host cfg_quiet e He) as (Hc & _ & _ & Hs & _ & Hi0 & _).
  assert (Hf : (e' ← interact log2 8 e;
                Some (snd <$> pick 8 e, load_tape (data e) 2 (Some 6) (Some 2)))
               = Some (Some (Some (Some 6, Some 2)), [60; 0; 123; 60])).
  { rewrite (new_eq log2 ample_host cfg_quiet e He). vm_compute. reflexivity. }
  destruct (interact log2 8 e) as [e'|] eqn:Hi; cbn [mbind option_bind] in Hf;
    [|discriminate].
  apply (f_equal (default (None, []))) in Hf. cbn [default id] in Hf.
  pose proof (f_equal fst Hf) as Hpick. pose proof (f_equal snd Hf) as Hload.
  cbn [fst snd] in Hpick, Hload. clear Hf.
  destruct (pick 8 e) as [[s cells]|] eqn:Hp;
    cbn [fmap option_fmap option_map snd] in Hpick; [|discriminate].
  assert (cells = Some (Some 6, Some 2)) as -> by congruence.
  exists e, e', s. split; [exact He|]. split; [exact Hp|]. split; [exact Hload|].
  split; [exact Hi|].
  apply (read_only_interaction_keeps_grid log2 8 e e' s (Some 6) (Some 2) Hp).
  - rewrite Hc. change (tapeSize cfg_quiet) with 2. rewrite Hload. reflexivity.
  - left. rewrite Hi0, Hs. vm_compute. reflexivity.
  - exact Hi.
Defined.

Section Choice.

Lemma pick_global_other fuel : forall s w h x y s' nx ny,
  pick_global fuel s w h x y = Some (s', nx, ny) -> nx <> x \/ ny <> y.
Proof.
  induction fuel as [|fuel IH]; intros s w h x y s' nx ny; cbn [pick_global];
    [discriminate|].
  destruct (PRNG.next s) as [s1 r1]. destruct (PRNG.next s1) as [s2 r2].
  destruct (Z.eqb_spec (PRNG.scale r1 w) x) as [Hx|Hx];
    destruct (Z.eqb_spec (PRNG.scale r2 h) y) as [Hy|Hy]; cbn [andb];
    try (intros [= <- <- <-]; tauto).
  apply IH.
Qed.

Lemma cell_index_inj x y x' y' w :
  0 <= x < w -> 0 <= x' < w -> y * w + x = y' * w + x' -> x = x' /\ y = y'.
Proof. intros Hx Hx' Heq. assert (y = y') by nia. subst. lia. Qed.


End Choice.

(** X22: under the global topology (grid at most [2^21] cells wide and
    high), a returned choice of cells is never abandoned, both cells lie
    on the grid, and they are two different cells. *)
Theorem global_never_pairs_a_cell_with_itself fuel (e : BFFSimulation) s cells :
  topology (config e) = global ->
  0 < width e <= 2 ^ 21 -> 0 < height e <= 2 ^ 21 ->
  pick fuel e = Some (s, cells) ->
  exists a b,
    cells = Some (Some (a * tapeSize (config e)), Some (b * tapeSize (config e)))
    /\ 0 <= a < width e * height e /\ 0 <= b < width e * height e
    /\ a <> b.
Proof.
  intros Hg Hw Hh. unfold pick. rewrite Hg.
  destruct (PRNG.next (rng e)) as [s1 r1] eqn:E1.
  pose proof (F64Facts.scale_next (rng e) (width e) Hw) as H1.
  rewrite E1 in H1. cbn [snd] in H1.
  destruct (PRNG.next s1) as [s2 r2] eqn:E2.
  pose proof (F64Facts.scale_next s1 (height e) Hh) as H2.
  rewrite E2 in H2. cbn [snd] in H2.
  destruct (pick_global fuel s2 (width e) (height e) _ _) as [[[s3 nx] ny]|] eqn:Hpg;
    cbn [mbind option_bind]; [|discriminate].
  intros [= <- <-].
  destruct (pick_global_range _ _ _ _ _ _ _ _ _ Hw Hh Hpg) as [Hnx Hny].
  pose proof (pick_global_other _ _ _ _ _ _ _ _ _ Hpg) as Hother.
  eexists _, _. split; [reflexivity|].
  split; [apply cell_index_range; assumption|].
  split; [apply cell_index_range; assumption|].
  intros Heq. apply cell_index_inj in Heq; [|lia|lia]. lia.
Qed.

(** X22 at work on the 2 x 2 grid. *)
Lemma global_never_pairs_a_cell_with_itself_witness :
  valid_config cfg_soup = true
  /\ forall log2, exists e s cells,
       new log2 ample_host cfg_soup = Some e
       /\ pick 8 e = Some (s, cells)
       /\ exists a b,
            cells = Some (Some (a * tapeSize (config e)), Some (b * tapeSize (config e)))
            /\ 0 <= a < width e * height e /\ 0 <= b < width e * height e
            /\ a <> b.
Proof.
  split; [vm_compute; reflexivity|].
  intros log2.
  destruct (new_returns log2 ample_host cfg_soup) as [e He]; [vm_compute; intuition discriminate|].
  destruct (new_fields log2 ample_host cfg_soup e He) as (Hc & Hw & Hh & _).
  assert (Hf : is_Some (snd <$> pick 8 e)).
  { rewrite (new_eq log2 ample_host cfg_soup e He). vm_compute. eexists. reflexivity. }
  destruct (pick 8 e) as [[s cells]|] eqn:Hp;
    [|destruct Hf as [x Hx]; discriminate].
  exists e, s, cells. split; [exact He|]. split; [exact Hp|].
  apply (global_never_pairs_a_cell_with_itself 8 e s cells).
  - rewrite Hc. reflexivity.
  - rewrite Hw. vm_compute. split; [reflexivity|discriminate].
  - rewrite Hh. vm_compute. split; [reflexivity|discriminate].
  - exact Hp.
Defined.



(** ** Returning and not returning *)

(** X26: with [mutationRate = +Infinity] on a grid that is not empty,
    [completeEpoch] never returns, and neither does an interaction that
    completes an epoch: the mutation loop counts to infinity. *)
Theorem infinite_mutation_rate_never_returns log2 (e : BFFSimulation) :
  mutationRate (config e) = S754_infinity false ->
  0 < Z.of_nat (length (data e)) < 2 ^ 53 ->
  completeEpoch log2 e = None
  /\ forall fuel s cells,
       pick fuel e = Some (s, Some cells) ->
       epochSize e <= epochInteractions e + 1 ->
       interact log2 fuel e = None.
Proof.
  intros Hrate Hlen.
  assert (Hce : forall e1, config e1 = config e -> data e1 = data e ->
            completeEpoch log2 e1 = None).
  { intros e1 Hc Hd. unfold completeEpoch.
    rewrite Hc, Hd, Hrate, (mutate_infinite _ _ Hlen). reflexivity. }
  split; [apply Hce; reflexivity|].
  intros fuel s [oa ob] Hp Hfull.
  destruct (interact log2 fuel e) as [e'|] eqn:Hi; [exfalso|reflexivity].
  destruct (interact_stores log2 fuel e e' s oa ob Hp Hi) as (e2 & He2 & _).
  cbn zeta in He2. cbn [account set_rng epochInteractions epochSize] in He2.
  destruct (Z.geb_spec (epochInteractions e + 1) (epochSize e)) as [_|Hlt]; [|lia].
  rewrite Hce in He2 by reflexivity. discriminate.
Qed.

(** X26 at work: the constructor accepts the rate, and the first epoch
    cannot be completed. *)
Lemma infinite_mutation_rate_never_returns_witness :
  to_be_rejected cfg_blaze = true
  /\ forall log2, exists e,
       new log2 ample_host cfg_blaze = Some e
       /\ completeEpoch log2 e = None
       /\ forall fuel s cells,
            pick fuel e = Some (s, Some cells) ->
            epochSize e <= epochInteractions e + 1 ->
            interact log2 fuel e = None.
Proof.
  split; [vm_compute; reflexivity|].
  intros log2.
  destruct (new_returns log2 ample_host cfg_blaze) as [e He]; [vm_compute; intuition discriminate|].
  destruct (new_fields log2 ample_host cfg_blaze e He) as (Hc & _).
  destruct (new_invariant log2 ample_host cfg_blaze e He) as [Hw Hh _ Hd _ _].
  exists e. split; [exact He|].
  apply (infinite_mutation_rate_never_returns log2 e).
  - rewrite Hc. reflexivity.
  - rewrite Hd, Hw, Hh, Hc. vm_compute. split; reflexivity.
Defined.

(** X27: under the spatial topology with mutation off, [interact] and
    [step(n)] return, whatever bound the model puts on the resampling
    loop (which that topology never enters). *)
Theorem spatial_step_returns log2 (e : BFFSimulation) (n : Z) (fuel : nat) :
  topology (config e) = spatial ->
  F64.leb (mutationRate (config e)) F64.zero = true ->
  is_Some (interact log2 fuel e) /\ is_Some (step log2 n fuel e).
Proof.
  intros Ht Hm. split.
  - apply interact_spatial_total; assumption.
  - unfold step. apply step_spatial_total; assumption.
Qed.

(** X27 at work on the 4 x 4 grid. *)
Lemma spatial_step_returns_witness :
  valid_config cfg0 = true
  /\ forall log2, exists e,
       new log2 ample_host cfg0 = Some e
       /\ is_Some (interact log2 0 e) /\ is_Some (step log2 100 0 e).
Proof.
  split; [vm_compute; reflexivity|].
  intros log2.
  destruct (new_returns log2 ample_host cfg0) as [e He]; [vm_compute; intuition discriminate|].
  destruct (new_fields log2 ample_host cfg0 e He) as (Hc & _).
  exists e. split; [exact He|].
  apply (spatial_step_returns log2 e 100 0); rewrite Hc; reflexivity.
Defined.

(** ** The palette and the instruction set *)

(** X24: [generatePalette] returns 1024 bytes, and for every byte value
    [b] in [0..255] the four entries from [4 * b] are the red, green and
    blue of [getByteColor(b)] and the alpha [255]. *)
Theorem palette_tabulates_colours (byte : Z) :
  0 <= byte < 256 ->
  length Palette.generatePalette = 1024%nat
  /\ Js.slice Palette.generatePalette (byte * 4) (byte * 4 + 4)
     = let '(r, g, b) := Palette.getByteColor byte in [r; g; b; 255].
Proof.
  intros Hb.
  assert (Hall : forallb
            (fun i => bool_decide
               (Js.slice Palette.generatePalette (Z.of_nat i * 4) (Z.of_nat i * 4 + 4)
                = let '(r, g, b) := Palette.getByteColor (Z.of_nat i) in [r; g; b; 255]))
            (seq 0 256) = true)
    by (vm_compute; reflexivity).
  split; [vm_compute; reflexivity|].
  rewrite forallb_forall in Hall.
  specialize (Hall (Z.to_nat byte) ltac:(apply in_seq; lia)).
  apply bool_decide_eq_true in Hall. rewrite Z2Nat.id in Hall by lia. exact Hall.
Qed.

(** X24 at work: the colour of [[]. *)
Lemma palette_tabulates_colours_witness :
  length Palette.generatePalette = 1024%nat
  /\ Js.slice Palette.generatePalette (91 * 4) (91 * 4 + 4)
     = let '(r, g, b) := Palette.getByteColor 91 in [r; g; b; 255].
Proof. apply (palette_tabulates_colours 91). lia. Defined.

(** X25: the same ten bytes are instructions everywhere: a byte is in
    [VALID_OPS] (the balanced seeding) exactly when the VM executes it
    as an instruction, exactly when the inspector's [isInstruction]
    accepts it, and exactly when [getByteColor] gives it a colour that
    is not a gray. *)
Theorem instruction_set_is_shared (byte : Z) :
  (byte ∈ VALID_OPS <-> VM.decode (Some byte) <> VM.OpOther)
  /\ (byte ∈ VALID_OPS <-> Palette.isInstruction byte = true)
  /\ (byte ∈ VALID_OPS <-> Palette.gray (Palette.getByteColor byte) = false).
Proof.
  assert (Hcases :
    byte = 60 \/ byte = 62 \/ byte = 123 \/ byte = 125 \/ byte = 45 \/ byte = 43
    \/ byte = 46 \/ byte = 44 \/ byte = 91 \/ byte = 93
    \/ (byte <> 60 /\ byte <> 62 /\ byte <> 123 /\ byte <> 125 /\ byte <> 45
        /\ byte <> 43 /\ byte <> 46 /\ byte <> 44 /\ byte <> 91 /\ byte <> 93)) by lia.
  assert (Hin : forall l, byte ∈ l <-> In byte l) by (intros l; apply list_elem_of_In).
  repeat (destruct Hcases as [->|Hcases];
    [split; [|split]; (split; [intros _; vm_compute; congruence
                             |intros _; apply list_elem_of_In; vm_compute; tauto])|]).
  destruct Hcases as (H1 & H2 & H3 & H4 & H5 & H6 & H7 & H8 & H9 & H10).
  assert (Hout : ~ byte ∈ VALID_OPS).
  { rewrite Hin. unfold VALID_OPS, VM.CMD_LEFT, VM.CMD_RIGHT, VM.CMD_H1_DEC, VM.CMD_H1_INC,
      VM.CMD_DEC, VM.CMD_INC, VM.CMD_COPY_0_TO_1, VM.CMD_COPY_1_TO_0, VM.CMD_JZ, VM.CMD_JNZ.
    cbn [In]. lia. }
  split; [|split]; (split; [intros H; contradiction|]); intros H; exfalso.
  - apply H. unfold VM.decode, VM.CMD_LEFT, VM.CMD_RIGHT, VM.CMD_H1_DEC, VM.CMD_H1_INC,
      VM.CMD_DEC, VM.CMD_INC, VM.CMD_COPY_0_TO_1, VM.CMD_COPY_1_TO_0, VM.CMD_JZ, VM.CMD_JNZ.
    repeat (case Z.eqb_spec; [lia|intros _]). reflexivity.
  - unfold Palette.isInstruction in H. apply bool_decide_eq_true in H.
    apply Hout. exact H.
  - revert H. unfold Palette.getByteColor, VM.CMD_LEFT, VM.CMD_RIGHT, VM.CMD_H1_DEC,
      VM.CMD_H1_INC, VM.CMD_DEC, VM.CMD_INC, VM.CMD_COPY_0_TO_1, VM.CMD_COPY_1_TO_0,
      VM.CMD_JZ, VM.CMD_JNZ.
    repeat (case Z.eqb_spec; [lia|intros _]). cbn [orb].
    case Z.eqb_spec; intros _; cbn [Palette.gray]; rewrite ?Z.eqb_refl; discriminate.
Qed.

(** ** The write-back and the mutation pass *)

(** X28: an interaction whose two cells lie inside the grid and do not
    overlap leaves in cell A the first half and in cell B the second half
    of the tape as the VM left it, also when it completes an epoch:
    [completeEpoch] (mutation included) runs on the grid before the
    write-back, which then overwrites whatever the mutation pass put in
    the two cells. *)
Theorem write_back_overrides_mutation log2 fuel (e e' : BFFSimulation) s (idxA idxB : Z) :
  0 <= tapeSize (config e) -> 0 <= idxA -> 0 <= idxB ->
  idxA + tapeSize (config e) <= Z.of_nat (length (data e)) ->
  idxB + tapeSize (config e) <= Z.of_nat (length (data e)) ->
  idxA + tapeSize (config e) <= idxB \/ idxB + tapeSize (config e) <= idxA ->
  pick fuel e = Some (s, Some (Some idxA, Some idxB)) ->
  interact log2 fuel e = Some e' ->
  let T := tapeSize (config e) in
  let run := VM.execute T (instructionLimit (config e))
                        (load_tape (data e) T (Some idxA) (Some idxB)) in
  Js.slice (data e') idxA (idxA + T) = take (Z.to_nat T) run.2
  /\ Js.slice (data e') idxB (idxB + T) = drop (Z.to_nat T) run.2
  /\ (epochSize e <= epochInteractions e + 1 ->
      exists e2,
        completeEpoch log2 (account (set_rng e s) run.1) = Some e2
        /\ data e' = store_tape (data e2) run.2 T (Some idxA) (Some idxB)).
Proof.
  intros HT HA0 HB0 HA1 HB1 Hapart Hpick Hint. cbn zeta.
  destruct (interact_stores log2 fuel e e' s _ _ Hpick Hint) as (e2 & He2 & Hlen & Hd).
  cbn zeta in He2, Hd.
  set (T := tapeSize (config e)) in *.
  set (run := VM.execute T (instructionLimit (config e))
                (load_tape (data e) T (Some idxA) (Some idxB))) in *.
  assert (Hrunlen : length run.2 = (Z.to_nat T + Z.to_nat T)%nat)
    by (unfold run; rewrite execute_length, load_tape_length; reflexivity).
  rewrite <- Hlen in HA1, HB1.
  destruct (store_tape_slices (data e2) run.2 T idxA idxB
              HT HA0 HB0 Hapart HA1 HB1 Hrunlen) as [HsA HsB].
  rewrite Hd. split; [exact HsA|]. split; [exact HsB|].
  intros Hfull. exists e2. split; [|reflexivity].
  cbn [account epochInteractions epochSize set_rng] in He2.
  destruct (Z.geb_spec (epochInteractions e + 1) (epochSize e)); [exact He2|lia].
Qed.

(** X28 at work: the fourth interaction of the 2 x 2 grid seeded with 6
    (mutation rate 1) completes the first epoch on the cells at offsets 6
    and 4. The mutation pass leaves [[148; 44]] and [[103; 146]] in the
    two cells, and the write-back replaces them by the VM's output. *)
Lemma write_back_overrides_mutation_witness :
  valid_config cfg_pairs_apart = true
  /\ forall log2, exists e e3 e4 s,
         new log2 ample_host cfg_pairs_apart = Some e
         /\ step log2 3 0 e = Some e3
         /\ pick 0 e3 = Some (s, Some (Some 6, Some 4))
         /\ interact log2 0 e3 = Some e4
         /\ epochSize e3 <= epochInteractions e3 + 1
         /\ (exists e2,
               completeEpoch log2
                 (account (set_rng e3 s)
                    (VM.execute 2 16 (load_tape (data e3) 2 (Some 6) (Some 4))).1)
               = Some e2
               /\ Js.slice (data e2) 4 8 = [148; 44; 103; 146])
         /\ Js.slice (data e4) 4 8 = [60; 60; 60; 60]
         /\ let T := tapeSize (config e3) in
            let run := VM.execute T (instructionLimit (config e3))
                                  (load_tape (data e3) T (Some 6) (Some 4)) in
            Js.slice (data e4) 6 (6 + T) = take (Z.to_nat T) run.2
            /\ Js.slice (data e4) 4 (4 + T) = drop (Z.to_nat T) run.2
            /\ (epochSize e3 <= epochInteractions e3 + 1 ->
                exists e2,
                  completeEpoch log2 (account (set_rng e3 s) run.1) = Some e2
                  /\ data e4 = store_tape (data e2) run.2 T (Some 6) (Some 4)).
Proof.
  split; [vm_compute; reflexivity|].
  intros log2.
  destruct (new_returns log2 ample_host cfg_pairs_apart) as [e He]; [vm_compute; intuition discriminate|].
  exists e.
  pose proof (new_eq log2 ample_host cfg_pairs_apart e He) as ->.
  set (e0 := reset log2 (blank cfg_pairs_apart)) in *.
  assert (Hf :
    (e3 ← step log2 3 0 e0;
     e4 ← interact log2 0 e3;
     Some (epochInteractions e3 + 1 - epochSize e3, snd <$> pick 0 e3,
           tapeSize (config e3), Z.of_nat (length (data e3))))
    = Some (0, Some (Some (Some 6, Some 4)), 2, 8))
    by (vm_compute; reflexivity).
  assert (Hm :
    (e3 ← step log2 3 0 e0;
     e4 ← interact log2 0 e3;
     '(s, _) ← pick 0 e3;
     e2 ← completeEpoch log2
            (account (set_rng e3 s)
               (VM.execute 2 16 (load_tape (data e3) 2 (Some 6) (Some 4))).1);
     Some (Js.slice (data e2) 4 8, Js.slice (data e4) 4 8))
    = Some ([148; 44; 103; 146], [60; 60; 60; 60]))
    by (vm_compute; reflexivity).
  destruct (step log2 3 0 e0) as [e3|] eqn:Hs3; cbn [mbind option_bind] in Hf, Hm;
    [|discriminate].
  destruct (interact log2 0 e3) as [e4|] eqn:Hi4; cbn [mbind option_bind] in Hf, Hm;
    [|discriminate].
  apply (f_equal (default (0, None, 0, 0))) in Hf. cbn [default id] in Hf.
  pose proof (f_equal snd Hf) as H4.
  pose proof (f_equal (fun p => snd (fst p)) Hf) as H3.
  pose proof (f_equal (fun p => snd (fst (fst p))) Hf) as H2.
  pose proof (f_equal (fun p => fst (fst (fst p))) Hf) as H1.
  cbn [fst snd] in H1, H2, H3, H4. clear Hf.
  destruct (pick 0 e3) as [[s cells]|] eqn:Hp;
    cbn [fmap option_fmap option_map snd] in H2; [|discriminate].
  injection H2 as ->.
  cbn [mbind option_bind] in Hm.
  destruct (completeEpoch log2 _) as [e2|] eqn:He2 in Hm; cbn [mbind option_bind] in Hm;
    [|discriminate].
  apply (f_equal (default ([], []))) in Hm. cbn [default id] in Hm.
  pose proof (f_equal fst Hm) as Hm1. pose proof (f_equal snd Hm) as Hm2.
  cbn [fst snd] in Hm1, Hm2. clear Hm.
  exists e3, e4, s.
  split; [exact He|].
  split; [reflexivity|]. split; [exact Hp|]. split; [exact Hi4|]. split; [lia|].
  split; [exists e2; split; [exact He2|exact Hm1]|]. split; [exact Hm2|].
  apply (write_back_overrides_mutation log2 0 e3 e4 s 6 4).
  - lia.
  - lia.
  - lia.
  - lia.
  - lia.
  - lia.
  - exact Hp.
  - exact Hi4.
Defined.
